(** * CREAM: the [SupervisedMAE] counting network (models_mae_cross.py)

    A shallow embedding of the forward pass of [SupervisedMAE]: tensors are
    a shape together with their row-major contents, tensor operations that
    can raise in PyTorch return [option], and the learned layers are kept
    as functions of their input whose output shape follows the layer's
    hyper-parameters.  Scalars are real numbers: rounding of the float32
    arithmetic of the tensor runtime is outside this model, except for the
    gate and the division of lines 93 and 205-207, which are given in IEEE
    754 single precision as well. *)

From Stdlib Require Import List ZArith Lia Reals Lra Bool SpecFloat.
Import ListNotations.
Open Scope Z_scope.

(** ** Tensors: shape and row-major contents *)

Record tensor : Type := mkT { shape : list Z; data : list R }.

(** Number of elements of a shape. *)
Definition numel (sh : list Z) : Z := fold_right Z.mul 1 sh.

(** [range n] is Python's [range(n)]. *)
Definition range (n : Z) : list Z := map Z.of_nat (seq 0 (Z.to_nat n)).

(** Row-major offset of a multi-index, and its inverse. *)
Fixpoint ravel (sh idx : list Z) : Z :=
  match sh, idx with
  | _ :: sh', i :: idx' => i * numel sh' + ravel sh' idx'
  | _, _ => 0
  end.

Fixpoint unravel (sh : list Z) (k : Z) : list Z :=
  match sh with
  | [] => []
  | _ :: sh' => (k / numel sh') :: unravel sh' (k mod numel sh')
  end.

(** A multi-index is in bounds when it has one coordinate per dimension,
    each within its size. *)
Definition in_bounds (sh idx : list Z) : Prop :=
  Forall2 (fun i d => 0 <= i < d) idx sh.

(** A shape is valid when no size is negative; a tensor is well formed when
    it holds one value per position. *)
Definition valid_shape (sh : list Z) : Prop := Forall (fun d => 0 <= d) sh.

Definition wf (t : tensor) : Prop :=
  List.length (data t) = Z.to_nat (numel (shape t)).

(** Element access [t[idx]] and construction of a tensor from a function of
    the multi-index. *)
Definition get (t : tensor) (idx : list Z) : R :=
  nth (Z.to_nat (ravel (shape t) idx)) (data t) 0%R.

Definition tabulate (sh : list Z) (f : list Z -> R) : tensor :=
  mkT sh (map (fun k => f (unravel sh k)) (range (numel sh))).

(** Sum of [f 0 .. f (n-1)]. *)
Definition rsum (n : Z) (f : Z -> R) : R :=
  fold_right Rplus 0%R (map f (range n)).

(** ** The option monad carries the exceptions of the tensor runtime *)

Definition bind {A B : Type} (c : option A) (k : A -> option B) : option B :=
  match c with
  | Some a => k a
  | None => None
  end.

Notation "x <- c ;; k" := (bind c (fun x => k))
  (at level 61, c at next level, right associativity).
Notation "' pat <- c ;; k" := (bind c (fun x => match x with pat => k end))
  (at level 61, pat pattern, c at next level, right associativity).

Definition guard (b : bool) : option unit := if b then Some tt else None.

(** ** List helpers *)

Definition zlen {A : Type} (l : list A) : Z := Z.of_nat (List.length l).

Definition znth (l : list Z) (i : Z) : Z := nth (Z.to_nat i) l 0.

(** Python's dimension arguments may be negative: [-1] is the last one. *)
Definition norm_dim (rank d : Z) : option Z :=
  if (0 <=? d) && (d <? rank) then Some d
  else if (- rank <=? d) && (d <? 0) then Some (d + rank)
  else None.

Definition all_nonneg (sh : list Z) : bool := forallb (fun d => 0 <=? d) sh.

Definition shape_eqb (a b : list Z) : bool :=
  if list_eq_dec Z.eq_dec a b then true else false.

(** Insert / remove / replace one coordinate. *)
Definition insert_at (d : Z) (x : Z) (l : list Z) : list Z :=
  firstn (Z.to_nat d) l ++ x :: skipn (Z.to_nat d) l.

Definition remove_at (d : Z) (l : list Z) : list Z :=
  firstn (Z.to_nat d) l ++ skipn (S (Z.to_nat d)) l.

Definition replace_at (d : Z) (x : Z) (l : list Z) : list Z :=
  firstn (Z.to_nat d) l ++ x :: skipn (S (Z.to_nat d)) l.

(** ** Tensor operations used by the forward pass *)

(** [t.permute(dims...)]: [dims] must name every dimension once. *)
Definition is_perm (rank : Z) (dims : list Z) : bool :=
  (zlen dims =? rank) &&
  forallb (fun k => existsb (Z.eqb k) dims) (range rank).

Definition index_of (k : Z) (dims : list Z) : Z :=
  (fix go (l : list Z) (i : Z) : Z :=
     match l with
     | [] => 0
     | d :: l' => if d =? k then i else go l' (i + 1)
     end) dims 0.

Definition permute (dims : list Z) (t : tensor) : option tensor :=
  let rank := zlen (shape t) in
  _ <- guard (is_perm rank dims) ;;
  Some (tabulate (map (znth (shape t)) dims)
          (fun idx => get t (map (fun k => znth idx (index_of k dims))
                               (range rank)))).

Definition swap_dims (rank d0 d1 : Z) : list Z :=
  map (fun k => if k =? d0 then d1 else if k =? d1 then d0 else k)
      (range rank).

(** [t.transpose(d0, d1)]. *)
Definition transpose (d0 d1 : Z) (t : tensor) : option tensor :=
  let rank := zlen (shape t) in
  d0 <- norm_dim rank d0 ;;
  d1 <- norm_dim rank d1 ;;
  permute (swap_dims rank d0 d1) t.

(** [t.reshape(sh...)]: same contents in row-major order, new shape.  The
    model never passes [-1] for a size to infer. *)
Definition reshape (sh : list Z) (t : tensor) : option tensor :=
  _ <- guard (all_nonneg sh && (numel sh =? numel (shape t))) ;;
  Some (mkT sh (data t)).

(** [t.flatten(a, b)] merges dimensions [a..b]. *)
Definition flatten (a b : Z) (t : tensor) : option tensor :=
  let sh := shape t in
  let rank := zlen sh in
  a <- norm_dim rank a ;;
  b <- norm_dim rank b ;;
  _ <- guard (a <=? b) ;;
  let na := Z.to_nat a in
  let nb := Z.to_nat b in
  Some (mkT (firstn na sh
               ++ numel (firstn (S nb - na) (skipn na sh))
               :: skipn (S nb) sh)
            (data t)).

(** [t.unsqueeze(d)]. *)
Definition unsqueeze (d : Z) (t : tensor) : option tensor :=
  d <- norm_dim (zlen (shape t) + 1) d ;;
  Some (mkT (insert_at d 1 (shape t)) (data t)).

(** [t.squeeze(d)] removes dimension [d] when its size is 1 and returns
    the tensor unchanged otherwise. *)
Definition squeeze (d : Z) (t : tensor) : option tensor :=
  d <- norm_dim (zlen (shape t)) d ;;
  Some (if znth (shape t) d =? 1
        then mkT (remove_at d (shape t)) (data t)
        else t).

(** [torch.cat(ts, dim=0)]: all tensors agree on the trailing dimensions. *)
Definition cat0 (ts : list tensor) : option tensor :=
  match ts with
  | [] => None
  | t0 :: _ =>
      match shape t0 with
      | [] => None
      | _ :: rest =>
          _ <- guard (forallb (fun t => match shape t with
                                        | [] => false
                                        | _ :: r => shape_eqb r rest
                                        end) ts) ;;
          Some (mkT (fold_right Z.add 0 (map (fun t => znth (shape t) 0) ts)
                       :: rest)
                    (concat (map data ts)))
      end
  end.

(** [t[i]], and the sequence [t[0], t[1], ...] that iterating over a tensor
    yields. *)
Definition select0 (i : Z) (t : tensor) : tensor :=
  tabulate (tl (shape t)) (fun idx => get t (i :: idx)).

Definition unbind0 (t : tensor) : option (list tensor) :=
  match shape t with
  | [] => None
  | d0 :: _ => Some (map (fun i => select0 i t) (range d0))
  end.

(** [t.sum(dim=d, keepdim=...)] and [t.mean(dim=d, keepdim=False)]. *)
Definition sum_dim (d : Z) (keepdim : bool) (t : tensor) : option tensor :=
  let sh := shape t in
  d <- norm_dim (zlen sh) d ;;
  let f := fun idx => rsum (znth sh d) (fun i => get t (insert_at d i idx)) in
  Some (if keepdim
        then tabulate (replace_at d 1 sh) (fun idx => f (remove_at d idx))
        else tabulate (remove_at d sh) f).

Definition mean_dim (d : Z) (t : tensor) : option tensor :=
  let sh := shape t in
  d <- norm_dim (zlen sh) d ;;
  Some (tabulate (remove_at d sh)
          (fun idx => (rsum (znth sh d) (fun i => get t (insert_at d i idx))
                       / IZR (znth sh d))%R)).

(** Broadcasting of two shapes, aligned on the last dimension. *)
Fixpoint broadcast_rev (a b : list Z) : option (list Z) :=
  match a, b with
  | [], _ => Some b
  | _, [] => Some a
  | x :: a', y :: b' =>
      r <- broadcast_rev a' b' ;;
      if x =? y then Some (x :: r)
      else if x =? 1 then Some (y :: r)
      else if y =? 1 then Some (x :: r)
      else None
  end.

Definition broadcast_shapes (a b : list Z) : option (list Z) :=
  r <- broadcast_rev (rev a) (rev b) ;; Some (rev r).

(** The index of the operand that a broadcast index reads. *)
Definition bc_index (sh idx : list Z) : list Z :=
  let idx' := skipn (List.length idx - List.length sh) idx in
  map (fun p => if fst p =? 1 then 0 else snd p) (combine sh idx').

Definition map2_bc (op : R -> R -> R) (a b : tensor) : option tensor :=
  sh <- broadcast_shapes (shape a) (shape b) ;;
  Some (tabulate sh (fun idx => op (get a (bc_index (shape a) idx))
                                   (get b (bc_index (shape b) idx)))).

(** [a + b], [a * b] / [torch.mul(a, b)], [t * c] and [1 / t]. *)
Definition add (a b : tensor) : option tensor := map2_bc Rplus a b.
Definition mul (a b : tensor) : option tensor := map2_bc Rmult a b.
Definition mul_scalar (t : tensor) (c : Z) : tensor :=
  mkT (shape t) (map (fun v => (v * IZR c)%R) (data t)).
Definition rdiv_scalar (c : Z) (t : tensor) : tensor :=
  mkT (shape t) (map (fun v => (IZR c / v)%R) (data t)).

(** [t.repeat(n, 1)] on a one-dimensional tensor: [n] copies stacked. *)
Definition repeat_rows (n : Z) (t : tensor) : option tensor :=
  match shape t with
  | [c] => _ <- guard (0 <=? n) ;;
           Some (tabulate [n; c] (fun idx => get t (tl idx)))
  | _ => None
  end.

(** [dst.data.copy_(src)]: [src] is broadcast to the shape of [dst]. *)
Definition copy_ (dst src : tensor) : option tensor :=
  sh <- broadcast_shapes (shape dst) (shape src) ;;
  _ <- guard (shape_eqb sh (shape dst)) ;;
  Some (tabulate (shape dst) (fun idx => get src (bc_index (shape src) idx))).

Definition zeros (sh : list Z) : tensor := tabulate sh (fun _ => 0%R).

(** ** Layers

    A layer is the shape rule of its hyper-parameters together with the
    values it computes from its input (which depend on its parameters).
    The shape rules are those of the PyTorch and timm layers that the
    model is built from; a layer raises when its input does not fit.  The
    values of the layers with parameters, and of the normalisations and the
    interpolation, stay abstract.  [nn.ReLU(inplace=True)] overwrites the
    output of the layer before it, which nothing else reads, so it is
    modelled as a function. *)

Definition kernel : Type := tensor -> list Z -> R.

Record Layer : Type := mkLayer {
  out_shape : list Z -> option (list Z);
  value : kernel
}.

Definition Layer_forward (l : Layer) (t : tensor) : option tensor :=
  sh <- out_shape l (shape t) ;;
  Some (tabulate sh (value l t)).

(** [nn.Sequential]. *)
Fixpoint Sequential_forward (ls : list Layer) (t : tensor) : option tensor :=
  match ls with
  | [] => Some t
  | l :: ls' => t' <- Layer_forward l t ;; Sequential_forward ls' t'
  end.

(** The shape that a [nn.Sequential] yields, when it does not raise. *)
Fixpoint Sequential_out_shape (ls : list Layer) (sh : list Z)
    : option (list Z) :=
  match ls with
  | [] => Some sh
  | l :: ls' => sh' <- out_shape l sh ;; Sequential_out_shape ls' sh'
  end.

Definition conv_out (h k s p : Z) : Z := (h + 2 * p - k) / s + 1.

(** [nn.Conv2d(cin, cout, kernel_size=k, stride=s, padding=p)] on a batch
    [(n, cin, h, w)]. *)
Definition Conv2d (cin cout k s p : Z) (w : kernel) : Layer :=
  mkLayer (fun sh => match sh with
                     | [n; c; h; wd] =>
                         _ <- guard ((c =? cin) && (k <=? h + 2 * p)
                                     && (k <=? wd + 2 * p)) ;;
                         Some [n; cout; conv_out h k s p; conv_out wd k s p]
                     | _ => None
                     end) w.

(** [nn.InstanceNorm2d(num_features)] without affine parameters and without
    running statistics (the defaults): [num_features] is not checked. *)
Definition InstanceNorm2d (num_features : Z) (w : kernel) : Layer :=
  mkLayer (fun sh => match sh with
                     | [_; _; _; _] => Some sh
                     | _ => None
                     end) w.

Definition ReLU : Layer :=
  mkLayer (fun sh => Some sh) (fun t idx => Rmax 0 (get t idx)).

(** [nn.MaxPool2d(k)]: window and stride [k], no padding. *)
Definition MaxPool2d (k : Z) : Layer :=
  mkLayer (fun sh => match sh with
                     | [n; c; h; wd] =>
                         _ <- guard ((1 <=? h / k) && (1 <=? wd / k)) ;;
                         Some [n; c; h / k; wd / k]
                     | _ => None
                     end)
          (fun t idx =>
             match idx with
             | [n; c; i; j] =>
                 fold_right Rmax (get t [n; c; i * k; j * k])
                   (flat_map
                      (fun a =>
                         map (fun b => get t [n; c; i * k + a; j * k + b])
                             (range k))
                      (range k))
             | _ => 0%R
             end).

(** [nn.AdaptiveAvgPool2d((1, 1))]: the mean of every channel plane. *)
Definition AdaptiveAvgPool2d_1x1 : Layer :=
  mkLayer (fun sh => match sh with
                     | [n; c; _; _] => Some [n; c; 1; 1]
                     | _ => None
                     end)
          (fun t idx =>
             match shape t, idx with
             | [_; _; h; wd], [n; c; _; _] =>
                 (rsum h (fun i => rsum wd (fun j => get t [n; c; i; j]))
                  / IZR (h * wd))%R
             | _, _ => 0%R
             end).

Definition last_dim (sh : list Z) : option Z :=
  match rev sh with
  | [] => None
  | d :: _ => Some d
  end.

(** [nn.Linear(fin, fout)] acts on the last dimension. *)
Definition Linear (fin fout : Z) (w : kernel) : Layer :=
  mkLayer (fun sh => d <- last_dim sh ;;
                     _ <- guard (d =? fin) ;;
                     Some (removelast sh ++ [fout])) w.

(** [nn.LayerNorm(d, eps)] normalises the last dimension, of size [d]. *)
Definition LayerNorm (eps : R) (d : Z) (w : kernel) : Layer :=
  mkLayer (fun sh => d' <- last_dim sh ;;
                     _ <- guard (d' =? d) ;;
                     Some sh) w.

(** [nn.GroupNorm(groups, channels)]: the channel dimension is the second. *)
Definition GroupNorm (groups channels : Z) (w : kernel) : Layer :=
  mkLayer (fun sh => match sh with
                     | _ :: c :: _ => _ <- guard (c =? channels) ;; Some sh
                     | _ => None
                     end) w.

(** The logistic function over the reals; [sigmoid32] below is what
    [nn.Sigmoid] computes in float32. *)
Definition sigmoid (x : R) : R := (1 / (1 + exp (- x)))%R.

(** Strictly between 0 and 1. *)
Definition open_unit (x : R) : Prop := (0 < x < 1)%R.

Definition Sigmoid : Layer :=
  mkLayer (fun sh => Some sh) (fun t idx => sigmoid (get t idx)).

(** timm's [PatchEmbed(img_size, patch_size, in_chans, embed_dim)]: a
    strided convolution, flattened to a token sequence; it accepts images of
    the side it was built for. *)
Record PatchEmbed_t : Type := mkPatchEmbed {
  num_patches : Z;
  pe_forward : Layer
}.

Definition PatchEmbed (img_size patch_size in_chans embed_dim : Z)
    (w : kernel) : PatchEmbed_t :=
  let grid := img_size / patch_size in
  mkPatchEmbed (grid * grid)
    (mkLayer (fun sh => match sh with
                        | [b; c; h; wd] =>
                            _ <- guard ((c =? in_chans) && (h =? img_size)
                                        && (wd =? img_size)) ;;
                            Some [b; grid * grid; embed_dim]
                        | _ => None
                        end) w).

(** timm's transformer [Block(dim, num_heads, ...)] on [(b, n, dim)]: its
    attention splits the width [dim] evenly over the [num_heads] heads. *)
Definition Block (dim num_heads : Z) (w : kernel) : Layer :=
  mkLayer (fun sh => match sh with
                     | [_; _; c] =>
                         _ <- guard ((c =? dim) && (0 <? num_heads)
                                     && (dim mod num_heads =? 0)) ;;
                         Some sh
                     | _ => None
                     end) w.

(** Modelled from the spec: [CrossAttentionBlock] of models_crossvit.py is
    not part of the sources at hand.  The spec describes a cross-attention
    block whose queries come from one token sequence and whose keys and
    values come from another, which optionally returns its attention score
    tensor of shape (batch, heads, query_tokens, key_tokens).  Both
    sequences have the width the block was built for. *)
Record CrossAttentionBlock_t : Type := mkCrossAttentionBlock {
  cab_dim : Z;
  cab_num_heads : Z;
  return_attn : bool;
  cab_out : tensor -> tensor -> list Z -> R;
  cab_attn : tensor -> tensor -> list Z -> R
}.

Definition CrossAttentionBlock_forward (blk : CrossAttentionBlock_t)
    (x y : tensor) : option (tensor * option tensor) :=
  match shape x, shape y with
  | [b; nx; c], [b'; ny; c'] =>
      _ <- guard ((b =? b') && (c =? cab_dim blk) && (c' =? cab_dim blk)) ;;
      Some (tabulate [b; nx; c] (cab_out blk x y),
            if return_attn blk
            then Some (tabulate [b; cab_num_heads blk; nx; ny]
                         (cab_attn blk x y))
            else None)
  | _, _ => None
  end.

(** ** The module [SupervisedMAE] *)

(** [nn.Parameter(data, requires_grad)]. *)
Record nn_Parameter : Type := mkParameter {
  p_data : tensor;
  requires_grad : bool
}.

Record SupervisedMAE : Type := mkSupervisedMAE {
  patch_embed : PatchEmbed_t;
  decoder_depth : Z;
  pos_embed : nn_Parameter;
  blocks : list Layer;
  norm : Layer;
  decoder_embed : Layer;
  decoder_pos_embed : nn_Parameter;
  shot_token : nn_Parameter;
  decoder_proj1 : list Layer;
  decoder_proj2 : list Layer;
  decoder_proj3 : list Layer;
  decoder_proj4 : list Layer;
  decoder_proj_final : list Layer;
  pool : Layer;
  decoder_blocks : list CrossAttentionBlock_t;
  exemplar_blocks : list CrossAttentionBlock_t;
  exemplar_weights : list Layer;
  decoder_num_heads : Z;
  decoder_norm : Layer;
  exemplar_norm : Layer;
  decode_head0 : list Layer;
  decode_head1 : list Layer;
  decode_head2 : list Layer;
  decode_head3 : list Layer;
  norm_pix_loss : bool
}.

(** The constructor's keyword arguments; [norm_layer] is [nn.LayerNorm]
    with the [eps] given here. *)
Record Config : Type := mkConfig {
  c_img_size : Z;
  c_patch_size : Z;
  c_in_chans : Z;
  c_embed_dim : Z;
  c_depth : Z;
  c_num_heads : Z;
  c_decoder_embed_dim : Z;
  c_decoder_depth : Z;
  c_decoder_num_heads : Z;
  c_mlp_ratio : Z;
  c_norm_eps : R;
  c_cross_blocks : Z;
  c_norm_pix_loss : bool
}.

(** Names of the sub-modules that carry learned parameters. *)
Inductive pname : Type :=
| n_patch_embed
| n_blocks (i : Z)
| n_norm
| n_decoder_embed
| n_decoder_proj1
| n_decoder_proj2
| n_decoder_proj3
| n_decoder_proj4
| n_decoder_proj_final
| n_decoder_blocks (i : Z)
| n_exemplar_blocks (i : Z)
| n_exemplar_weights (i : Z)
| n_decoder_norm
| n_exemplar_norm
| n_decode_head (head i : Z).

(** The parameter values a construction draws (default initialisation,
    [xavier_uniform_], [normal_], [constant_]), seen through the function
    each layer computes with them. *)
Record Weights : Type := mkWeights {
  w_layer : pname -> kernel;
  w_cross_out : pname -> tensor -> tensor -> list Z -> R;
  w_cross_attn : pname -> tensor -> tensor -> list Z -> R;
  w_shot_token : list Z -> R
}.

(** What the code calls without defining it: the parameter-free numerical
    routines of the tensor runtime, and [get_2d_sincos_pos_embed] of
    util/pos_embed.py, the closed-form sin-cos table of [grid * grid] rows
    and [embed_dim] columns. *)
Record Runtime : Type := mkRuntime {
  instance_norm : kernel;
  interpolate_bilinear : Z -> kernel;
  get_2d_sincos_pos_embed : Z -> Z -> list Z -> R
}.

(** The module with new contents for its three parameters. *)
Definition with_parameters (self : SupervisedMAE) (pe dpe st : tensor)
    : SupervisedMAE :=
  mkSupervisedMAE
    (patch_embed self) (decoder_depth self)
    (mkParameter pe (requires_grad (pos_embed self)))
    (blocks self) (norm self) (decoder_embed self)
    (mkParameter dpe (requires_grad (decoder_pos_embed self)))
    (mkParameter st (requires_grad (shot_token self)))
    (decoder_proj1 self) (decoder_proj2 self) (decoder_proj3 self)
    (decoder_proj4 self) (decoder_proj_final self) (pool self)
    (decoder_blocks self) (exemplar_blocks self)
    (exemplar_weights self) (decoder_num_heads self)
    (decoder_norm self) (exemplar_norm self)
    (decode_head0 self) (decode_head1 self) (decode_head2 self)
    (decode_head3 self) (norm_pix_loss self).

(** Lines 128-144: the two positional tables are filled from the closed
    form, the shot token is redrawn.  Lines 137-139 and 144 redraw the
    parameters of the patch projection and of every [nn.Linear] and
    [nn.LayerNorm]; the layers are built with the functions of [w], which
    stand for their parameters after this step. *)
Definition initialize_weights (rt : Runtime) (w : Weights)
    (self : SupervisedMAE) : option SupervisedMAE :=
  let grid := Z.sqrt (num_patches (patch_embed self)) in
  e <- last_dim (shape (p_data (pos_embed self))) ;;
  src <- unsqueeze 0 (tabulate [grid * grid; e]
                        (get_2d_sincos_pos_embed rt e grid)) ;;
  pe <- copy_ (p_data (pos_embed self)) src ;;
  d <- last_dim (shape (p_data (decoder_pos_embed self))) ;;
  dsrc <- unsqueeze 0 (tabulate [grid * grid; d]
                         (get_2d_sincos_pos_embed rt d grid)) ;;
  dpe <- copy_ (p_data (decoder_pos_embed self)) dsrc ;;
  let st := tabulate (shape (p_data (shot_token self))) (w_shot_token w) in
  Some (with_parameters self pe dpe st).

(** Lines 19-124: the sub-modules and parameters that [__init__] creates. *)
Definition SupervisedMAE_modules (rt : Runtime) (w : Weights) (cfg : Config)
    : SupervisedMAE :=
  let embed_dim := c_embed_dim cfg in
  let decoder_embed_dim := c_decoder_embed_dim cfg in
  let decoder_num_heads := c_decoder_num_heads cfg in
  let norm_layer := LayerNorm (c_norm_eps cfg) in
  let patch_embed :=
    PatchEmbed (c_img_size cfg) (c_patch_size cfg) (c_in_chans cfg) embed_dim
      (w_layer w n_patch_embed) in
  let num_patches := num_patches patch_embed in
  let cross name :=
    mkCrossAttentionBlock
      (match name with n_exemplar_blocks _ => 512 | _ => decoder_embed_dim end)
      decoder_num_heads
      (match name with n_exemplar_blocks _ => true | _ => false end)
      (w_cross_out w name) (w_cross_attn w name) in
  let head h cin :=
    [Conv2d cin 256 3 1 1 (w_layer w (n_decode_head h 0));
     GroupNorm 8 256 (w_layer w (n_decode_head h 1));
     ReLU] in
  mkSupervisedMAE
       patch_embed
       (c_decoder_depth cfg)
       (mkParameter (zeros [1; num_patches; embed_dim]) false)
       (map (fun i => Block embed_dim (c_num_heads cfg)
                        (w_layer w (n_blocks i)))
            (range (c_depth cfg)))
       (norm_layer embed_dim (w_layer w n_norm))
       (Linear embed_dim decoder_embed_dim (w_layer w n_decoder_embed))
       (mkParameter (zeros [1; num_patches; decoder_embed_dim]) false)
       (mkParameter (zeros [512]) true)
       [Conv2d 3 64 3 1 1 (w_layer w n_decoder_proj1);
        InstanceNorm2d 64 (instance_norm rt); ReLU; MaxPool2d 2]
       [Conv2d 64 128 3 1 1 (w_layer w n_decoder_proj2);
        InstanceNorm2d 128 (instance_norm rt); ReLU; MaxPool2d 2]
       [Conv2d 128 256 3 1 1 (w_layer w n_decoder_proj3);
        InstanceNorm2d 256 (instance_norm rt); ReLU; MaxPool2d 2]
       [Conv2d 256 decoder_embed_dim 3 1 1 (w_layer w n_decoder_proj4);
        InstanceNorm2d 512 (instance_norm rt); ReLU; AdaptiveAvgPool2d_1x1]
       [Conv2d 256 decoder_embed_dim 3 1 1 (w_layer w n_decoder_proj_final);
        InstanceNorm2d 512 (instance_norm rt); ReLU]
       AdaptiveAvgPool2d_1x1
       (map (fun i => cross (n_decoder_blocks i))
            (range (c_decoder_depth cfg)))
       (map (fun i => cross (n_exemplar_blocks i))
            (range (c_cross_blocks cfg)))
       [Linear (8 * 8 * decoder_num_heads) 256
          (w_layer w (n_exemplar_weights 0));
        Linear 256 64 (w_layer w (n_exemplar_weights 1));
        Linear 64 16 (w_layer w (n_exemplar_weights 2));
        Linear 16 1 (w_layer w (n_exemplar_weights 3));
        Sigmoid]
       decoder_num_heads
       (norm_layer decoder_embed_dim (w_layer w n_decoder_norm))
       (norm_layer 512 (w_layer w n_exemplar_norm))
       (head 0 decoder_embed_dim)
       (head 1 256)
       (head 2 256)
       (head 3 256 ++ [Conv2d 256 1 1 1 0 (w_layer w (n_decode_head 3 3))])
       (c_norm_pix_loss cfg).

(** Lines 19-126: [SupervisedMAE.__init__].  The checks that torch and timm
    make on the arguments of the layers they build (sizes that are not
    negative, a number of heads that is not zero) are not part of this
    model, which builds a module for every configuration: a statement on
    the success of [forward] for a general configuration takes them as
    hypotheses. *)
Definition SupervisedMAE_init (rt : Runtime) (w : Weights) (cfg : Config)
    : option SupervisedMAE :=
  initialize_weights rt w (SupervisedMAE_modules rt w cfg).

(** Lines 249-254: the recommended configuration; the remaining keyword
    arguments keep the constructor's defaults. *)
Definition mae_vit_base_patch16_dec512d8b_config : Config :=
  mkConfig 384 16 3 768 12 12 512 8 16 4 (1 / 1000000)%R 4 false.

Definition mae_vit_base_patch16_dec512d8b (rt : Runtime) (w : Weights)
    : option SupervisedMAE :=
  SupervisedMAE_init rt w mae_vit_base_patch16_dec512d8b_config.

Definition mae_vit_base_patch16 := mae_vit_base_patch16_dec512d8b.

(** ** The forward pass *)

(** [t.shape[d]]. *)
Definition shape_at (t : tensor) (d : Z) : option Z :=
  d <- norm_dim (zlen (shape t)) d ;; Some (znth (shape t) d).

(** Lines 156-168. *)
Definition forward_encoder (self : SupervisedMAE) (x : tensor)
    : option tensor :=
  x <- Layer_forward (pe_forward (patch_embed self)) x ;;
  x <- add x (p_data (pos_embed self)) ;;
  x <- Sequential_forward (blocks self) x ;;
  Layer_forward (norm self) x.

(** Lines 183-193: the exemplar encoder runs over the shots [yi] of [y_]
    and stops at the first one past [shot_num]. *)
Fixpoint exemplar_encoder (self : SupervisedMAE) (shot_num : Z)
    (ys : list tensor) (cnt : Z) (y1 : list tensor) (N C : Z)
    : option (list tensor * Z * Z) :=
  match ys with
  | [] => Some (y1, N, C)
  | yi :: ys' =>
      let cnt := cnt + 1 in
      if cnt >? shot_num then Some (y1, N, C)
      else
        yi <- Sequential_forward (decoder_proj1 self) yi ;;
        yi <- Sequential_forward (decoder_proj2 self) yi ;;
        yi <- Sequential_forward (decoder_proj3 self) yi ;;
        yi <- Sequential_forward (decoder_proj_final self) yi ;;
        match shape yi with
        | [N'; C'; _; _] =>
            u <- unsqueeze 0 yi ;;
            exemplar_encoder self shot_num ys' cnt (y1 ++ [u]) N' C'
        | _ => None
        end
  end.

(** Line 201: the summary of one layer's attention scores. *)
Definition attn_summary (N shot_num heads : Z) (attn : tensor)
    : option tensor :=
  a <- permute [0; 2; 1; 3] attn ;;
  a <- reshape [N; shot_num * 8 * 8; heads; shot_num; 8 * 8] a ;;
  a <- mean_dim 3 a ;;
  flatten 2 3 a.

(** Lines 199-201. *)
Fixpoint exemplar_attention (blks : list CrossAttentionBlock_t)
    (N shot_num heads : Z) (y1 : tensor) (attns : list tensor)
    : option (tensor * list tensor) :=
  match blks with
  | [] => Some (y1, attns)
  | blk :: blks' =>
      r <- CrossAttentionBlock_forward blk y1 y1 ;;
      match r with
      | (y1', Some attn) =>
          a <- attn_summary N shot_num heads attn ;;
          a <- unsqueeze 0 a ;;
          exemplar_attention blks' N shot_num heads y1' (attns ++ [a])
      | (_, None) => None
      end
  end.

(** Line 203: the gate turns the summaries of all layers into one weight
    per exemplar token. *)
Definition exemplar_gate (self : SupervisedMAE) (attns : list tensor)
    : option tensor :=
  attns <- cat0 attns ;;
  attns <- Sequential_forward (exemplar_weights self) attns ;;
  mean_dim 0 attns.

(** Line 206: the sum of the gate weights of every shot, by which the
    pooled tokens are divided. *)
Definition gate_sums (N shot_num : Z) (attns : tensor) : option tensor :=
  a <- reshape [N * shot_num; 8 * 8] attns ;;
  sum_dim 1 true a.

(** Lines 204-207: gate-weighted pooling of the exemplar tokens. *)
Definition exemplar_pooling (self : SupervisedMAE) (N shot_num : Z)
    (attns y1 : tensor) : option tensor :=
  y1 <- mul attns y1 ;;
  y1 <- reshape [N * shot_num; 8; 8; 512] y1 ;;
  y1 <- permute [0; 3; 1; 2] y1 ;;
  y1 <- Layer_forward (pool self) y1 ;;
  y1 <- squeeze (-1) y1 ;;
  y1 <- squeeze (-1) y1 ;;
  a <- gate_sums N shot_num attns ;;
  let attns := rdiv_scalar 1 a in
  mul (mul_scalar (mul_scalar y1 8) 8) attns.

(** Line 197: the encoded shots as one token sequence per batch item. *)
Definition exemplar_sequence (y1 : list tensor) : option tensor :=
  y1 <- cat0 y1 ;;
  y1 <- permute [1; 0; 3; 4; 2] y1 ;;
  flatten 1 3 y1.

(** Lines 196-207: the exemplar aggregator. *)
Definition exemplar_aggregator (self : SupervisedMAE) (N shot_num : Z)
    (y1 : list tensor) : option tensor :=
  y1 <- cat0 y1 ;;
  y1 <- permute [1; 0; 3; 4; 2] y1 ;;
  y1 <- flatten 1 3 y1 ;;
  '(y1, attns) <- exemplar_attention (exemplar_blocks self) N shot_num
                    (decoder_num_heads self) y1 [] ;;
  y1 <- Layer_forward (exemplar_norm self) y1 ;;
  attns <- exemplar_gate self attns ;;
  exemplar_pooling self N shot_num attns y1.

(** Lines 219-220.  The decoder blocks return tokens only: a block that
    returned a pair would not give a tensor to the next one. *)
Fixpoint decoder_fusion (self : SupervisedMAE) (idxs : list Z)
    (x y : tensor) : option tensor :=
  match idxs with
  | [] => Some x
  | blk_index :: idxs' =>
      blk <- nth_error (decoder_blocks self) (Z.to_nat blk_index) ;;
      r <- CrossAttentionBlock_forward blk x y ;;
      match r with
      | (x', None) => decoder_fusion self idxs' x' y
      | (_, Some _) => None
      end
  end.

(** [F.interpolate(t, size=size, mode='bilinear', align_corners=False)]. *)
Definition F_interpolate (rt : Runtime) (t : tensor) (size : Z)
    : option tensor :=
  match shape t with
  | [n; c; h; w] =>
      _ <- guard ((0 <? size) && (0 <? h) && (0 <? w)) ;;
      Some (tabulate [n; c; size; size] (interpolate_bilinear rt size t))
  | _ => None
  end.

(** One step of lines 228-235: a head, then the doubling of the side that
    [x] had before the head. *)
Definition upsample (rt : Runtime) (head : list Layer) (x : tensor)
    : option tensor :=
  hx <- Sequential_forward head x ;;
  side <- shape_at x (-1) ;;
  F_interpolate rt hx (side * 2).

(** Lines 224-236: density map regression. *)
Definition density_regression (rt : Runtime) (self : SupervisedMAE)
    (x : tensor) : option tensor :=
  match shape x with
  | [n; hw; c] =>
      let h := Z.sqrt hw in
      let w := h in
      x <- transpose 1 2 x ;;
      x <- reshape [n; c; h; w] x ;;
      x <- upsample rt (decode_head0 self) x ;;
      x <- upsample rt (decode_head1 self) x ;;
      x <- upsample rt (decode_head2 self) x ;;
      x <- upsample rt (decode_head3 self) x ;;
      squeeze (-3) x
  | _ => None
  end.

(** Lines 196-215: the exemplar tokens handed to the decoder, from the
    encoded shots [y1] or, without shots, from the shot token. *)
Definition exemplar_tokens (self : SupervisedMAE) (y_ : tensor)
    (shot_num : Z) (y1 : list tensor) (N C : Z) : option tensor :=
  y <- (if shot_num >? 0
        then y1 <- exemplar_aggregator self N shot_num y1 ;;
             reshape [shot_num; N; C] y1
        else n <- shape_at y_ 1 ;;
             t <- repeat_rows n (p_data (shot_token self)) ;;
             unsqueeze 0 t) ;;
  transpose 0 1 y.

(** Lines 170-238. *)
Definition forward_decoder (rt : Runtime) (self : SupervisedMAE)
    (x y_ : tensor) (shot_num : Z) : option tensor :=
  x <- Layer_forward (decoder_embed self) x ;;
  x <- add x (p_data (decoder_pos_embed self)) ;;
  y_ <- transpose 0 1 y_ ;;
  N <- shape_at y_ 1 ;;
  ys <- unbind0 y_ ;;
  '(y1, N, C) <- exemplar_encoder self shot_num ys 0 [] N 0 ;;
  y <- exemplar_tokens self y_ shot_num y1 N C ;;
  x <- decoder_fusion self (range (decoder_depth self)) x y ;;
  x <- Layer_forward (decoder_norm self) x ;;
  density_regression rt self x.

(** ** The interpreter state seen by [forward]

    [forward] is a method: it runs against the module object [self] and the
    global gradient mode, which [with torch.no_grad()] switches off and
    restores. *)

Record State : Type := mkState {
  module : SupervisedMAE;
  grad_enabled : bool
}.

Definition M (A : Type) : Type := State -> option A * State.

Definition mbind {A B : Type} (c : M A) (k : A -> M B) : M B :=
  fun st => match c st with
            | (Some a, st') => k a st'
            | (None, st') => (None, st')
            end.

(** A method call that reads [self]. *)
Definition call {A : Type} (f : SupervisedMAE -> option A) : M A :=
  fun st => (f (module st), st).

Definition set_grad_enabled (b : bool) : M unit :=
  fun st => (Some tt, mkState (module st) b).

(** [with torch.no_grad(): body]: the previous mode is restored on exit,
    also when [body] raises. *)
Definition no_grad {A : Type} (body : M A) : M A :=
  fun st =>
    let prev := grad_enabled st in
    match mbind (set_grad_enabled false) (fun _ => body) st with
    | (r, st') => (r, mkState (module st') prev)
    end.

(** Lines 240-246. *)
Definition forward (rt : Runtime) (imgs boxes : tensor) (shot_num : Z)
    : M tensor :=
  mbind (no_grad (call (fun self => forward_encoder self imgs)))
    (fun latent =>
       call (fun self => forward_decoder rt self latent boxes shot_num)).

(** ** Derived notions used in the statements *)

(** The module with another [decoder_proj4] branch. *)
Definition with_decoder_proj4 (self : SupervisedMAE) (l : list Layer)
    : SupervisedMAE :=
  mkSupervisedMAE
    (patch_embed self) (decoder_depth self) (pos_embed self)
    (blocks self) (norm self) (decoder_embed self)
    (decoder_pos_embed self) (shot_token self)
    (decoder_proj1 self) (decoder_proj2 self) (decoder_proj3 self)
    l (decoder_proj_final self) (pool self)
    (decoder_blocks self) (exemplar_blocks self)
    (exemplar_weights self) (decoder_num_heads self)
    (decoder_norm self) (exemplar_norm self)
    (decode_head0 self) (decode_head1 self) (decode_head2 self)
    (decode_head3 self) (norm_pix_loss self).

(** The weighted mean of the 64 grid tokens [t] of shot [s] of batch item
    [n], with the gate weights [w]: channel [c] of the embedding that the
    spec assigns to that shot. *)
Definition shot_embedding (w t : tensor) (n s c : Z) : R :=
  Rdiv (rsum 64 (fun p => Rmult (get w [n; s * 64 + p; 0])
                                (get t [n; s * 64 + p; c])))
       (rsum 64 (fun p => get w [n; s * 64 + p; 0])).

(** ** The loop over the shots and the decoder, in parts *)

(** Lines 187-192: the body of the loop, the exemplar CNN on the crops of
    one shot. *)
Definition encode_shot (self : SupervisedMAE) (yi : tensor)
    : option tensor :=
  yi <- Sequential_forward (decoder_proj1 self) yi ;;
  yi <- Sequential_forward (decoder_proj2 self) yi ;;
  yi <- Sequential_forward (decoder_proj3 self) yi ;;
  yi <- Sequential_forward (decoder_proj_final self) yi ;;
  match shape yi with
  | [_; _; _; _] => unsqueeze 0 yi
  | _ => None
  end.

(** The results of [f] on a list in order, or the first exception. *)
Fixpoint traverse {A B : Type} (f : A -> option B) (l : list A)
    : option (list B) :=
  match l with
  | [] => Some []
  | a :: l' => b <- f a ;; bs <- traverse f l' ;; Some (b :: bs)
  end.

(** [N, C, _, _ = yi.shape] of the last shot encoded, if any. *)
Definition loop_dims (us : list tensor) (N C : Z) : Z * Z :=
  fold_left (fun _ u => (znth (shape u) 1, znth (shape u) 2)) us (N, C).

(** What the spec says of the loop: it processes exactly the first
    [shot_num] shots, in order, and skips the remaining ones. *)
Definition encode_first_shots (self : SupervisedMAE) (shot_num : Z)
    (ys : list tensor) (N C : Z) : option (list tensor * Z * Z) :=
  us <- traverse (encode_shot self) (firstn (Z.to_nat shot_num) ys) ;;
  let (N', C') := loop_dims us N C in
  Some (us, N', C').

(** Lines 170-221: the decoder tokens that reach the regression head. *)
Definition decoder_tokens (self : SupervisedMAE) (x y_ : tensor)
    (shot_num : Z) : option tensor :=
  x <- Layer_forward (decoder_embed self) x ;;
  x <- add x (p_data (decoder_pos_embed self)) ;;
  y_ <- transpose 0 1 y_ ;;
  N <- shape_at y_ 1 ;;
  ys <- unbind0 y_ ;;
  '(y1, N, C) <- exemplar_encoder self shot_num ys 0 [] N 0 ;;
  y <- exemplar_tokens self y_ shot_num y1 N C ;;
  x <- decoder_fusion self (range (decoder_depth self)) x y ;;
  Layer_forward (decoder_norm self) x.

(** Lines 224-226: the decoder tokens as a square grid of feature
    vectors. *)
Definition token_grid (x : tensor) : option tensor :=
  match shape x with
  | [n; hw; c] =>
      let h := Z.sqrt hw in
      let w := h in
      x <- transpose 1 2 x ;;
      reshape [n; c; h; w] x
  | _ => None
  end.

(** ** Single precision

    IEEE 754 binary32, the default dtype of the tensor runtime: 24 bits of
    precision, round to nearest even. *)
Definition f32 : Type := spec_float.
Definition prec32 : Z := 24.
Definition emax32 : Z := 128.

Definition f32_add : f32 -> f32 -> f32 := SFadd prec32 emax32.
Definition f32_mul : f32 -> f32 -> f32 := SFmul prec32 emax32.
Definition f32_div : f32 -> f32 -> f32 := SFdiv prec32 emax32.
Definition f32_of_Z (n : Z) : f32 := binary_normalize prec32 emax32 n 0 false.

(** [exp] in single precision.  Since [2 < e], [e ^ x] exceeds every finite
    binary32 number from [x = 128] on, and is below half the least positive
    one up to [x = -150]: there the result is infinity and zero, whatever
    the accuracy of the exponential [libm] of the platform, which gives
    the result in between. *)
Definition exp32 (libm : f32 -> f32) (x : f32) : f32 :=
  match x with
  | S754_nan => S754_nan
  | _ =>
      if SFleb (f32_of_Z 128) x then S754_infinity false
      else if SFleb x (f32_of_Z (-150)) then S754_zero false
      else libm x
  end.

(** [nn.Sigmoid] on float32: [1 / (1 + exp(-x))]. *)
Definition sigmoid32 (libm : f32 -> f32) (x : f32) : f32 :=
  f32_div (f32_of_Z 1) (f32_add (f32_of_Z 1) (exp32 libm (SFopp x))).

(** A float32 sum; the runtime fixes no order of the additions, here they
    run from the left. *)
Definition f32_sum (l : list f32) : f32 :=
  fold_left f32_add l (S754_zero false).

(** Lines 204-207 in float32, for one shot and one channel: [wt] holds the
    gate weights and [tok] the tokens of the shot's cells. *)
Definition pooled32 (wt tok : list f32) : f32 :=
  let y1 := map (fun p => f32_mul (fst p) (snd p)) (combine wt tok) in
  let y1 := f32_div (f32_sum y1) (f32_of_Z (zlen y1)) in
  let attns := f32_div (f32_of_Z 1) (f32_sum wt) in
  f32_mul (f32_mul (f32_mul y1 (f32_of_Z 8)) (f32_of_Z 8)) attns.

(** ** Small instances *)

(** A runtime and parameter values whose kernels return zero everywhere,
    and a configuration with one 16x16 patch, decoder width 4 and no
    decoder block. *)
Definition zero_kernel : kernel := fun _ _ => 0%R.

Definition zero_runtime : Runtime :=
  mkRuntime zero_kernel (fun _ => zero_kernel) (fun _ _ _ => 0%R).

Definition zero_weights : Weights :=
  mkWeights (fun _ => zero_kernel) (fun _ _ _ _ => 0%R)
    (fun _ _ _ _ => 0%R) (fun _ => 0%R).

Definition small_config : Config :=
  mkConfig 16 16 3 4 0 1 4 0 1 4 (1 / 100000)%R 1 false.

Definition small_module : SupervisedMAE :=
  SupervisedMAE_modules zero_runtime zero_weights small_config.

Definition unit_weights : Weights :=
  mkWeights (fun _ _ _ => 1%R) (fun _ _ _ _ => 1%R)
    (fun _ _ _ _ => 1%R) (fun _ => 1%R).

(** The module that the constructor returns for them. *)
Definition constructed (w : Weights) : SupervisedMAE :=
  match SupervisedMAE_init zero_runtime w small_config with
  | Some m => m
  | None => small_module
  end.

(** A configuration with 8x8 patches on 32x32 images, decoder width 512
    and one block of each kind. *)
Definition patch8_config : Config :=
  mkConfig 32 8 3 16 1 2 512 1 4 4 (1 / 100000)%R 1 false.

(** The module constructed for a configuration, with all-zero kernels. *)
Definition constructed_for (cfg : Config) : SupervisedMAE :=
  match SupervisedMAE_init zero_runtime zero_weights cfg with
  | Some m => m
  | None => small_module
  end.

Definition patch8_module : SupervisedMAE := constructed_for patch8_config.

(** The same for grey-scale images, of one channel. *)
Definition grey_config : Config :=
  mkConfig 32 8 1 16 1 2 512 1 4 4 (1 / 100000)%R 1 false.

(** [torch.arange(6.).reshape(2, 3)] and what PyTorch returns for it. *)
Definition arange6 : tensor := mkT [2; 3] [0; 1; 2; 3; 4; 5]%R.

(** Two batch items with two shots each: unit gate weights, and tokens
    whose value is [2 * n + s] for shot [s] of batch item [n]. *)
Definition unit_gate : tensor := tabulate [2; 2 * 8 * 8; 1] (fun _ => 1%R).

Definition labelled_tokens : tensor :=
  tabulate [2; 2 * 8 * 8; 512]
    (fun idx => IZR (2 * znth idx 0 + znth idx 1 / 64)).

(** * Properties *)

(** ** Indexing *)

Lemma range_length (n : Z) : List.length (range n) = Z.to_nat n.
Proof. unfold range. now rewrite length_map, length_seq. Qed.

Lemma range_nonpos (n : Z) : n <= 0 -> range n = [].
Proof. intros H. unfold range. now replace (Z.to_nat n) with 0%nat by lia. Qed.

Lemma in_range (n k : Z) : In k (range n) <-> 0 <= k < n.
Proof.
  unfold range. rewrite in_map_iff. split.
  - intros (i & <- & Hi). apply in_seq in Hi. lia.
  - intros H. exists (Z.to_nat k). split; [lia|]. apply in_seq. lia.
Qed.

Lemma nth_range (n k : Z) (d : Z) :
  0 <= k < n -> nth (Z.to_nat k) (range n) d = k.
Proof.
  intros H. unfold range.
  rewrite nth_indep with (d' := Z.of_nat 0)
    by (rewrite length_map, length_seq; lia).
  rewrite map_nth, seq_nth by lia. lia.
Qed.

Lemma range_succ (n : Z) : 0 <= n -> range (n + 1) = range n ++ [n].
Proof.
  intros H. unfold range.
  replace (Z.to_nat (n + 1)) with (Z.to_nat n + 1)%nat by lia.
  rewrite seq_app, map_app. simpl. now rewrite Z2Nat.id.
Qed.

Lemma numel_nonneg (sh : list Z) :
  Forall (fun d => 0 <= d) sh -> 0 <= numel sh.
Proof. induction 1; simpl; [lia | unfold numel in *; simpl; nia]. Qed.

Lemma in_bounds_nonneg (sh idx : list Z) :
  in_bounds sh idx -> Forall (fun d => 0 <= d) sh.
Proof. induction 1; constructor; [lia | assumption]. Qed.

Lemma numel_cons (d : Z) (sh : list Z) : numel (d :: sh) = d * numel sh.
Proof. reflexivity. Qed.

Lemma ravel_bounds (sh idx : list Z) :
  in_bounds sh idx -> 0 <= ravel sh idx < numel sh.
Proof.
  induction 1 as [|i d idx sh Hi H IH]; [simpl; unfold numel; simpl; lia|].
  rewrite numel_cons. simpl. nia.
Qed.

Lemma unravel_ravel (sh idx : list Z) :
  in_bounds sh idx -> unravel sh (ravel sh idx) = idx.
Proof.
  induction 1 as [|i d idx sh Hi H IH]; [reflexivity|].
  pose proof (ravel_bounds _ _ H) as Hb. simpl.
  assert (Hq : (i * numel sh + ravel sh idx) / numel sh = i).
  { symmetry. apply Z.div_unique with (r := ravel sh idx); [left|]; lia. }
  assert (Hr : (i * numel sh + ravel sh idx) mod numel sh = ravel sh idx).
  { symmetry. apply Z.mod_unique with (q := i); [left|]; lia. }
  now rewrite Hq, Hr, IH.
Qed.

Lemma unravel_bounds (sh : list Z) (k : Z) :
  Forall (fun d => 0 <= d) sh -> 0 <= k < numel sh ->
  in_bounds sh (unravel sh k).
Proof.
  intros Hsh. revert k. induction Hsh as [|d sh Hd Hsh IH]; intros k Hk.
  - constructor.
  - rewrite numel_cons in Hk. simpl.
    pose proof (numel_nonneg _ Hsh) as Hn.
    assert (0 < numel sh) by nia.
    constructor.
    + split; [apply Z.div_pos; lia|].
      apply Z.div_lt_upper_bound; lia.
    + apply IH. apply Z.mod_pos_bound. lia.
Qed.

Lemma ravel_unravel (sh : list Z) (k : Z) :
  Forall (fun d => 0 <= d) sh -> 0 <= k < numel sh ->
  ravel sh (unravel sh k) = k.
Proof.
  intros Hsh. revert k. induction Hsh as [|d sh Hd Hsh IH]; intros k Hk.
  - unfold numel in Hk. simpl in *. lia.
  - rewrite numel_cons in Hk. simpl.
    pose proof (numel_nonneg _ Hsh) as Hn.
    assert (0 < numel sh) by nia.
    rewrite IH by (apply Z.mod_pos_bound; lia).
    pose proof (Z.div_mod k (numel sh)). lia.
Qed.

Lemma get_tabulate (sh : list Z) (f : list Z -> R) (idx : list Z) :
  in_bounds sh idx -> get (tabulate sh f) idx = f idx.
Proof.
  intros H. pose proof (ravel_bounds _ _ H) as Hb.
  unfold get, tabulate. simpl.
  rewrite nth_indep with (d' := f (unravel sh 0))
    by (rewrite length_map, range_length; lia).
  rewrite (map_nth (fun k => f (unravel sh k))).
  now rewrite nth_range, unravel_ravel.
Qed.

Lemma shape_tabulate (sh : list Z) (f : list Z -> R) :
  shape (tabulate sh f) = sh.
Proof. reflexivity. Qed.

Lemma tabulate_ext (sh : list Z) (f g : list Z -> R) :
  valid_shape sh ->
  (forall idx, in_bounds sh idx -> f idx = g idx) ->
  tabulate sh f = tabulate sh g.
Proof.
  intros Hsh H. unfold tabulate. f_equal. apply map_ext_in. intros k Hk.
  apply in_range in Hk. now apply H, unravel_bounds.
Qed.

(** ** The tensor operations on small inputs *)

Example transpose_arange6 :
  transpose 0 1 arange6 = Some (mkT [3; 2] [0; 3; 1; 4; 2; 5]%R).
Proof. reflexivity. Qed.

Example transpose_negative_dims :
  transpose (-2) (-1) arange6 = transpose 0 1 arange6.
Proof. reflexivity. Qed.

Example reshape_arange6 :
  reshape [3; 2] arange6 = Some (mkT [3; 2] [0; 1; 2; 3; 4; 5]%R)
  /\ reshape [4; 2] arange6 = None.
Proof. split; reflexivity. Qed.

Example permute_3d :
  option_map shape (permute [2; 0; 1] (zeros [2; 3; 4])) = Some [4; 2; 3].
Proof. reflexivity. Qed.

Example iterate_arange6 :
  unbind0 arange6 = Some [mkT [3] [0; 1; 2]%R; mkT [3] [3; 4; 5]%R].
Proof. reflexivity. Qed.

Example cat_unsqueezed :
  (a <- unsqueeze 0 arange6 ;; cat0 [a; a]) =
  Some (mkT [2; 2; 3] [0; 1; 2; 3; 4; 5; 0; 1; 2; 3; 4; 5]%R).
Proof. reflexivity. Qed.

Example flatten_squeeze_shapes :
  option_map shape (flatten 1 3 (zeros [2; 3; 8; 8; 5])) = Some [2; 192; 5]
  /\ option_map shape (squeeze (-1) (zeros [2; 5; 1])) = Some [2; 5]
  /\ option_map shape (squeeze (-3) (zeros [2; 5; 1])) = Some [2; 5; 1].
Proof. repeat split; reflexivity. Qed.

Example broadcast_examples :
  broadcast_shapes [4; 64; 1] [4; 64; 512] = Some [4; 64; 512]
  /\ broadcast_shapes [4; 576; 768] [1; 576; 768] = Some [4; 576; 768]
  /\ broadcast_shapes [4; 1; 512] [4; 1; 256] = None.
Proof. repeat split; reflexivity. Qed.

Example repeat_shot_token :
  repeat_rows 2 (mkT [3] [7; 8; 9]%R) = Some (mkT [2; 3] [7; 8; 9; 7; 8; 9]%R).
Proof. reflexivity. Qed.

(** The exemplar CNN of the recommended configuration on five 64x64
    crops, and the branch with the final pooling. *)
Example exemplar_cnn_of_crops (rt : Runtime) (w : Weights) :
  let m := SupervisedMAE_modules rt w mae_vit_base_patch16_dec512d8b_config in
  Sequential_out_shape
    (decoder_proj1 m ++ decoder_proj2 m ++ decoder_proj3 m
     ++ decoder_proj_final m) [5; 3; 64; 64] = Some [5; 512; 8; 8]
  /\ Sequential_out_shape (decoder_proj4 m) [5; 256; 8; 8]
     = Some [5; 512; 1; 1].
Proof. split; reflexivity. Qed.

(** ** Tensor operations *)

Lemma wf_tabulate (sh : list Z) (f : list Z -> R) : wf (tabulate sh f).
Proof. unfold wf, tabulate. simpl. now rewrite length_map, range_length. Qed.

Lemma get_reshaped (sh : list Z) (t : tensor) (idx' idx : list Z) :
  ravel sh idx' = ravel (shape t) idx ->
  get (mkT sh (data t)) idx' = get t idx.
Proof. intros H. unfold get. simpl. now rewrite H. Qed.

Lemma get_map (f : R -> R) (t : tensor) (idx : list Z) :
  wf t -> in_bounds (shape t) idx ->
  get (mkT (shape t) (map f (data t))) idx = f (get t idx).
Proof.
  intros Hwf Hb. pose proof (ravel_bounds _ _ Hb) as Hr.
  unfold get. simpl.
  rewrite nth_indep with (d' := f 0%R) by (rewrite length_map, Hwf; lia).
  apply map_nth.
Qed.

Lemma permute_spec (dims : list Z) (t : tensor) :
  is_perm (zlen (shape t)) dims = true ->
  exists t',
    permute dims t = Some t' /\
    shape t' = map (znth (shape t)) dims /\
    wf t' /\
    forall idx, in_bounds (shape t') idx ->
      get t' idx = get t (map (fun k => znth idx (index_of k dims))
                            (range (zlen (shape t)))).
Proof.
  intros H. unfold permute. rewrite H. simpl. eexists. split; [reflexivity|].
  split; [reflexivity|]. split; [apply wf_tabulate|].
  intros idx Hb. exact (get_tabulate _ _ _ Hb).
Qed.

Lemma reshape_spec (sh : list Z) (t : tensor) :
  all_nonneg sh = true -> numel sh = numel (shape t) ->
  exists t',
    reshape sh t = Some t' /\ shape t' = sh /\ (wf t -> wf t') /\
    forall idx' idx, ravel sh idx' = ravel (shape t) idx ->
      get t' idx' = get t idx.
Proof.
  intros Hn He. unfold reshape. rewrite Hn. apply Z.eqb_eq in He. rewrite He.
  simpl. eexists. split; [reflexivity|]. split; [reflexivity|].
  split.
  - unfold wf. simpl. apply Z.eqb_eq in He. now rewrite He.
  - intros. now apply get_reshaped.
Qed.

Lemma mean_dim_spec (d : Z) (t : tensor) (d' : Z) :
  norm_dim (zlen (shape t)) d = Some d' ->
  exists t',
    mean_dim d t = Some t' /\
    shape t' = remove_at d' (shape t) /\
    wf t' /\
    forall idx, in_bounds (shape t') idx ->
      get t' idx =
      (rsum (znth (shape t) d') (fun i => get t (insert_at d' i idx))
       / IZR (znth (shape t) d'))%R.
Proof.
  intros H. unfold mean_dim. rewrite H. simpl. eexists.
  split; [reflexivity|]. split; [reflexivity|]. split; [apply wf_tabulate|].
  intros idx Hb. exact (get_tabulate _ _ _ Hb).
Qed.

Lemma sum_dim_keep_spec (d : Z) (t : tensor) (d' : Z) :
  norm_dim (zlen (shape t)) d = Some d' ->
  exists t',
    sum_dim d true t = Some t' /\
    shape t' = replace_at d' 1 (shape t) /\
    wf t' /\
    forall idx, in_bounds (shape t') idx ->
      get t' idx =
      rsum (znth (shape t) d')
           (fun i => get t (insert_at d' i (remove_at d' idx))).
Proof.
  intros H. unfold sum_dim. rewrite H. simpl. eexists.
  split; [reflexivity|]. split; [reflexivity|]. split; [apply wf_tabulate|].
  intros idx Hb. exact (get_tabulate _ _ _ Hb).
Qed.

Lemma map2_bc_spec (op : R -> R -> R) (a b : tensor) (sh : list Z) :
  broadcast_shapes (shape a) (shape b) = Some sh ->
  exists t',
    map2_bc op a b = Some t' /\ shape t' = sh /\ wf t' /\
    forall idx, in_bounds sh idx ->
      get t' idx = op (get a (bc_index (shape a) idx))
                      (get b (bc_index (shape b) idx)).
Proof.
  intros H. unfold map2_bc. rewrite H. simpl. eexists.
  split; [reflexivity|]. split; [reflexivity|]. split; [apply wf_tabulate|].
  intros idx Hb. exact (get_tabulate _ _ _ Hb).
Qed.

Lemma Layer_forward_spec (l : Layer) (t : tensor) (sh : list Z) :
  out_shape l (shape t) = Some sh ->
  exists t',
    Layer_forward l t = Some t' /\ shape t' = sh /\ wf t' /\
    forall idx, in_bounds sh idx -> get t' idx = value l t idx.
Proof.
  intros H. unfold Layer_forward. rewrite H. simpl. eexists.
  split; [reflexivity|]. split; [reflexivity|]. split; [apply wf_tabulate|].
  intros idx Hb. exact (get_tabulate _ _ _ Hb).
Qed.

Lemma squeeze_spec (d : Z) (t : tensor) (d' : Z) :
  norm_dim (zlen (shape t)) d = Some d' ->
  znth (shape t) d' = 1 ->
  squeeze d t = Some (mkT (remove_at d' (shape t)) (data t)).
Proof.
  intros H H1. unfold squeeze. rewrite H. simpl. now rewrite H1.
Qed.

Lemma unsqueeze_spec (d : Z) (t : tensor) (d' : Z) :
  norm_dim (zlen (shape t) + 1) d = Some d' ->
  unsqueeze d t = Some (mkT (insert_at d' 1 (shape t)) (data t)).
Proof. intros H. unfold unsqueeze. now rewrite H. Qed.

Lemma rsum_ext (n : Z) (f g : Z -> R) :
  (forall i, 0 <= i < n -> f i = g i) -> rsum n f = rsum n g.
Proof.
  intros H. unfold rsum. f_equal. apply map_ext_in. intros i Hi.
  apply H. now apply in_range.
Qed.

Lemma rsum_succ (n : Z) (f : Z -> R) :
  0 <= n -> rsum (n + 1) f = (rsum n f + f n)%R.
Proof.
  intros H. unfold rsum. rewrite range_succ, map_app by assumption. simpl.
  generalize (map f (range n)). intros l.
  induction l as [|a l IH]; simpl; [lra | rewrite IH; lra].
Qed.

Lemma rsum_0 (f : Z -> R) : rsum 0 f = 0%R.
Proof. reflexivity. Qed.

Lemma rsum_scale (n : Z) (c : R) (f : Z -> R) :
  rsum n (fun i => (c * f i)%R) = (c * rsum n f)%R.
Proof.
  unfold rsum. induction (range n) as [|a l IH]; simpl; [lra|].
  rewrite IH. lra.
Qed.

Lemma rsum_add (m n : Z) (f : Z -> R) :
  0 <= m -> 0 <= n ->
  rsum (m + n) f = (rsum m f + rsum n (fun j => f (m + j)%Z))%R.
Proof.
  intros Hm Hn. pattern n. apply natlike_ind; [| |assumption].
  - rewrite rsum_0, Z.add_0_r. lra.
  - intros y Hy IH. unfold Z.succ.
    replace (m + (y + 1)) with ((m + y) + 1) by lia.
    rewrite !rsum_succ by lia. rewrite IH. lra.
Qed.

(** A sum over an [a] by [b] grid is the sum over its [a * b] cells in
    row-major order. *)
Lemma rsum_grid (a b : Z) (f : Z -> R) :
  0 <= a -> 0 <= b ->
  rsum a (fun i => rsum b (fun j => f (i * b + j))) = rsum (a * b) f.
Proof.
  intros Ha Hb. pattern a. apply natlike_ind; [| |assumption].
  - reflexivity.
  - intros x Hx IH. unfold Z.succ. rewrite rsum_succ, IH by assumption.
    replace ((x + 1) * b) with (x * b + b) by lia.
    rewrite rsum_add by nia. reflexivity.
Qed.

Lemma all_nonneg_true (sh : list Z) : valid_shape sh -> all_nonneg sh = true.
Proof.
  intros H. unfold all_nonneg. apply forallb_forall. intros d Hd.
  unfold valid_shape in H. rewrite Forall_forall in H. apply H in Hd. lia.
Qed.

Arguments rsum : simpl never.
Arguments get : simpl never.
Arguments tabulate : simpl never.

Ltac norm_in H :=
  unfold znth, zlen, remove_at, insert_at, replace_at, index_of in H;
  simpl in H.
Ltac norm :=
  unfold znth, zlen, remove_at, insert_at, replace_at, index_of; simpl.

Ltac bounds :=
  unfold in_bounds, valid_shape; repeat constructor; try lia; try nia.

Lemma bc_index_cons (d i : Z) (sh idx : list Z) :
  List.length sh = List.length idx ->
  bc_index (d :: sh) (i :: idx) = (if d =? 1 then 0 else i) :: bc_index sh idx.
Proof.
  intros H. unfold bc_index. simpl List.length. rewrite H, !Nat.sub_diag.
  reflexivity.
Qed.

Lemma bc_coord (d i : Z) : 0 <= i < d -> (if d =? 1 then 0 else i) = i.
Proof. intros H. destruct (Z.eqb_spec d 1); lia. Qed.

Lemma bc_index_same (sh idx : list Z) :
  in_bounds sh idx -> bc_index sh idx = idx.
Proof.
  induction 1 as [|i d idx sh Hi H IH]; [reflexivity|].
  rewrite bc_index_cons by (symmetry; eapply Forall2_length; eassumption).
  now rewrite bc_coord, IH.
Qed.

Lemma wf_map (f : R -> R) (t : tensor) :
  wf t -> wf (mkT (shape t) (map f (data t))).
Proof. unfold wf. simpl. now rewrite length_map. Qed.

Lemma get_mul_scalar (t : tensor) (c : Z) (idx : list Z) :
  wf t -> in_bounds (shape t) idx ->
  get (mul_scalar t c) idx = (get t idx * IZR c)%R.
Proof. intros. unfold mul_scalar. now rewrite get_map. Qed.

Lemma get_rdiv_scalar (t : tensor) (c : Z) (idx : list Z) :
  wf t -> in_bounds (shape t) idx ->
  get (rdiv_scalar c t) idx = (IZR c / get t idx)%R.
Proof. intros. unfold rdiv_scalar. now rewrite get_map. Qed.

Lemma exemplar_pooling_spec
    (self : SupervisedMAE) (N S : Z) (w t : tensor) :
  pool self = AdaptiveAvgPool2d_1x1 ->
  0 <= N -> 0 < S ->
  shape w = [N; S * 8 * 8; 1] ->
  shape t = [N; S * 8 * 8; 512] ->
  exists e,
    exemplar_pooling self N S w t = Some e /\
    shape e = [N * S; 512] /\
    forall n s c, 0 <= n < N -> 0 <= s < S -> 0 <= c < 512 ->
      get e [n * S + s; c] =
      Rdiv (rsum 64 (fun p => Rmult (get w [n; s * 64 + p; 0])
                                    (get t [n; s * 64 + p; c])))
           (rsum 64 (fun p => get w [n; s * 64 + p; 0])).
Proof.
  intros Hpool HN HS Hw Ht.
  unfold exemplar_pooling, mul.
  destruct (map2_bc_spec Rmult w t [N; S * 8 * 8; 512])
    as (y1 & -> & Hs1 & Hw1 & Hg1).
  { rewrite Hw, Ht. unfold broadcast_shapes. simpl. now rewrite !Z.eqb_refl. }
  cbn [bind].
  destruct (reshape_spec [N * S; 8; 8; 512] y1)
    as (y2 & -> & Hs2 & _ & Hg2).
  { apply all_nonneg_true. bounds. }
  { rewrite Hs1. unfold numel. simpl. ring. }
  cbn [bind].
  destruct (permute_spec [0; 3; 1; 2] y2) as (y3 & -> & Hs3 & Hw3 & Hg3).
  { now rewrite Hs2. }
  rewrite Hs2 in Hs3, Hg3. norm_in Hs3. rewrite Hs3 in Hg3.
  cbn [bind]. rewrite Hpool.
  destruct (Layer_forward_spec AdaptiveAvgPool2d_1x1 y3 [N * S; 512; 1; 1])
    as (y4 & -> & Hs4 & Hw4 & Hg4).
  { now rewrite Hs3. }
  cbn [bind].
  rewrite (squeeze_spec (-1) y4 3) by (now rewrite Hs4).
  cbn [bind].
  rewrite (squeeze_spec (-1) _ 2) by (cbn [shape]; now rewrite Hs4).
  cbn [bind shape]. rewrite Hs4.
  unfold gate_sums.
  destruct (reshape_spec [N * S; 8 * 8] w) as (a & -> & Hsa & _ & Hga).
  { apply all_nonneg_true. bounds. }
  { rewrite Hw. unfold numel. simpl. ring. }
  cbn [bind].
  destruct (sum_dim_keep_spec 1 a 1) as (a' & -> & Hsa' & Hwa' & Hga').
  { now rewrite Hsa. }
  rewrite Hsa in Hsa', Hga'. norm_in Hsa'. rewrite Hsa' in Hga'.
  cbn [bind]. norm.
  set (y5 := {| shape := [N * S; 512]; data := data y4 |}).
  assert (Hw5 : wf y5).
  { unfold wf, y5. cbn [shape data]. now rewrite Hw4, Hs4. }
  destruct (map2_bc_spec Rmult (mul_scalar (mul_scalar y5 8) 8)
              (rdiv_scalar 1 a') [N * S; 512]) as (e & -> & Hse & _ & Hge).
  { cbn [shape mul_scalar rdiv_scalar y5]. rewrite Hsa'.
    unfold broadcast_shapes. simpl. now rewrite Z.eqb_refl. }
  exists e. split; [reflexivity|]. split; [assumption|].
  intros n s c Hn Hs Hc.
  assert (Hr : 0 <= n * S + s < N * S) by nia.
  rewrite Hge by bounds.
  cbn [shape mul_scalar rdiv_scalar y5]. rewrite Hsa'.
  rewrite bc_index_same by bounds.
  rewrite bc_index_cons by reflexivity. rewrite bc_coord by assumption.
  replace (bc_index [1] [c]) with [0] by reflexivity.
  assert (Hw6 : wf (mul_scalar y5 8)) by now apply wf_map.
  rewrite get_mul_scalar by (assumption || (cbn [shape mul_scalar y5]; bounds)).
  rewrite get_mul_scalar by (assumption || (cbn [shape y5]; bounds)).
  rewrite get_rdiv_scalar by (assumption || (rewrite Hsa'; bounds)).
  unfold y5 at 1.
  rewrite (get_reshaped _ y4 _ [n * S + s; c; 0; 0])
    by (rewrite Hs4; unfold ravel, numel; simpl; ring).
  rewrite Hg4 by bounds.
  cbn [value AdaptiveAvgPool2d_1x1]. rewrite Hs3.
  rewrite Hga' by bounds. norm.
  rewrite (rsum_ext 64 _ (fun p => get w [n; s * 64 + p; 0])).
  2:{ intros p Hp. apply Hga. rewrite Hw. unfold ravel, numel. simpl. ring. }
  rewrite (rsum_ext 8 _ (fun i => rsum 8 (fun j =>
             (fun p => Rmult (get w [n; s * 64 + p; 0])
                             (get t [n; s * 64 + p; c])) (i * 8 + j)))).
  2:{ intros i Hi. apply rsum_ext. intros j Hj.
      rewrite Hg3 by bounds. norm.
      rewrite (Hg2 _ [n; s * 64 + (i * 8 + j); c])
        by (rewrite Hs1; unfold ravel, numel; simpl; ring).
      rewrite Hg1 by bounds.
      rewrite Hw, Ht.
      rewrite (bc_index_same [N; S * 8 * 8; 512]) by bounds.
      rewrite !bc_index_cons by reflexivity.
      rewrite !bc_coord by nia.
      reflexivity. }
  pose proof (rsum_grid 8 8
                (fun p => Rmult (get w [n; s * 64 + p; 0])
                                (get t [n; s * 64 + p; c]))
                ltac:(lia) ltac:(lia)) as Hgrid.
  cbv beta in Hgrid. rewrite Hgrid.
  change (8 * 8) with 64. unfold Rdiv.
  set (W := rsum 64 (fun p => get w [n; s * 64 + p; 0])).
  set (T := rsum 64 _).
  replace (T * / 64 * 8 * 8)%R with T by field. ring.
Qed.

Lemma flatten_spec (a b : Z) (t : tensor) (a' b' : Z) :
  norm_dim (zlen (shape t)) a = Some a' ->
  norm_dim (zlen (shape t)) b = Some b' ->
  a' <= b' ->
  flatten a b t =
  Some (mkT (firstn (Z.to_nat a') (shape t)
               ++ numel (firstn (S (Z.to_nat b') - Z.to_nat a')
                           (skipn (Z.to_nat a') (shape t)))
               :: skipn (S (Z.to_nat b')) (shape t))
            (data t)).
Proof.
  intros Ha Hb Hle. unfold flatten. rewrite Ha, Hb. cbn [bind].
  apply Z.leb_le in Hle. now rewrite Hle.
Qed.

Lemma attn_summary_spec (N S H : Z) (attn : tensor) :
  0 <= N -> 0 < S -> 0 <= H ->
  shape attn = [N; H; S * 8 * 8; S * 8 * 8] ->
  exists a,
    attn_summary N S H attn = Some a /\
    shape a = [N; S * 8 * 8; H * 64] /\
    forall n q h p,
      0 <= n < N -> 0 <= q < S * 8 * 8 -> 0 <= h < H -> 0 <= p < 64 ->
      get a [n; q; h * 64 + p] =
      Rdiv (rsum S (fun s => get attn [n; h; q; s * 64 + p])) (IZR S).
Proof.
  intros HN HS HH Hsh. unfold attn_summary.
  destruct (permute_spec [0; 2; 1; 3] attn) as (a1 & -> & Hs1 & Hw1 & Hg1).
  { now rewrite Hsh. }
  rewrite Hsh in Hs1, Hg1. norm_in Hs1. rewrite Hs1 in Hg1. cbn [bind].
  destruct (reshape_spec [N; S * 8 * 8; H; S; 8 * 8] a1)
    as (a2 & -> & Hs2 & _ & Hg2).
  { apply all_nonneg_true. bounds. }
  { rewrite Hs1. unfold numel. simpl. ring. }
  cbn [bind].
  destruct (mean_dim_spec 3 a2 3) as (a3 & -> & Hs3 & Hw3 & Hg3).
  { now rewrite Hs2. }
  rewrite Hs2 in Hs3, Hg3. norm_in Hs3. rewrite Hs3 in Hg3. cbn [bind].
  rewrite (flatten_spec 2 3 a3 2 3) by (rewrite ?Hs3; (reflexivity || lia)).
  rewrite Hs3. simpl.
  eexists. split; [reflexivity|]. cbn [shape].
  split; [unfold numel; simpl; f_equal; f_equal; f_equal; ring|].
  intros n q h p Hn Hq Hh Hp.
  rewrite (get_reshaped _ a3 _ [n; q; h; p])
    by (rewrite Hs3; unfold ravel, numel; simpl; ring).
  rewrite Hg3 by bounds. norm. f_equal.
  apply rsum_ext. intros s Hs.
  rewrite (Hg2 _ [n; q; h; s * 64 + p])
    by (rewrite Hs1; unfold ravel, numel; simpl; ring).
  rewrite Hg1 by bounds. norm. reflexivity.
Qed.

(** ** Shapes through layers and loops *)

Lemma Sequential_forward_shape (ls : list Layer) (t : tensor) :
  option_map shape (Sequential_forward ls t)
  = Sequential_out_shape ls (shape t).
Proof.
  revert t. induction ls as [|l ls IH]; intros t; [reflexivity|].
  simpl. unfold Layer_forward.
  destruct (out_shape l (shape t)) as [sh|]; [|reflexivity].
  cbn [bind]. now rewrite IH.
Qed.

Lemma Sequential_forward_spec (ls : list Layer) (t : tensor) (sh : list Z) :
  Sequential_out_shape ls (shape t) = Some sh ->
  exists t', Sequential_forward ls t = Some t' /\ shape t' = sh.
Proof.
  intros H. rewrite <- Sequential_forward_shape in H.
  destruct (Sequential_forward ls t) as [t'|]; [|discriminate].
  exists t'. split; [reflexivity|]. now injection H.
Qed.

Lemma Sequential_forward_inv (ls : list Layer) (t t' : tensor) :
  Sequential_forward ls t = Some t' ->
  Sequential_out_shape ls (shape t) = Some (shape t').
Proof.
  intros H. rewrite <- Sequential_forward_shape. now rewrite H.
Qed.

Lemma Sequential_out_shape_same (ls : list Layer) (sh : list Z) :
  Forall (fun l => out_shape l sh = Some sh) ls ->
  Sequential_out_shape ls sh = Some sh.
Proof. induction 1 as [|l ls Hl H IH]; simpl; [|rewrite Hl]; auto. Qed.

Lemma Sequential_out_shape_app (ls ls' : list Layer) (sh : list Z) :
  Sequential_out_shape (ls ++ ls') sh =
  sh' <- Sequential_out_shape ls sh ;; Sequential_out_shape ls' sh'.
Proof.
  revert sh. induction ls as [|l ls IH]; intros sh; [reflexivity|].
  simpl. destruct (out_shape l sh); [apply IH | reflexivity].
Qed.

Lemma broadcast_rev_refl (sh : list Z) : broadcast_rev sh sh = Some sh.
Proof.
  induction sh as [|d sh IH]; [reflexivity|].
  simpl. rewrite IH. cbn [bind]. now rewrite Z.eqb_refl.
Qed.

Lemma broadcast_shapes_refl (sh : list Z) : broadcast_shapes sh sh = Some sh.
Proof.
  unfold broadcast_shapes. rewrite broadcast_rev_refl. cbn [bind].
  now rewrite rev_involutive.
Qed.

(** A leading dimension of size 1 broadcasts against any batch size. *)
Lemma broadcast_shapes_batch (b p e : Z) :
  broadcast_shapes [b; p; e] [1; p; e] = Some [b; p; e].
Proof.
  unfold broadcast_shapes. simpl. rewrite !Z.eqb_refl. simpl.
  now destruct (b =? 1).
Qed.

Lemma add_spec (a b : tensor) (sh : list Z) :
  broadcast_shapes (shape a) (shape b) = Some sh ->
  exists t', add a b = Some t' /\ shape t' = sh.
Proof.
  intros H. destruct (map2_bc_spec Rplus a b sh H) as (t' & E & Hs & _).
  now exists t'.
Qed.

Lemma transpose_eq (d0 d1 : Z) (t : tensor) (a b : Z) :
  norm_dim (zlen (shape t)) d0 = Some a ->
  norm_dim (zlen (shape t)) d1 = Some b ->
  transpose d0 d1 t = permute (swap_dims (zlen (shape t)) a b) t.
Proof. intros Ha Hb. unfold transpose. now rewrite Ha, Hb. Qed.

Lemma CrossAttentionBlock_forward_spec (blk : CrossAttentionBlock_t)
    (x y : tensor) (b nx ny c : Z) :
  shape x = [b; nx; c] -> shape y = [b; ny; c] -> cab_dim blk = c ->
  exists x',
    CrossAttentionBlock_forward blk x y =
    Some (x', if return_attn blk
              then Some (tabulate [b; cab_num_heads blk; nx; ny]
                           (cab_attn blk x y))
              else None) /\
    shape x' = [b; nx; c].
Proof.
  intros Hx Hy Hc. unfold CrossAttentionBlock_forward.
  rewrite Hx, Hy, Hc, !Z.eqb_refl. simpl. eexists. split; reflexivity.
Qed.

(** A block rejects tokens that do not have its width. *)
Lemma CrossAttentionBlock_forward_width_x (blk : CrossAttentionBlock_t)
    (x y : tensor) (b nx c : Z) :
  shape x = [b; nx; c] -> c <> cab_dim blk ->
  CrossAttentionBlock_forward blk x y = None.
Proof.
  intros Hx Hc. unfold CrossAttentionBlock_forward. rewrite Hx.
  destruct (shape y) as [|? [|? [|? [|]]]]; try reflexivity.
  apply Z.eqb_neq in Hc. rewrite Hc, andb_false_r. reflexivity.
Qed.

Lemma CrossAttentionBlock_forward_width_y (blk : CrossAttentionBlock_t)
    (x y : tensor) (b ny c : Z) :
  shape y = [b; ny; c] -> c <> cab_dim blk ->
  CrossAttentionBlock_forward blk x y = None.
Proof.
  intros Hy Hc. unfold CrossAttentionBlock_forward. rewrite Hy.
  destruct (shape x) as [|? [|? [|? [|]]]]; try reflexivity.
  apply Z.eqb_neq in Hc. rewrite Hc, andb_false_r. reflexivity.
Qed.

Lemma decoder_fusion_spec (self : SupervisedMAE) (idxs : list Z)
    (x y : tensor) (b nx ny c : Z) :
  Forall (fun blk => cab_dim blk = c /\ return_attn blk = false)
         (decoder_blocks self) ->
  Forall (fun i => 0 <= i < zlen (decoder_blocks self)) idxs ->
  shape x = [b; nx; c] -> shape y = [b; ny; c] ->
  exists x', decoder_fusion self idxs x y = Some x' /\ shape x' = [b; nx; c].
Proof.
  intros Hblk Hidx. revert x. induction Hidx as [|i idxs Hi _ IH];
    intros x Hx Hy.
  - exists x. now split.
  - simpl.
    destruct (nth_error (decoder_blocks self) (Z.to_nat i)) as [blk|] eqn:E.
    2:{ apply nth_error_None in E. unfold zlen in Hi. lia. }
    cbn [bind]. apply nth_error_In in E.
    rewrite Forall_forall in Hblk. destruct (Hblk _ E) as (Hc & Hr).
    destruct (CrossAttentionBlock_forward_spec blk x y b nx ny c Hx Hy Hc)
      as (x' & -> & Hx').
    rewrite Hr. cbn [bind]. now apply IH.
Qed.

Lemma exemplar_attention_spec (blks : list CrossAttentionBlock_t)
    (N S H : Z) (y1 : tensor) (attns : list tensor) :
  0 <= N -> 0 < S -> 0 <= H ->
  Forall (fun blk => cab_dim blk = 512 /\ return_attn blk = true
                     /\ cab_num_heads blk = H) blks ->
  shape y1 = [N; S * 8 * 8; 512] ->
  exists y1' new,
    exemplar_attention blks N S H y1 attns = Some (y1', attns ++ new) /\
    shape y1' = [N; S * 8 * 8; 512] /\
    List.length new = List.length blks /\
    Forall (fun a => shape a = [1; N; S * 8 * 8; H * 64]) new.
Proof.
  intros HN HS HH Hblk. revert y1 attns.
  induction Hblk as [|blk blks (Hc & Hr & Hh) _ IH]; intros y1 attns Hy.
  - exists y1, []. rewrite app_nil_r. repeat split; auto.
  - simpl.
    destruct (CrossAttentionBlock_forward_spec blk y1 y1 _ _ _ _ Hy Hy Hc)
      as (x' & -> & Hx').
    rewrite Hr, Hh. cbn [bind].
    destruct (attn_summary_spec N S H
                (tabulate [N; H; S * 8 * 8; S * 8 * 8] (cab_attn blk y1 y1)))
      as (a & -> & Ha & _); try assumption; [reflexivity|].
    cbn [bind].
    rewrite (unsqueeze_spec 0 a 0) by now rewrite Ha.
    cbn [bind]. rewrite Ha.
    destruct (IH x' (attns ++ [mkT (insert_at 0 1 [N; S * 8 * 8; H * 64])
                                   (data a)]) Hx')
      as (y1' & new & -> & Hy1' & Hlen & Hnew).
    exists y1', (mkT (insert_at 0 1 [N; S * 8 * 8; H * 64]) (data a) :: new).
    rewrite <- app_assoc. simpl. repeat split; auto.
Qed.

Lemma cat0_spec (ts : list tensor) (rest : list Z) :
  ts <> [] ->
  Forall (fun t => shape t = 1 :: rest) ts ->
  exists t', cat0 ts = Some t' /\ shape t' = zlen ts :: rest.
Proof.
  intros Hne Hall. destruct ts as [|t0 ts]; [congruence|].
  unfold cat0. pose proof (Forall_inv Hall) as H0. simpl in H0. rewrite H0.
  assert (Hg : forallb (fun t => match shape t with
                                 | [] => false
                                 | _ :: r => shape_eqb r rest
                                 end) (t0 :: ts) = true).
  { apply forallb_forall. intros t Ht. rewrite Forall_forall in Hall.
    rewrite (Hall _ Ht). unfold shape_eqb.
    now destruct (list_eq_dec Z.eq_dec rest rest). }
  rewrite Hg. cbn [bind guard]. eexists. split; [reflexivity|].
  cbn [shape]. f_equal. clear -Hall.
  induction Hall as [|t l Ht _ IH]; [reflexivity|].
  cbn [map fold_right]. rewrite IH, Ht. unfold zlen, znth. simpl List.length.
  simpl nth. lia.
Qed.

(** ** Construction *)

Lemma sqrt_square_grid (g : Z) : Z.sqrt (g * g) * Z.sqrt (g * g) = g * g.
Proof.
  destruct (Z.le_gt_cases 0 g) as [H|H].
  - now rewrite Z.sqrt_square.
  - replace (g * g) with (- g * - g) by ring.
    rewrite Z.sqrt_square by lia. ring.
Qed.

Lemma copy_spec (dst : tensor) (f : list Z -> R) (p e g : Z) :
  shape dst = [1; p; e] -> g * g = p ->
  exists t,
    copy_ dst (mkT (insert_at 0 1 [g * g; e]) (data (tabulate [g * g; e] f)))
    = Some t /\
    shape t = [1; p; e] /\
    forall i j, 0 <= i < p -> 0 <= j < e -> get t [0; i; j] = f [i; j].
Proof.
  intros Hd Hg.
  unfold copy_. cbn [shape tabulate]. norm. rewrite Hd, Hg.
  rewrite broadcast_shapes_refl. cbn [bind]. unfold shape_eqb.
  destruct (list_eq_dec Z.eq_dec [1; p; e] [1; p; e]); [|congruence].
  cbn [guard bind]. eexists. split; [reflexivity|]. split; [reflexivity|].
  intros i j Hi Hj. rewrite get_tabulate by bounds.
  rewrite bc_index_same by bounds.
  change (map _ (range (numel [p; e]))) with (data (tabulate [p; e] f)).
  rewrite (get_reshaped _ (tabulate [p; e] f) _ [i; j])
    by (unfold ravel, numel; simpl; ring).
  apply get_tabulate. bounds.
Qed.

(** The constructor does not raise, and leaves every sub-module as it
    created it. *)
Lemma SupervisedMAE_init_spec (rt : Runtime) (w : Weights) (cfg : Config) :
  let grid := c_img_size cfg / c_patch_size cfg in
  exists pe dpe st,
    SupervisedMAE_init rt w cfg =
    Some (with_parameters (SupervisedMAE_modules rt w cfg) pe dpe st) /\
    shape pe = [1; grid * grid; c_embed_dim cfg] /\
    shape dpe = [1; grid * grid; c_decoder_embed_dim cfg] /\
    shape st = [512] /\
    (forall i j, 0 <= i < grid * grid -> 0 <= j < c_embed_dim cfg ->
       get pe [0; i; j] =
       get_2d_sincos_pos_embed rt (c_embed_dim cfg) (Z.sqrt (grid * grid))
         [i; j]) /\
    (forall i j, 0 <= i < grid * grid -> 0 <= j < c_decoder_embed_dim cfg ->
       get dpe [0; i; j] =
       get_2d_sincos_pos_embed rt (c_decoder_embed_dim cfg)
         (Z.sqrt (grid * grid)) [i; j]).
Proof.
  intros grid. unfold SupervisedMAE_init, initialize_weights.
  set (m := SupervisedMAE_modules rt w cfg).
  assert (Hp : shape (p_data (pos_embed m)) = [1; grid * grid; c_embed_dim cfg])
    by reflexivity.
  assert (Hd : shape (p_data (decoder_pos_embed m))
               = [1; grid * grid; c_decoder_embed_dim cfg]) by reflexivity.
  assert (Hn : num_patches (patch_embed m) = grid * grid) by reflexivity.
  rewrite Hp, Hd, Hn.
  replace (last_dim [1; grid * grid; c_embed_dim cfg])
    with (Some (c_embed_dim cfg)) by reflexivity.
  replace (last_dim [1; grid * grid; c_decoder_embed_dim cfg])
    with (Some (c_decoder_embed_dim cfg)) by reflexivity.
  cbn [bind].
  rewrite !(unsqueeze_spec 0 _ 0) by reflexivity. cbn [bind].
  rewrite !shape_tabulate.
  destruct (copy_spec (p_data (pos_embed m))
              (get_2d_sincos_pos_embed rt (c_embed_dim cfg)
                 (Z.sqrt (grid * grid)))
              (grid * grid) (c_embed_dim cfg) (Z.sqrt (grid * grid)) Hp
              (sqrt_square_grid grid)) as (pe & Epe & Hspe & Hgpe).
  destruct (copy_spec (p_data (decoder_pos_embed m))
              (get_2d_sincos_pos_embed rt (c_decoder_embed_dim cfg)
                 (Z.sqrt (grid * grid)))
              (grid * grid) (c_decoder_embed_dim cfg) (Z.sqrt (grid * grid))
              Hd (sqrt_square_grid grid)) as (dpe & Edpe & Hsdpe & Hgdpe).
  rewrite Epe. cbn [bind]. rewrite Edpe. cbn [bind].
  eexists pe, dpe, _. split; [reflexivity|].
  repeat split; assumption.
Qed.

(** ** The encoder *)

Ltac fields :=
  cbn [with_parameters SupervisedMAE_modules patch_embed decoder_depth
       pos_embed blocks norm decoder_embed decoder_pos_embed shot_token
       decoder_proj1 decoder_proj2 decoder_proj3 decoder_proj4
       decoder_proj_final pool decoder_blocks exemplar_blocks
       exemplar_weights decoder_num_heads decoder_norm exemplar_norm
       decode_head0 decode_head1 decode_head2 decode_head3 norm_pix_loss
       p_data requires_grad pe_forward num_patches PatchEmbed].

Lemma forward_encoder_spec (rt : Runtime) (w : Weights) (cfg : Config)
    (pe dpe st x : tensor) (B : Z) :
  let grid := c_img_size cfg / c_patch_size cfg in
  c_depth cfg <= 0 \/
  (0 < c_num_heads cfg /\ c_embed_dim cfg mod c_num_heads cfg = 0) ->
  shape pe = [1; grid * grid; c_embed_dim cfg] ->
  shape x = [B; c_in_chans cfg; c_img_size cfg; c_img_size cfg] ->
  exists latent,
    forward_encoder (with_parameters (SupervisedMAE_modules rt w cfg)
                       pe dpe st) x = Some latent /\
    shape latent = [B; grid * grid; c_embed_dim cfg].
Proof.
  intros grid Hheads Hpe Hx. unfold forward_encoder. fields.
  destruct (Layer_forward_spec
              (pe_forward (PatchEmbed (c_img_size cfg) (c_patch_size cfg)
                       (c_in_chans cfg) (c_embed_dim cfg)
                       (w_layer w n_patch_embed))) x
              [B; grid * grid; c_embed_dim cfg])
    as (x1 & E1 & Hs1 & _).
  { rewrite Hx. cbn [pe_forward PatchEmbed out_shape].
    now rewrite !Z.eqb_refl. }
  cbn [pe_forward PatchEmbed] in E1. rewrite E1. cbn [bind].
  destruct (add_spec x1 pe [B; grid * grid; c_embed_dim cfg])
    as (x2 & -> & Hs2).
  { rewrite Hs1, Hpe. apply broadcast_shapes_batch. }
  cbn [bind].
  destruct (Sequential_forward_spec
              (map (fun i => Block (c_embed_dim cfg) (c_num_heads cfg)
                                (w_layer w (n_blocks i)))
                   (range (c_depth cfg))) x2
              [B; grid * grid; c_embed_dim cfg]) as (x3 & -> & Hs3).
  { rewrite Hs2. apply Sequential_out_shape_same. apply Forall_forall.
    intros l Hl. apply in_map_iff in Hl. destruct Hl as (i & <- & Hi).
    destruct Hheads as [Hd | (Hh & Hm)];
      [rewrite (range_nonpos _ Hd) in Hi; destruct Hi|].
    cbn [Block out_shape]. rewrite Z.eqb_refl.
    apply Z.ltb_lt in Hh. apply Z.eqb_eq in Hm. now rewrite Hh, Hm. }
  cbn [bind].
  destruct (Layer_forward_spec
              (LayerNorm (c_norm_eps cfg) (c_embed_dim cfg) (w_layer w n_norm))
              x3 [B; grid * grid; c_embed_dim cfg]) as (x4 & -> & Hs4 & _).
  { rewrite Hs3. cbn [LayerNorm out_shape]. unfold last_dim. simpl.
    now rewrite Z.eqb_refl. }
  now exists x4.
Qed.

(** ** The gate *)

Lemma sigmoid_bounds (x : R) : (0 < sigmoid x < 1)%R.
Proof.
  unfold sigmoid. pose proof (exp_pos (- x)) as He.
  assert (Hd : (0 < 1 + exp (- x))%R) by lra.
  split.
  - apply Rdiv_lt_0_compat; lra.
  - apply Rmult_lt_reg_r with (r := (1 + exp (- x))%R); [assumption|].
    unfold Rdiv. rewrite Rmult_assoc, Rinv_l by lra. lra.
Qed.

Lemma rsum_pos (n : Z) (f : Z -> R) :
  0 < n -> (forall i, 0 <= i < n -> (0 < f i)%R) -> (0 < rsum n f)%R.
Proof.
  intros Hn. assert (H0 : 0 <= n - 1) by lia.
  replace n with ((n - 1) + 1) by lia. generalize (n - 1) H0. clear.
  intros m Hm. pattern m. apply natlike_ind; [| |assumption].
  - intros H. rewrite rsum_succ, rsum_0 by lia.
    specialize (H 0 ltac:(lia)). lra.
  - intros k Hk IH H. unfold Z.succ. rewrite rsum_succ by lia.
    assert (0 < rsum (k + 1) f)%R by (apply IH; intros; apply H; lia).
    specialize (H (k + 1) ltac:(lia)). lra.
Qed.

Lemma rsum_lt (n : Z) (f : Z -> R) :
  0 < n -> (forall i, 0 <= i < n -> (f i < 1)%R) -> (rsum n f < IZR n)%R.
Proof.
  intros Hn. assert (H0 : 0 <= n - 1) by lia.
  replace n with ((n - 1) + 1) by lia. generalize (n - 1) H0. clear.
  intros m Hm. pattern m. apply natlike_ind; [| |assumption].
  - intros H. rewrite rsum_succ, rsum_0 by lia.
    specialize (H 0 ltac:(lia)). simpl. lra.
  - intros k Hk IH H. unfold Z.succ. rewrite rsum_succ by lia.
    assert (rsum (k + 1) f < IZR (k + 1))%R by (apply IH; intros; apply H; lia).
    specialize (H (k + 1) ltac:(lia)). rewrite (plus_IZR (k + 1) 1). lra.
Qed.

Lemma exemplar_gate_spec (self : SupervisedMAE) (attns : list tensor)
    (N Q H : Z) (w0 w1 w2 w3 : kernel) :
  exemplar_weights self =
    [Linear (8 * 8 * H) 256 w0; Linear 256 64 w1; Linear 64 16 w2;
     Linear 16 1 w3; Sigmoid] ->
  attns <> [] ->
  Forall (fun a => shape a = [1; N; Q; H * 64]) attns ->
  exists g,
    exemplar_gate self attns = Some g /\
    shape g = [N; Q; 1] /\
    forall n q, 0 <= n < N -> 0 <= q < Q -> open_unit (get g [n; q; 0]).
Proof.
  intros Hw Hne Hall. unfold exemplar_gate.
  destruct (cat0_spec attns [N; Q; H * 64] Hne Hall) as (c & -> & Hc).
  cbn [bind]. rewrite Hw.
  assert (HL : 0 < zlen attns).
  { destruct attns; [congruence|]. unfold zlen. simpl List.length. lia. }
  set (L := zlen attns) in *.
  cbn [Sequential_forward].
  destruct (Layer_forward_spec (Linear (8 * 8 * H) 256 w0) c [L; N; Q; 256])
    as (t1 & -> & Hs1 & _).
  { rewrite Hc. cbn [Linear out_shape]. unfold last_dim. simpl rev.
    cbn [bind]. replace (H * 64 =? 8 * 8 * H) with true
      by (symmetry; apply Z.eqb_eq; lia). reflexivity. }
  cbn [bind].
  destruct (Layer_forward_spec (Linear 256 64 w1) t1 [L; N; Q; 64])
    as (t2 & -> & Hs2 & _); [now rewrite Hs1|]. cbn [bind].
  destruct (Layer_forward_spec (Linear 64 16 w2) t2 [L; N; Q; 16])
    as (t3 & -> & Hs3 & _); [now rewrite Hs2|]. cbn [bind].
  destruct (Layer_forward_spec (Linear 16 1 w3) t3 [L; N; Q; 1])
    as (t4 & -> & Hs4 & _); [now rewrite Hs3|]. cbn [bind].
  destruct (Layer_forward_spec Sigmoid t4 [L; N; Q; 1])
    as (t5 & -> & Hs5 & _ & Hg5); [now rewrite Hs4|]. cbn [bind].
  destruct (mean_dim_spec 0 t5 0) as (g & -> & Hsg & _ & Hgg);
    [now rewrite Hs5|].
  rewrite Hs5 in Hsg, Hgg. norm_in Hsg. rewrite Hsg in Hgg.
  exists g. split; [reflexivity|]. split; [assumption|].
  intros n q Hn Hq. rewrite Hgg by bounds. norm.
  assert (Hpos : forall i, 0 <= i < L -> open_unit (get t5 [i; n; q; 0])).
  { intros i Hi. rewrite Hg5 by bounds. apply sigmoid_bounds. }
  assert (HLR : (0 < IZR L)%R) by (apply IZR_lt; lia).
  unfold open_unit in *. split.
  - apply Rdiv_lt_0_compat; [|assumption].
    apply rsum_pos; [assumption|]. intros i Hi. now apply Hpos.
  - apply Rmult_lt_reg_r with (r := IZR L); [assumption|].
    unfold Rdiv. rewrite Rmult_assoc, Rinv_l by lra.
    rewrite Rmult_1_r, Rmult_1_l. apply rsum_lt; [assumption|].
    intros i Hi. now apply Hpos.
Qed.

Lemma gate_sums_spec (N S : Z) (attns : tensor) :
  0 <= N -> 0 < S ->
  shape attns = [N; S * 8 * 8; 1] ->
  exists d,
    gate_sums N S attns = Some d /\
    shape d = [N * S; 1] /\
    forall n s, 0 <= n < N -> 0 <= s < S ->
      get d [n * S + s; 0] = rsum 64 (fun p => get attns [n; s * 64 + p; 0]).
Proof.
  intros HN HS Hsh. unfold gate_sums.
  destruct (reshape_spec [N * S; 8 * 8] attns) as (a & -> & Hsa & _ & Hga).
  { apply all_nonneg_true. bounds. }
  { rewrite Hsh. unfold numel. simpl. ring. }
  cbn [bind].
  destruct (sum_dim_keep_spec 1 a 1) as (d & -> & Hsd & _ & Hgd).
  { now rewrite Hsa. }
  rewrite Hsa in Hsd, Hgd. norm_in Hsd. rewrite Hsd in Hgd.
  exists d. split; [reflexivity|]. split; [assumption|].
  intros n s Hn Hs. assert (0 <= n * S + s < N * S) by nia.
  rewrite Hgd by bounds. norm. apply rsum_ext. intros p Hp.
  apply Hga. rewrite Hsh. unfold ravel, numel. simpl. ring.
Qed.

(** ** The exemplar encoder *)

Lemma exemplar_encoder_spec (self : SupervisedMAE) (shot_num : Z)
    (s0 s1 s2 s3 : list Z) (B D h w : Z) :
  Sequential_out_shape (decoder_proj1 self) s0 = Some s1 ->
  Sequential_out_shape (decoder_proj2 self) s1 = Some s2 ->
  Sequential_out_shape (decoder_proj3 self) s2 = Some s3 ->
  Sequential_out_shape (decoder_proj_final self) s3 = Some [B; D; h; w] ->
  forall ys cnt y1 N C,
    Forall (fun yi => shape yi = s0) ys ->
    exists new N' C',
      exemplar_encoder self shot_num ys cnt y1 N C = Some (y1 ++ new, N', C')
      /\ Forall (fun u => shape u = [1; B; D; h; w]) new
      /\ zlen new = Z.min (Z.max 0 (shot_num - cnt)) (zlen ys)
      /\ (new = [] -> N' = N /\ C' = C)
      /\ (new <> [] -> N' = B /\ C' = D).
Proof.
  intros H1 H2 H3 H4 ys. induction ys as [|yi ys IH]; intros cnt y1 N C Hall.
  - exists [], N, C. rewrite app_nil_r.
    split; [reflexivity|]. split; [constructor|].
    split; [unfold zlen; simpl; lia|]. split; [auto | congruence].
  - cbn [exemplar_encoder]. destruct (cnt + 1 >? shot_num) eqn:Ecnt.
    + exists [], N, C. rewrite app_nil_r.
      split; [reflexivity|]. split; [constructor|].
      split; [unfold zlen; simpl List.length; lia|].
      split; [auto | congruence].
    + pose proof (Forall_inv Hall) as Hyi. cbn beta in Hyi.
      destruct (Sequential_forward_spec (decoder_proj1 self) yi s1)
        as (t1 & -> & Hs1); [now rewrite Hyi|]. cbn [bind].
      destruct (Sequential_forward_spec (decoder_proj2 self) t1 s2)
        as (t2 & -> & Hs2); [now rewrite Hs1|]. cbn [bind].
      destruct (Sequential_forward_spec (decoder_proj3 self) t2 s3)
        as (t3 & -> & Hs3); [now rewrite Hs2|]. cbn [bind].
      destruct (Sequential_forward_spec (decoder_proj_final self) t3
                  [B; D; h; w]) as (t4 & -> & Hs4); [now rewrite Hs3|].
      cbn [bind]. rewrite Hs4.
      rewrite (unsqueeze_spec 0 t4 0) by now rewrite Hs4.
      cbn [bind]. rewrite Hs4.
      destruct (IH (cnt + 1)
                  (y1 ++ [mkT (insert_at 0 1 [B; D; h; w]) (data t4)])
                  B D (Forall_inv_tail Hall))
        as (new & N' & C' & -> & Hnew & Hlen & Hnil & Hcons).
      exists (mkT (insert_at 0 1 [B; D; h; w]) (data t4) :: new), N', C'.
      rewrite <- app_assoc. split; [reflexivity|].
      split; [constructor; [reflexivity | assumption]|].
      split.
      { unfold zlen in *. simpl List.length. lia. }
      split; [congruence|]. intros _.
      destruct new as [|u new]; [now apply Hnil | apply Hcons; congruence].
Qed.

(** The four stages of the exemplar CNN take 64x64 crops to an 8x8 grid. *)
Lemma exemplar_cnn_shapes (rt : Runtime) (w : Weights) (cfg : Config)
    (pe dpe st : tensor) (B : Z) :
  let m := with_parameters (SupervisedMAE_modules rt w cfg) pe dpe st in
  Sequential_out_shape (decoder_proj1 m) [B; 3; 64; 64] = Some [B; 64; 32; 32]
  /\ Sequential_out_shape (decoder_proj2 m) [B; 64; 32; 32]
     = Some [B; 128; 16; 16]
  /\ Sequential_out_shape (decoder_proj3 m) [B; 128; 16; 16]
     = Some [B; 256; 8; 8]
  /\ Sequential_out_shape (decoder_proj_final m) [B; 256; 8; 8]
     = Some [B; c_decoder_embed_dim cfg; 8; 8].
Proof. repeat split. Qed.

Lemma select0_shape (i : Z) (t : tensor) : shape (select0 i t) = tl (shape t).
Proof. reflexivity. Qed.

(** [for yi in boxes.transpose(0, 1)] visits one tensor per shot. *)
Lemma unbind_shots (boxes : tensor) (B M c h w : Z) :
  0 <= M ->
  shape boxes = [B; M; c; h; w] ->
  exists y_,
    transpose 0 1 boxes = Some y_ /\
    shape y_ = [M; B; c; h; w] /\
    unbind0 y_ = Some (map (fun i => select0 i y_) (range M)) /\
    Forall (fun yi => shape yi = [B; c; h; w])
           (map (fun i => select0 i y_) (range M)) /\
    zlen (map (fun i => select0 i y_) (range M)) = M.
Proof.
  intros HM Hb.
  rewrite (transpose_eq 0 1 boxes 0 1) by now rewrite Hb.
  destruct (permute_spec (swap_dims (zlen (shape boxes)) 0 1) boxes)
    as (y_ & -> & Hs & _).
  { now rewrite Hb. }
  rewrite Hb in Hs. unfold swap_dims in Hs. norm_in Hs.
  exists y_. split; [reflexivity|]. split; [assumption|].
  unfold unbind0. rewrite Hs. split; [reflexivity|]. split.
  - apply Forall_forall. intros yi Hyi. apply in_map_iff in Hyi.
    destruct Hyi as (i & <- & _). now rewrite select0_shape, Hs.
  - unfold zlen. rewrite length_map, range_length. lia.
Qed.

(** ** Density regression *)

Lemma conv_out_3 (h : Z) : conv_out h 3 1 1 = h.
Proof. unfold conv_out. rewrite Z.div_1_r. lia. Qed.

Lemma conv_out_1 (h : Z) : conv_out h 1 1 0 = h.
Proof. unfold conv_out. rewrite Z.div_1_r. lia. Qed.

Lemma head_shape (c B h : Z) (w1 w2 : kernel) :
  0 < h ->
  Sequential_out_shape [Conv2d c 256 3 1 1 w1; GroupNorm 8 256 w2; ReLU]
    [B; c; h; h] = Some [B; 256; h; h].
Proof.
  intros Hh. cbn [Sequential_out_shape Conv2d out_shape].
  rewrite Z.eqb_refl. replace (3 <=? h + 2 * 1) with true
    by (symmetry; apply Z.leb_le; lia).
  cbn [andb guard bind]. rewrite conv_out_3. reflexivity.
Qed.

Lemma upsample_spec (rt : Runtime) (head : list Layer) (x : tensor)
    (B c c' h : Z) :
  0 < h ->
  Sequential_out_shape head [B; c; h; h] = Some [B; c'; h; h] ->
  shape x = [B; c; h; h] ->
  exists x', upsample rt head x = Some x' /\ shape x' = [B; c'; h * 2; h * 2].
Proof.
  intros Hh Hhead Hx. unfold upsample.
  destruct (Sequential_forward_spec head x [B; c'; h; h])
    as (hx & -> & Hhx); [now rewrite Hx|].
  cbn [bind]. unfold shape_at. rewrite Hx.
  replace (norm_dim (zlen [B; c; h; h]) (-1)) with (Some 3) by reflexivity.
  cbn [bind]. norm. unfold F_interpolate. rewrite Hhx.
  replace (0 <? h * 2) with true by (symmetry; apply Z.ltb_lt; lia).
  replace (0 <? h) with true by (symmetry; apply Z.ltb_lt; lia).
  cbn [andb guard bind]. eexists. split; reflexivity.
Qed.

Lemma density_regression_spec (rt : Runtime) (w : Weights) (cfg : Config)
    (pe dpe st x : tensor) (B g : Z) :
  0 <= B -> 0 < g -> 0 <= c_decoder_embed_dim cfg ->
  shape x = [B; g * g; c_decoder_embed_dim cfg] ->
  exists out,
    density_regression rt
      (with_parameters (SupervisedMAE_modules rt w cfg) pe dpe st) x
    = Some out /\
    shape out = [B; g * 2 * 2 * 2 * 2; g * 2 * 2 * 2 * 2].
Proof.
  intros HB Hg HD Hx. unfold density_regression. rewrite Hx.
  rewrite Z.sqrt_square by lia.
  rewrite (transpose_eq 1 2 x 1 2) by now rewrite Hx.
  destruct (permute_spec (swap_dims (zlen (shape x)) 1 2) x)
    as (x1 & -> & Hs1 & _); [now rewrite Hx|].
  rewrite Hx in Hs1. unfold swap_dims in Hs1. norm_in Hs1. cbn [bind].
  destruct (reshape_spec [B; c_decoder_embed_dim cfg; g; g] x1)
    as (x2 & -> & Hs2 & _).
  { apply all_nonneg_true. bounds. }
  { rewrite Hs1. unfold numel. simpl. ring. }
  cbn [bind]. fields.
  match goal with |- context [upsample rt ?hd x2] =>
    destruct (upsample_spec rt hd x2 B _ 256 g Hg (head_shape _ B g _ _ Hg) Hs2)
      as (x3 & -> & Hs3) end. cbn [bind].
  match goal with |- context [upsample rt ?hd x3] =>
    destruct (upsample_spec rt hd x3 B _ 256 (g * 2) ltac:(lia)
                (head_shape _ B (g * 2) _ _ ltac:(lia)) Hs3)
      as (x4 & -> & Hs4) end. cbn [bind].
  match goal with |- context [upsample rt ?hd x4] =>
    destruct (upsample_spec rt hd x4 B _ 256 (g * 2 * 2) ltac:(lia)
                (head_shape _ B (g * 2 * 2) _ _ ltac:(lia)) Hs4)
      as (x5 & -> & Hs5) end. cbn [bind].
  destruct (upsample_spec rt
              ([Conv2d 256 256 3 1 1 (w_layer w (n_decode_head 3 0));
                GroupNorm 8 256 (w_layer w (n_decode_head 3 1)); ReLU]
               ++ [Conv2d 256 1 1 1 0 (w_layer w (n_decode_head 3 3))])
              x5 B 256 1 (g * 2 * 2 * 2) ltac:(lia)) as (x6 & -> & Hs6).
  { rewrite Sequential_out_shape_app, head_shape by lia.
    cbn [bind Sequential_out_shape Conv2d out_shape].
    replace (1 <=? g * 2 * 2 * 2 + 2 * 0) with true
      by (symmetry; apply Z.leb_le; lia).
    cbn [Z.eqb Pos.eqb andb guard bind]. now rewrite conv_out_1. }
  { assumption. }
  cbn [bind].
  rewrite (squeeze_spec (-3) x6 1) by now rewrite Hs6.
  eexists. split; [reflexivity|]. cbn [shape]. now rewrite Hs6.
Qed.

(** ** The decoder *)

Lemma zlen_nil_inv {A : Type} (l : list A) : zlen l = 0 -> l = [].
Proof. destruct l; [reflexivity|]. unfold zlen. simpl. lia. Qed.

Lemma decoder_tail_spec (rt : Runtime) (w : Weights) (cfg : Config)
    (pe dpe st x y : tensor) (B g k Dy : Z) :
  let m := with_parameters (SupervisedMAE_modules rt w cfg) pe dpe st in
  0 <= B -> 0 < g -> 0 <= c_decoder_embed_dim cfg ->
  shape x = [B; g * g; c_decoder_embed_dim cfg] ->
  shape y = [B; k; Dy] ->
  Dy = c_decoder_embed_dim cfg \/ c_decoder_depth cfg <= 0 ->
  exists out,
    (x <- decoder_fusion m (range (decoder_depth m)) x y ;;
     x <- Layer_forward (decoder_norm m) x ;;
     density_regression rt m x) = Some out /\
    shape out = [B; g * 2 * 2 * 2 * 2; g * 2 * 2 * 2 * 2].
Proof.
  intros m HB Hg HD Hx Hy Hcase.
  assert (Hf : exists x', decoder_fusion m (range (decoder_depth m)) x y
                          = Some x' /\
                          shape x' = [B; g * g; c_decoder_embed_dim cfg]).
  { destruct (Z.le_gt_cases (c_decoder_depth cfg) 0) as [Hd|Hd].
    - unfold m. fields. rewrite range_nonpos by assumption.
      exists x. now split.
    - destruct Hcase as [->|Hc]; [|lia].
      apply decoder_fusion_spec with (ny := k); try assumption.
      + unfold m. fields. apply Forall_forall. intros blk Hblk.
        apply in_map_iff in Hblk. destruct Hblk as (i & <- & _). now split.
      + unfold m. fields. apply Forall_forall. intros i Hi.
        apply in_range in Hi. unfold zlen.
        rewrite length_map, range_length. lia. }
  destruct Hf as (x1 & -> & Hs1). cbn [bind].
  destruct (Layer_forward_spec (decoder_norm m) x1
              [B; g * g; c_decoder_embed_dim cfg]) as (x2 & -> & Hs2 & _).
  { rewrite Hs1. unfold m. fields. cbn [LayerNorm out_shape].
    unfold last_dim. simpl. now rewrite Z.eqb_refl. }
  cbn [bind]. now apply density_regression_spec.
Qed.

Lemma repeat_rows_spec (n c : Z) (t : tensor) :
  0 <= n -> shape t = [c] ->
  exists t', repeat_rows n t = Some t' /\ shape t' = [n; c].
Proof.
  intros Hn Ht. unfold repeat_rows. rewrite Ht.
  replace (0 <=? n) with true by (symmetry; apply Z.leb_le; lia).
  cbn [guard bind]. eexists. split; reflexivity.
Qed.

Lemma exemplar_aggregator_spec (rt : Runtime) (w : Weights) (cfg : Config)
    (pe dpe st : tensor) (y1 : list tensor) (B S : Z) :
  let m := with_parameters (SupervisedMAE_modules rt w cfg) pe dpe st in
  0 <= B -> 0 < S -> 0 < c_cross_blocks cfg -> 0 <= c_decoder_num_heads cfg ->
  zlen y1 = S ->
  Forall (fun u => shape u = [1; B; 512; 8; 8]) y1 ->
  exists e, exemplar_aggregator m B S y1 = Some e /\ shape e = [B * S; 512].
Proof.
  intros m HB HS Hcb Hh Hlen Hall. unfold exemplar_aggregator.
  destruct (cat0_spec y1 [B; 512; 8; 8]) as (c & -> & Hc); [|assumption|].
  { intros ->. unfold zlen in Hlen. simpl in Hlen. lia. }
  rewrite Hlen in Hc. cbn [bind].
  destruct (permute_spec [1; 0; 3; 4; 2] c) as (c1 & -> & Hs1 & _);
    [now rewrite Hc|].
  rewrite Hc in Hs1. norm_in Hs1. cbn [bind].
  rewrite (flatten_spec 1 3 c1 1 3) by (rewrite ?Hs1; (reflexivity || lia)).
  rewrite Hs1. cbn [bind].
  set (t := {| shape := _; data := data c1 |}).
  assert (Ht : shape t = [B; S * 8 * 8; 512]).
  { unfold t. cbn [shape]. norm. unfold numel. simpl. f_equal. f_equal. ring. }
  clearbody t.
  destruct (exemplar_attention_spec (exemplar_blocks m) B S
              (c_decoder_num_heads cfg) t [] HB HS Hh)
    as (t' & new & E & Ht' & Hlen' & Hnew); [|assumption|].
  { unfold m. fields. apply Forall_forall. intros blk Hblk.
    apply in_map_iff in Hblk. destruct Hblk as (i & <- & _). now repeat split. }
  replace (decoder_num_heads m) with (c_decoder_num_heads cfg) by reflexivity.
  rewrite E. cbn [bind app].
  destruct (Layer_forward_spec (exemplar_norm m) t' [B; S * 8 * 8; 512])
    as (t2 & -> & Hs2 & _).
  { rewrite Ht'. reflexivity. }
  cbn [bind].
  destruct (exemplar_gate_spec m new B (S * 8 * 8) (c_decoder_num_heads cfg)
              (w_layer w (n_exemplar_weights 0))
              (w_layer w (n_exemplar_weights 1))
              (w_layer w (n_exemplar_weights 2))
              (w_layer w (n_exemplar_weights 3)))
    as (gt & -> & Hsg & _); [reflexivity | | assumption |].
  { intros ->. simpl in Hlen'. unfold m in Hlen'. fields.
    cbn [with_parameters SupervisedMAE_modules exemplar_blocks] in Hlen'.
    rewrite length_map, range_length in Hlen'. lia. }
  cbn [bind].
  destruct (exemplar_pooling_spec m B S gt t2 eq_refl HB HS Hsg Hs2)
    as (e & -> & He & _).
  now exists e.
Qed.

Lemma forward_decoder_spec (rt : Runtime) (w : Weights) (cfg : Config)
    (pe dpe st latent boxes : tensor) (shot_num B M g : Z) :
  let m := with_parameters (SupervisedMAE_modules rt w cfg) pe dpe st in
  let D := c_decoder_embed_dim cfg in
  0 <= B -> 0 < g -> 0 <= M -> 0 <= D ->
  shape dpe = [1; g * g; D] -> shape st = [512] ->
  shape latent = [B; g * g; c_embed_dim cfg] ->
  shape boxes = [B; M; 3; 64; 64] ->
  (shot_num <= 0 /\ (D = 512 \/ c_decoder_depth cfg <= 0)) \/
  (1 <= shot_num <= M /\ D = 512 /\ 0 < c_cross_blocks cfg
   /\ 0 <= c_decoder_num_heads cfg) ->
  exists out,
    forward_decoder rt m latent boxes shot_num = Some out /\
    shape out = [B; g * 2 * 2 * 2 * 2; g * 2 * 2 * 2 * 2].
Proof.
  intros m D HB Hg HM HD Hdpe Hst Hlat Hbox Hcase. unfold forward_decoder.
  subst D.
  destruct (Layer_forward_spec (decoder_embed m) latent
              [B; g * g; c_decoder_embed_dim cfg])
    as (x1 & -> & Hs1 & _).
  { rewrite Hlat. unfold m. fields. cbn [Linear out_shape].
    unfold last_dim. simpl. now rewrite Z.eqb_refl. }
  cbn [bind].
  destruct (add_spec x1 (p_data (decoder_pos_embed m))
              [B; g * g; c_decoder_embed_dim cfg])
    as (x2 & -> & Hs2).
  { rewrite Hs1. unfold m. fields. rewrite Hdpe.
    apply broadcast_shapes_batch. }
  cbn [bind].
  destruct (unbind_shots boxes B M 3 64 64 HM Hbox)
    as (y_ & -> & Hy_ & Eys & Hys & Hlen).
  cbn [bind]. unfold shape_at. rewrite Hy_.
  replace (norm_dim (zlen [M; B; 3; 64; 64]) 1) with (Some 1) by reflexivity.
  cbn [bind]. replace (znth [M; B; 3; 64; 64] 1) with B by reflexivity.
  rewrite Eys. cbn [bind].
  destruct (exemplar_cnn_shapes rt w cfg pe dpe st B) as (C1 & C2 & C3 & C4).
  destruct (exemplar_encoder_spec m shot_num _ _ _ _ B _ 8 8 C1 C2 C3 C4
              _ 0 [] B 0 Hys)
    as (new & N' & C' & -> & Hnew & Hnlen & Hnil & Hcons).
  cbn [bind app]. rewrite Hlen, Z.sub_0_r in Hnlen.
  unfold exemplar_tokens, shape_at. rewrite Hy_.
  replace (norm_dim (zlen [M; B; 3; 64; 64]) 1) with (Some 1) by reflexivity.
  cbn [bind]. replace (znth [M; B; 3; 64; 64] 1) with B by reflexivity.
  destruct Hcase as [(Hshot & Hw) | (Hshot & HD512 & Hcb & Hh)].
  - replace (shot_num >? 0) with false
      by (symmetry; rewrite Z.gtb_ltb; apply Z.ltb_ge; lia).
    destruct (repeat_rows_spec B 512 (p_data (shot_token m)) HB)
      as (t1 & -> & Ht1); [exact Hst|].
    cbn [bind]. rewrite (unsqueeze_spec 0 t1 0) by now rewrite Ht1.
    cbn [bind]. rewrite Ht1.
    rewrite (transpose_eq 0 1 _ 0 1) by reflexivity.
    destruct (permute_spec (swap_dims 3 0 1)
                {| shape := insert_at 0 1 [B; 512]; data := data t1 |})
      as (y & E & Hy & _); [reflexivity|].
    cbn [shape] in E |- *. replace (zlen (insert_at 0 1 [B; 512])) with 3
      by reflexivity. rewrite E. cbn [bind].
    cbn [shape] in Hy. unfold swap_dims in Hy. norm_in Hy.
    apply decoder_tail_spec with (k := 1) (Dy := 512); try assumption.
    destruct Hw as [Hw|Hw]; [left; symmetry; exact Hw | right; exact Hw].
  - replace (shot_num >? 0) with true
      by (symmetry; rewrite Z.gtb_ltb; apply Z.ltb_lt; lia).
    assert (Hnn : new <> []).
    { intros ->. unfold zlen in Hnlen. simpl in Hnlen. lia. }
    destruct (Hcons Hnn) as (-> & ->).
    assert (Hnl : zlen new = shot_num) by lia.
    rewrite HD512 in Hnew |- *. subst m.
    destruct (exemplar_aggregator_spec rt w cfg pe dpe st new B shot_num
                HB ltac:(lia) Hcb Hh Hnl Hnew) as (e & -> & He).
    cbn [bind].
    destruct (reshape_spec [shot_num; B; 512] e) as (y0 & -> & Hy0 & _).
    { apply all_nonneg_true. bounds. }
    { rewrite He. unfold numel. simpl. ring. }
    cbn [bind].
    rewrite (transpose_eq 0 1 y0 0 1) by now rewrite Hy0.
    destruct (permute_spec (swap_dims (zlen (shape y0)) 0 1) y0)
      as (y & -> & Hy & _); [now rewrite Hy0|].
    rewrite Hy0 in Hy. unfold swap_dims in Hy. norm_in Hy. cbn [bind].
    apply decoder_tail_spec with (k := shot_num) (Dy := 512); try assumption.
    left. symmetry. exact HD512.
Qed.

(** ** The top-level call *)

Lemma forward_eq (rt : Runtime) (imgs boxes : tensor) (shot_num : Z)
    (st : State) :
  forward rt imgs boxes shot_num st =
  (latent <- forward_encoder (module st) imgs ;;
   forward_decoder rt (module st) latent boxes shot_num,
   st).
Proof.
  destruct st as [m g].
  cbv beta iota delta [forward mbind no_grad call set_grad_enabled module
                       grad_enabled].
  destruct (forward_encoder m imgs); reflexivity.
Qed.


(** ** Which exemplar crops the forward pass reads *)

Lemma transpose_shape_only (d0 d1 : Z) (a b : tensor) :
  shape a = shape b ->
  option_map shape (transpose d0 d1 a) = option_map shape (transpose d0 d1 b).
Proof.
  intros H. unfold transpose, permute. rewrite H.
  destruct (norm_dim (zlen (shape b)) d0); [|reflexivity].
  destruct (norm_dim (zlen (shape b)) d1); [|reflexivity].
  cbn [bind]. destruct (guard _); reflexivity.
Qed.

(** The loop over the shots reads the shots before [shot_num] only. *)
Lemma exemplar_encoder_agree (self : SupervisedMAE) (shot_num : Z)
    (ys1 ys2 : list tensor) :
  List.length ys1 = List.length ys2 ->
  forall cnt y1 N C,
    (forall k, cnt + Z.of_nat k + 1 <= shot_num ->
               nth_error ys1 k = nth_error ys2 k) ->
    exemplar_encoder self shot_num ys1 cnt y1 N C =
    exemplar_encoder self shot_num ys2 cnt y1 N C.
Proof.
  revert ys2. induction ys1 as [|a ys1 IH]; intros [|b ys2] Hlen;
    try discriminate; intros cnt y1 N C H; [reflexivity|].
  cbn [exemplar_encoder].
  destruct (cnt + 1 >? shot_num) eqn:E; [reflexivity|].
  assert (Hab : a = b).
  { specialize (H 0%nat). cbn in H.
    assert (Some a = Some b) by (apply H; lia). congruence. }
  subst b.
  destruct (Sequential_forward (decoder_proj1 self) a); [|reflexivity].
  cbn [bind].
  destruct (Sequential_forward (decoder_proj2 self) t); [|reflexivity].
  cbn [bind].
  destruct (Sequential_forward (decoder_proj3 self) t0); [|reflexivity].
  cbn [bind].
  destruct (Sequential_forward (decoder_proj_final self) t1); [|reflexivity].
  cbn [bind].
  destruct (shape t2) as [|? [|? [|? [|? [|]]]]]; try reflexivity.
  destruct (unsqueeze 0 t2); [|reflexivity]. cbn [bind].
  apply IH; [now injection Hlen|].
  intros k Hk. apply (H (S k)). lia.
Qed.

(** Without shots the loop stops before its first exemplar. *)
Lemma exemplar_encoder_bypass (self : SupervisedMAE) (shot_num : Z)
    (ys : list tensor) (N C : Z) :
  shot_num <= 0 ->
  exemplar_encoder self shot_num ys 0 [] N C = Some ([], N, C).
Proof.
  intros H. destruct ys as [|yi ys]; [reflexivity|].
  cbn [exemplar_encoder].
  replace (0 + 1 >? shot_num) with true
    by (symmetry; rewrite Z.gtb_ltb; apply Z.ltb_lt; lia).
  reflexivity.
Qed.

Lemma nth_error_map_range (f : Z -> tensor) (n : Z) (k : nat) :
  (k < Z.to_nat n)%nat ->
  nth_error (map f (range n)) k = Some (f (Z.of_nat k)).
Proof.
  intros H. unfold range. rewrite map_map.
  rewrite nth_error_map. rewrite nth_error_nth' with (d := 0%nat)
    by (rewrite length_seq; lia).
  rewrite seq_nth by lia. reflexivity.
Qed.

(** The decoder reads the crops through the shots before [shot_num]. *)
Lemma forward_decoder_agree (rt : Runtime) (self : SupervisedMAE)
    (x b1 b2 : tensor) (shot_num : Z) :
  shape b1 = shape b2 ->
  (forall y1_ y2_ i,
     transpose 0 1 b1 = Some y1_ -> transpose 0 1 b2 = Some y2_ ->
     0 <= i < shot_num -> select0 i y1_ = select0 i y2_) ->
  forward_decoder rt self x b1 shot_num = forward_decoder rt self x b2 shot_num.
Proof.
  intros Hsh Hag. unfold forward_decoder.
  destruct (Layer_forward (decoder_embed self) x) as [x1|]; [|reflexivity].
  cbn [bind].
  destruct (add x1 (p_data (decoder_pos_embed self))) as [x2|]; [|reflexivity].
  cbn [bind].
  pose proof (transpose_shape_only 0 1 b1 b2 Hsh) as Ht.
  destruct (transpose 0 1 b1) as [y1_|] eqn:E1;
    destruct (transpose 0 1 b2) as [y2_|] eqn:E2; try discriminate;
    [|reflexivity].
  cbn [option_map] in Ht. injection Ht as Ht. cbn [bind].
  unfold shape_at, unbind0, exemplar_tokens, shape_at. rewrite Ht.
  destruct (norm_dim (zlen (shape y2_)) 1) as [d|]; [|reflexivity].
  cbn [bind].
  destruct (shape y2_) as [|d0 rest] eqn:Es; [reflexivity|]. cbn [bind].
  rewrite (exemplar_encoder_agree self shot_num
             (map (fun i => select0 i y1_) (range d0))
             (map (fun i => select0 i y2_) (range d0))).
  - reflexivity.
  - now rewrite !length_map.
  - intros k Hk.
    destruct (Nat.lt_ge_cases k (Z.to_nat d0)) as [Hlt|Hge].
    + rewrite !nth_error_map_range by assumption. f_equal.
      apply Hag; [reflexivity | reflexivity | lia].
    + assert (Hn : forall f, nth_error (map f (range d0)) k = @None tensor).
      { intros f. apply nth_error_None.
        rewrite length_map, range_length. lia. }
      now rewrite !Hn.
Qed.

Lemma in_bounds_4_inv (a b c d : Z) (idx : list Z) :
  in_bounds [a; b; c; d] idx ->
  exists i j k l, idx = [i; j; k; l] /\
    0 <= i < a /\ 0 <= j < b /\ 0 <= k < c /\ 0 <= l < d.
Proof.
  intros H. unfold in_bounds in H.
  inversion H as [|i ? idx1 ? Hi H1]; subst.
  inversion H1 as [|j ? idx2 ? Hj H2]; subst.
  inversion H2 as [|k ? idx3 ? Hk H3]; subst.
  inversion H3 as [|l ? idx4 ? Hl H4]; subst.
  inversion H4; subst. exists i, j, k, l. repeat split; lia.
Qed.

(** Shot [s] of the transposed crops holds the crops [boxes[:, s]]. *)
Lemma shots_agree (b1 b2 : tensor) (shot_num B M c h w : Z) :
  valid_shape [B; M; c; h; w] ->
  shape b1 = [B; M; c; h; w] ->
  shape b2 = [B; M; c; h; w] ->
  shot_num <= M ->
  (forall n s k i j,
     0 <= n < B -> 0 <= s < shot_num -> 0 <= k < c -> 0 <= i < h ->
     0 <= j < w ->
     get b1 [n; s; k; i; j] = get b2 [n; s; k; i; j]) ->
  forall y1_ y2_ s,
    transpose 0 1 b1 = Some y1_ -> transpose 0 1 b2 = Some y2_ ->
    0 <= s < shot_num -> select0 s y1_ = select0 s y2_.
Proof.
  intros Hv H1 H2 HM Hag y1_ y2_ s E1 E2 Hs.
  rewrite (transpose_eq 0 1 b1 0 1) in E1 by now rewrite H1.
  rewrite (transpose_eq 0 1 b2 0 1) in E2 by now rewrite H2.
  destruct (permute_spec (swap_dims (zlen (shape b1)) 0 1) b1)
    as (t1 & E1' & Hs1 & _ & Hg1); [now rewrite H1|].
  destruct (permute_spec (swap_dims (zlen (shape b2)) 0 1) b2)
    as (t2 & E2' & Hs2 & _ & Hg2); [now rewrite H2|].
  rewrite E1' in E1. rewrite E2' in E2.
  injection E1 as <-. injection E2 as <-.
  rewrite H1 in Hs1, Hg1. rewrite H2 in Hs2, Hg2.
  unfold swap_dims in Hs1, Hs2, Hg1, Hg2. norm_in Hs1. norm_in Hs2.
  rewrite Hs1 in Hg1. rewrite Hs2 in Hg2.
  unfold select0. rewrite Hs1, Hs2. cbn [tl].
  inversion Hv as [|? ? HB Hv1]; subst.
  inversion Hv1 as [|? ? HM0 Hv2]; subst.
  apply tabulate_ext; [constructor; assumption|].
  intros idx Hidx. apply in_bounds_4_inv in Hidx.
  destruct Hidx as (n & k & i & j & -> & Hn & Hk & Hi & Hj).
  rewrite Hg1, Hg2 by bounds. norm. now apply Hag.
Qed.

(** ** Decoder widths other than 512 *)

Lemma bind_None {A B : Type} (c : option A) (k : A -> option B) :
  (forall a, c = Some a -> k a = None) -> bind c k = None.
Proof. intros H. destruct c as [a|]; [now apply H | reflexivity]. Qed.

Lemma range_pos_head (n : Z) :
  0 < n -> exists l, range n = 0 :: l.
Proof.
  intros H. unfold range.
  replace (Z.to_nat n) with (S (Z.to_nat (n - 1))) by lia.
  simpl. eexists. reflexivity.
Qed.

(** Without shots the exemplar tokens, when they are built, are one
    512-wide token per batch item. *)
Lemma exemplar_tokens_fallback_shape (self : SupervisedMAE) (y_ : tensor)
    (shot_num : Z) (y1 : list tensor) (N C : Z) (y : tensor) :
  shot_num <= 0 ->
  shape (p_data (shot_token self)) = [512] ->
  exemplar_tokens self y_ shot_num y1 N C = Some y ->
  exists n, shape y = [n; 1; 512].
Proof.
  intros Hs Hst H. unfold exemplar_tokens in H.
  replace (shot_num >? 0) with false in H
    by (symmetry; rewrite Z.gtb_ltb; apply Z.ltb_ge; lia).
  destruct (shape_at y_ 1) as [n|]; [|discriminate]. cbn [bind] in H.
  unfold repeat_rows in H. rewrite Hst in H.
  destruct (guard (0 <=? n)); [|discriminate]. cbn [bind] in H.
  rewrite (unsqueeze_spec 0 _ 0) in H by reflexivity. cbn [bind] in H.
  match type of H with transpose 0 1 ?u = _ => set (t0 := u) in H end.
  assert (Ht0 : shape t0 = [1; n; 512]) by reflexivity. clearbody t0.
  rewrite (transpose_eq 0 1 t0 0 1) in H by now rewrite Ht0.
  destruct (permute_spec (swap_dims (zlen (shape t0)) 0 1) t0)
    as (t & E & Ht & _); [now rewrite Ht0|].
  rewrite E in H. injection H as <-. exists n.
  rewrite Ht, Ht0. reflexivity.
Qed.

Lemma decoder_fusion_width (rt : Runtime) (w : Weights) (cfg : Config)
    (pe dpe st x y : tensor) (n : Z) :
  let m := with_parameters (SupervisedMAE_modules rt w cfg) pe dpe st in
  1 <= c_decoder_depth cfg ->
  c_decoder_embed_dim cfg <> 512 ->
  shape y = [n; 1; 512] ->
  decoder_fusion m (range (decoder_depth m)) x y = None.
Proof.
  intros m Hd HD Hy. unfold m. fields.
  destruct (range_pos_head (c_decoder_depth cfg)) as (l & E); [lia|].
  rewrite E. cbn [decoder_fusion]. fields. rewrite E.
  cbn [map nth_error Z.to_nat bind].
  rewrite (CrossAttentionBlock_forward_width_y _ x y n 1 512 Hy);
    [reflexivity|]. cbn [cab_dim]. congruence.
Qed.

Lemma exemplar_encoder_width (self : SupervisedMAE) (shot_num D : Z) :
  (forall t t', Sequential_forward (decoder_proj_final self) t = Some t' ->
                exists n h w, shape t' = [n; D; h; w]) ->
  forall ys cnt y1 N C y1' N' C',
    exemplar_encoder self shot_num ys cnt y1 N C = Some (y1', N', C') ->
    Forall (fun u => exists n h w, shape u = [1; n; D; h; w]) y1 ->
    Forall (fun u => exists n h w, shape u = [1; n; D; h; w]) y1'.
Proof.
  intros Hfin ys. induction ys as [|yi ys IH];
    intros cnt y1 N C y1' N' C' H Hall.
  - cbn in H. now injection H as <- _ _.
  - cbn [exemplar_encoder] in H.
    destruct (cnt + 1 >? shot_num); [now injection H as <- _ _|].
    destruct (Sequential_forward (decoder_proj1 self) yi) as [t1|];
      [|discriminate]. cbn [bind] in H.
    destruct (Sequential_forward (decoder_proj2 self) t1) as [t2|];
      [|discriminate]. cbn [bind] in H.
    destruct (Sequential_forward (decoder_proj3 self) t2) as [t3|];
      [|discriminate]. cbn [bind] in H.
    destruct (Sequential_forward (decoder_proj_final self) t3) as [t4|] eqn:E4;
      [|discriminate]. cbn [bind] in H.
    destruct (Hfin _ _ E4) as (n & h & w & Hs4). rewrite Hs4 in H.
    rewrite (unsqueeze_spec 0 t4 0) in H by now rewrite Hs4.
    cbn [bind] in H. apply IH in H; [assumption|].
    apply Forall_app. split; [assumption|]. constructor; [|constructor].
    exists n, h, w. cbn [shape]. now rewrite Hs4.
Qed.

Lemma decoder_proj_final_width (rt : Runtime) (w : Weights) (cfg : Config)
    (pe dpe st t t' : tensor) :
  Sequential_forward
    (decoder_proj_final
       (with_parameters (SupervisedMAE_modules rt w cfg) pe dpe st)) t
  = Some t' ->
  exists n h wd, shape t' = [n; c_decoder_embed_dim cfg; h; wd].
Proof.
  intros H. apply Sequential_forward_inv in H. revert H. fields.
  cbn [Sequential_out_shape Conv2d InstanceNorm2d ReLU out_shape].
  destruct (shape t) as [|n [|c [|h [|wd [|]]]]]; try discriminate.
  destruct (guard _); [|discriminate]. cbn [bind].
  intros H. injection H as <-. eauto.
Qed.

Lemma cat0_inv (ts : list tensor) (c : tensor) :
  cat0 ts = Some c ->
  exists t0 ts' d rest k,
    ts = t0 :: ts' /\ shape t0 = d :: rest /\ shape c = k :: rest.
Proof.
  intros H. destruct ts as [|t0 ts']; [discriminate|]. unfold cat0 in H.
  destruct (shape t0) as [|d rest] eqn:E; [discriminate|].
  destruct (guard _); [|discriminate]. cbn [bind] in H. injection H as <-.
  exists t0, ts', d, rest. eexists. repeat split. assumption.
Qed.

(** With shots, the exemplar aggregator rejects features that are not 512
    wide. *)
Lemma exemplar_aggregator_width (rt : Runtime) (w : Weights) (cfg : Config)
    (pe dpe st : tensor) (N shot_num : Z) (y1 : list tensor) :
  let m := with_parameters (SupervisedMAE_modules rt w cfg) pe dpe st in
  c_decoder_embed_dim cfg <> 512 ->
  Forall (fun u => exists n h wd,
            shape u = [1; n; c_decoder_embed_dim cfg; h; wd]) y1 ->
  exemplar_aggregator m N shot_num y1 = None.
Proof.
  intros m HD Hall. unfold exemplar_aggregator.
  apply bind_None. intros c Hc.
  destruct (cat0_inv _ _ Hc) as (t0 & ts' & d & rest & k & -> & Ht0 & Hsc).
  destruct (Forall_inv Hall) as (n & h & wd & Hs0).
  rewrite Hs0 in Ht0. injection Ht0 as <- <-.
  destruct (permute_spec [1; 0; 3; 4; 2] c) as (c1 & -> & Hs1 & _);
    [now rewrite Hsc|].
  rewrite Hsc in Hs1. norm_in Hs1. cbn [bind].
  rewrite (flatten_spec 1 3 c1 1 3) by (rewrite ?Hs1; (reflexivity || lia)).
  rewrite Hs1. cbn [bind].
  set (t := {| shape := _; data := data c1 |}).
  assert (Ht : exists q, shape t = [n; q; c_decoder_embed_dim cfg]).
  { unfold t. cbn [shape]. norm. eauto. }
  destruct Ht as (q & Ht). clearbody t.
  unfold m. fields.
  destruct (range (c_cross_blocks cfg)) as [|i l].
  - cbn [map exemplar_attention bind].
    unfold Layer_forward. rewrite Ht. cbn [LayerNorm out_shape].
    unfold last_dim. simpl rev. cbn [bind].
    apply Z.eqb_neq in HD. now rewrite HD.
  - cbn [map exemplar_attention].
    rewrite (CrossAttentionBlock_forward_width_x _ t t n q _ Ht);
      [reflexivity | exact HD].
Qed.

Lemma forward_decoder_width (rt : Runtime) (w : Weights) (cfg : Config)
    (pe dpe st x boxes : tensor) (shot_num : Z) :
  let m := with_parameters (SupervisedMAE_modules rt w cfg) pe dpe st in
  shape st = [512] ->
  c_decoder_embed_dim cfg <> 512 ->
  1 <= shot_num \/ 1 <= c_decoder_depth cfg ->
  forward_decoder rt m x boxes shot_num = None.
Proof.
  intros m Hst HD Hcase. subst m. unfold forward_decoder.
  apply bind_None. intros x1 _. apply bind_None. intros x2 _.
  apply bind_None. intros y_ _. apply bind_None. intros N _.
  apply bind_None. intros ys _. apply bind_None.
  intros [[y1 N'] C'] Henc.
  destruct (Z.le_gt_cases shot_num 0) as [Hs|Hs].
  - destruct Hcase as [Hc|Hc]; [lia|].
    apply bind_None. intros y Hy.
    destruct (exemplar_tokens_fallback_shape
                (with_parameters (SupervisedMAE_modules rt w cfg) pe dpe st)
                y_ shot_num y1 N' C' y Hs Hst Hy)
      as (n & Hn).
    rewrite (decoder_fusion_width rt w cfg pe dpe st x2 y n Hc HD Hn).
    reflexivity.
  - unfold exemplar_tokens.
    replace (shot_num >? 0) with true
      by (symmetry; rewrite Z.gtb_ltb; apply Z.ltb_lt; lia).
    rewrite (exemplar_aggregator_width rt w cfg pe dpe st N' shot_num y1 HD);
      [reflexivity|].
    eapply exemplar_encoder_width; [|exact Henc|constructor].
    intros t t'. apply decoder_proj_final_width.
Qed.

(** ** The loop over the shots in closed form *)

Lemma traverse_Forall2 {A B : Type} (f : A -> option B) (l : list A)
    (bs : list B) :
  traverse f l = Some bs <-> Forall2 (fun a b => f a = Some b) l bs.
Proof.
  revert bs. induction l as [|a l IH]; intros bs; cbn [traverse].
  - split; [intros H; injection H as <-; constructor|].
    intros H. now inversion H.
  - split.
    + destruct (f a) as [b|] eqn:E; [|discriminate]. cbn [bind].
      destruct (traverse f l) as [bs'|]; [|discriminate]. cbn [bind].
      intros H. injection H as <-. constructor; [exact E|]. now apply IH.
    + intros H. inversion H as [|? b ? bs' Hb Hl]; subst.
      rewrite Hb. cbn [bind]. apply IH in Hl. now rewrite Hl.
Qed.

Lemma loop_dims_app (us : list tensor) (u : tensor) (N C : Z) :
  loop_dims (us ++ [u]) N C = (znth (shape u) 1, znth (shape u) 2).
Proof. unfold loop_dims. now rewrite fold_left_app. Qed.

Lemma loop_dims_cons (u : tensor) (us : list tensor) (N C : Z) :
  loop_dims (u :: us) N C =
  loop_dims us (znth (shape u) 1) (znth (shape u) 2).
Proof. reflexivity. Qed.

(** The loop returns what encoding the next [shot_num - cnt] shots in
    order returns, and raises when one of them does. *)
Lemma exemplar_encoder_closed_form (self : SupervisedMAE) (shot_num : Z)
    (ys : list tensor) :
  forall cnt y1 N C,
    exemplar_encoder self shot_num ys cnt y1 N C =
    (r <- encode_first_shots self (shot_num - cnt) ys N C ;;
     let '(us, N', C') := r in Some (y1 ++ us, N', C')).
Proof.
  unfold encode_first_shots.
  induction ys as [|yi ys IH]; intros cnt y1 N C.
  - rewrite firstn_nil. cbn. now rewrite app_nil_r.
  - cbn [exemplar_encoder]. destruct (cnt + 1 >? shot_num) eqn:Ecnt.
    + rewrite Z.gtb_ltb in Ecnt. apply Z.ltb_lt in Ecnt.
      replace (Z.to_nat (shot_num - cnt)) with 0%nat by lia.
      cbn. now rewrite app_nil_r.
    + rewrite Z.gtb_ltb in Ecnt. apply Z.ltb_ge in Ecnt.
      replace (Z.to_nat (shot_num - cnt))
        with (S (Z.to_nat (shot_num - (cnt + 1)))) by lia.
      cbn [firstn traverse]. unfold encode_shot at 1.
      destruct (Sequential_forward (decoder_proj1 self) yi) as [t1|];
        [|reflexivity]. cbn [bind].
      destruct (Sequential_forward (decoder_proj2 self) t1) as [t2|];
        [|reflexivity]. cbn [bind].
      destruct (Sequential_forward (decoder_proj3 self) t2) as [t3|];
        [|reflexivity]. cbn [bind].
      destruct (Sequential_forward (decoder_proj_final self) t3) as [t4|];
        [|reflexivity]. cbn [bind].
      destruct (shape t4) as [|N' [|C' [|h [|w [|]]]]] eqn:Es;
        try reflexivity.
      rewrite (unsqueeze_spec 0 t4 0) by now rewrite Es.
      cbn [bind]. rewrite IH.
      destruct (traverse (encode_shot self)
                  (firstn (Z.to_nat (shot_num - (cnt + 1))) ys)) as [us|];
        [|reflexivity].
      cbn [bind]. rewrite loop_dims_cons. cbn [shape]. rewrite Es.
      replace (znth (insert_at 0 1 [N'; C'; h; w]) 1) with N' by reflexivity.
      replace (znth (insert_at 0 1 [N'; C'; h; w]) 2) with C' by reflexivity.
      destruct (loop_dims us N' C') as [N2 C2]. cbn [bind].
      now rewrite <- app_assoc.
Qed.

(** Shot [s] of the transposed crops holds the crops [boxes[:, s]]. *)
Lemma transposed_shots (b : tensor) (B M c h w : Z) :
  valid_shape [B; M; c; h; w] ->
  shape b = [B; M; c; h; w] ->
  exists y_,
    transpose 0 1 b = Some y_ /\
    unbind0 y_ = Some (map (fun s => select0 s y_) (range M)) /\
    forall s, 0 <= s < M ->
      shape (select0 s y_) = [B; c; h; w] /\
      wf (select0 s y_) /\
      forall n k i j,
        0 <= n < B -> 0 <= k < c -> 0 <= i < h -> 0 <= j < w ->
        get (select0 s y_) [n; k; i; j] = get b [n; s; k; i; j].
Proof.
  intros Hv Hb.
  rewrite (transpose_eq 0 1 b 0 1) by now rewrite Hb.
  destruct (permute_spec (swap_dims (zlen (shape b)) 0 1) b)
    as (y_ & -> & Hs & _ & Hg); [now rewrite Hb|].
  rewrite Hb in Hs, Hg. unfold swap_dims in Hs, Hg. norm_in Hs.
  rewrite Hs in Hg.
  exists y_. split; [reflexivity|]. unfold unbind0. rewrite Hs.
  split; [reflexivity|]. intros s Hs'.
  split; [now rewrite select0_shape, Hs|]. split; [apply wf_tabulate|].
  intros n k i j Hn Hk Hi Hj. unfold select0. rewrite Hs. cbn [tl].
  rewrite get_tabulate by bounds. rewrite Hg by bounds. reflexivity.
Qed.

Lemma firstn_seq_le (k n a : nat) :
  (k <= n)%nat -> firstn k (seq a n) = seq a k.
Proof.
  revert n a. induction k as [|k IH]; intros n a H; [reflexivity|].
  destruct n as [|n]; [lia|]. cbn [seq firstn]. f_equal. apply IH. lia.
Qed.

Lemma firstn_map_range {A : Type} (f : Z -> A) (S M : Z) :
  S <= M -> firstn (Z.to_nat S) (map f (range M)) = map f (range S).
Proof.
  intros H. unfold range. rewrite !firstn_map, firstn_seq_le by lia.
  reflexivity.
Qed.

(** On the shots of a crop tensor, the loop encodes the shots with index
    below [shot_num], in order. *)
Lemma exemplar_encoder_shots (self : SupervisedMAE) (shot_num M N : Z)
    (f : Z -> tensor) :
  shot_num <= M ->
  exemplar_encoder self shot_num (map f (range M)) 0 [] N 0 =
  (us <- traverse (encode_shot self) (map f (range shot_num)) ;;
   let (N', C') := loop_dims us N 0 in
   Some (us, N', C')).
Proof.
  intros H. rewrite exemplar_encoder_closed_form. unfold encode_first_shots.
  rewrite Z.sub_0_r, firstn_map_range by assumption.
  destruct (traverse _ _) as [us|]; [|reflexivity]. cbn [bind].
  destruct (loop_dims us N 0). reflexivity.
Qed.

(** ** The decoder in two parts: tokens, then regression *)

Lemma density_regression_grid (rt : Runtime) (self : SupervisedMAE)
    (x : tensor) :
  density_regression rt self x =
  (x <- token_grid x ;;
   x <- upsample rt (decode_head0 self) x ;;
   x <- upsample rt (decode_head1 self) x ;;
   x <- upsample rt (decode_head2 self) x ;;
   x <- upsample rt (decode_head3 self) x ;;
   squeeze (-3) x).
Proof.
  unfold density_regression, token_grid.
  destruct (shape x) as [|n [|hw [|c [|]]]]; try reflexivity.
  destruct (transpose 1 2 x) as [x1|]; [|reflexivity]. cbn [bind].
  destruct (reshape _ x1); reflexivity.
Qed.

Lemma forward_decoder_split (rt : Runtime) (self : SupervisedMAE)
    (x y_ : tensor) (shot_num : Z) :
  forward_decoder rt self x y_ shot_num =
  (t <- decoder_tokens self x y_ shot_num ;; density_regression rt self t).
Proof.
  unfold forward_decoder, decoder_tokens.
  destruct (Layer_forward (decoder_embed self) x) as [x1|]; [|reflexivity].
  cbn [bind].
  destruct (add x1 (p_data (decoder_pos_embed self))) as [x2|]; [|reflexivity].
  cbn [bind].
  destruct (transpose 0 1 y_) as [yt|]; [|reflexivity]. cbn [bind].
  destruct (shape_at yt 1) as [N|]; [|reflexivity]. cbn [bind].
  destruct (unbind0 yt) as [ys|]; [|reflexivity]. cbn [bind].
  destruct (exemplar_encoder self shot_num ys 0 [] N 0) as [[[y1 N'] C']|];
    [|reflexivity]. cbn [bind].
  destruct (exemplar_tokens self yt shot_num y1 N' C') as [y|]; [|reflexivity].
  cbn [bind].
  destruct (decoder_fusion self (range (decoder_depth self)) x2 y) as [x3|];
    [|reflexivity]. cbn [bind].
  destruct (Layer_forward (decoder_norm self) x3); reflexivity.
Qed.

(** A decoder block returns tokens of the shape of its queries. *)
Lemma decoder_fusion_shape (self : SupervisedMAE) (idxs : list Z)
    (x y x' : tensor) :
  decoder_fusion self idxs x y = Some x' -> shape x' = shape x.
Proof.
  revert x. induction idxs as [|i idxs IH]; intros x H.
  - cbn in H. now injection H as <-.
  - cbn [decoder_fusion] in H.
    destruct (nth_error (decoder_blocks self) (Z.to_nat i)) as [blk|];
      [|discriminate]. cbn [bind] in H.
    unfold CrossAttentionBlock_forward in H.
    destruct (shape x) as [|b [|nx [|c [|]]]] eqn:Ex; try discriminate.
    destruct (shape y) as [|b' [|ny [|c' [|]]]]; try discriminate.
    destruct (guard _); [|discriminate]. cbn [bind] in H.
    destruct (return_attn blk); [discriminate|].
    apply IH in H. rewrite H. reflexivity.
Qed.

(** The tokens that reach the regression head have the shape of the
    embedded image tokens. *)
Lemma decoder_tokens_shape (rt : Runtime) (w : Weights) (cfg : Config)
    (pe dpe st latent boxes t : tensor) (shot_num B n : Z) :
  let m := with_parameters (SupervisedMAE_modules rt w cfg) pe dpe st in
  shape dpe = [1; n; c_decoder_embed_dim cfg] ->
  shape latent = [B; n; c_embed_dim cfg] ->
  decoder_tokens m latent boxes shot_num = Some t ->
  shape t = [B; n; c_decoder_embed_dim cfg].
Proof.
  intros m Hdpe Hlat H. unfold decoder_tokens in H.
  destruct (Layer_forward_spec (decoder_embed m) latent
              [B; n; c_decoder_embed_dim cfg])
    as (x1 & E1 & Hs1 & _).
  { rewrite Hlat. unfold m. fields. cbn [Linear out_shape].
    unfold last_dim. simpl. now rewrite Z.eqb_refl. }
  rewrite E1 in H. cbn [bind] in H.
  destruct (add_spec x1 (p_data (decoder_pos_embed m))
              [B; n; c_decoder_embed_dim cfg])
    as (x2 & E2 & Hs2).
  { rewrite Hs1. unfold m. fields. rewrite Hdpe.
    apply broadcast_shapes_batch. }
  rewrite E2 in H. cbn [bind] in H.
  destruct (transpose 0 1 boxes) as [yt|]; [|discriminate]. cbn [bind] in H.
  destruct (shape_at yt 1) as [N|]; [|discriminate]. cbn [bind] in H.
  destruct (unbind0 yt) as [ys|]; [|discriminate]. cbn [bind] in H.
  destruct (exemplar_encoder m shot_num ys 0 [] N 0) as [[[y1 N'] C']|];
    [|discriminate]. cbn [bind] in H.
  destruct (exemplar_tokens m yt shot_num y1 N' C') as [y|]; [|discriminate].
  cbn [bind] in H.
  destruct (decoder_fusion m (range (decoder_depth m)) x2 y) as [x3|] eqn:E3;
    [|discriminate]. cbn [bind] in H.
  apply decoder_fusion_shape in E3. unfold Layer_forward in H.
  destruct (out_shape (decoder_norm m) (shape x3)) as [sh|] eqn:E4;
    [|discriminate]. cbn [bind] in H. injection H as <-.
  cbn [shape]. revert E4. unfold m. fields. cbn [LayerNorm out_shape].
  destruct (last_dim (shape x3)); [|discriminate]. cbn [bind].
  destruct (guard _); [|discriminate]. cbn [bind].
  intros E4. injection E4 as <-. now rewrite E3.
Qed.

(** ** The regression head stage by stage *)

(** An interpolation returns one value per position of its result. *)
Lemma upsample_wf (rt : Runtime) (head : list Layer) (x x' : tensor) :
  upsample rt head x = Some x' -> wf x'.
Proof.
  unfold upsample, F_interpolate. intros H.
  destruct (Sequential_forward head x) as [hx|]; [|discriminate].
  cbn [bind] in H.
  destruct (shape_at x (-1)) as [side|]; [|discriminate]. cbn [bind] in H.
  destruct (shape hx) as [|n [|c [|h [|wd [|]]]]]; try discriminate.
  destruct (guard _); [|discriminate]. cbn [bind] in H.
  injection H as <-. apply wf_tabulate.
Qed.

(** The values that an interpolation returns are those of the runtime's
    bilinear kernel on the output of the head. *)
Lemma upsample_values (rt : Runtime) (head : list Layer) (x x' : tensor) :
  upsample rt head x = Some x' ->
  exists hx side,
    Sequential_forward head x = Some hx /\
    shape_at x (-1) = Some side /\
    forall idx, in_bounds (shape x') idx ->
      get x' idx = interpolate_bilinear rt (side * 2) hx idx.
Proof.
  unfold upsample, F_interpolate. intros H.
  destruct (Sequential_forward head x) as [hx|]; [|discriminate].
  cbn [bind] in H.
  destruct (shape_at x (-1)) as [side|]; [|discriminate]. cbn [bind] in H.
  exists hx, side. split; [reflexivity|]. split; [reflexivity|].
  destruct (shape hx) as [|n [|c [|h [|wd [|]]]]]; try discriminate.
  destruct (guard _); [|discriminate]. cbn [bind] in H.
  injection H as <-. intros idx Hidx. now apply get_tabulate.
Qed.

Lemma token_grid_spec (x : tensor) (B g D : Z) :
  0 <= B -> 0 < g -> 0 <= D ->
  shape x = [B; g * g; D] ->
  exists x0,
    token_grid x = Some x0 /\ shape x0 = [B; D; g; g] /\
    forall n c i j, 0 <= n < B -> 0 <= c < D -> 0 <= i < g -> 0 <= j < g ->
      get x0 [n; c; i; j] = get x [n; i * g + j; c].
Proof.
  intros HB Hg HD Hx. unfold token_grid. rewrite Hx.
  rewrite Z.sqrt_square by lia.
  rewrite (transpose_eq 1 2 x 1 2) by now rewrite Hx.
  destruct (permute_spec (swap_dims (zlen (shape x)) 1 2) x)
    as (x1 & -> & Hs1 & _ & Hg1); [now rewrite Hx|].
  rewrite Hx in Hs1, Hg1. unfold swap_dims in Hs1, Hg1. norm_in Hs1.
  rewrite Hs1 in Hg1. cbn [bind].
  destruct (reshape_spec [B; D; g; g] x1) as (x2 & -> & Hs2 & _ & Hg2).
  { apply all_nonneg_true. bounds. }
  { rewrite Hs1. unfold numel. simpl. ring. }
  exists x2. split; [reflexivity|]. split; [exact Hs2|].
  intros n c i j Hn Hc Hi Hj.
  rewrite (Hg2 [n; c; i; j] [n; c; i * g + j]).
  - rewrite Hg1 by bounds. reflexivity.
  - rewrite Hs1. cbn [ravel]. unfold numel. cbn [fold_right]. ring.
Qed.

Lemma density_regression_stages (rt : Runtime) (w : Weights) (cfg : Config)
    (pe dpe st x : tensor) (B g : Z) :
  let m := with_parameters (SupervisedMAE_modules rt w cfg) pe dpe st in
  0 <= B -> 0 < g -> 0 <= c_decoder_embed_dim cfg ->
  shape x = [B; g * g; c_decoder_embed_dim cfg] ->
  exists x0 x1 x2 x3 x4 out,
    token_grid x = Some x0 /\
    shape x0 = [B; c_decoder_embed_dim cfg; g; g] /\
    upsample rt (decode_head0 m) x0 = Some x1 /\
    shape x1 = [B; 256; g * 2; g * 2] /\ wf x1 /\
    upsample rt (decode_head1 m) x1 = Some x2 /\
    shape x2 = [B; 256; g * 2 * 2; g * 2 * 2] /\ wf x2 /\
    upsample rt (decode_head2 m) x2 = Some x3 /\
    shape x3 = [B; 256; g * 2 * 2 * 2; g * 2 * 2 * 2] /\ wf x3 /\
    upsample rt (decode_head3 m) x3 = Some x4 /\
    shape x4 = [B; 1; g * 2 * 2 * 2 * 2; g * 2 * 2 * 2 * 2] /\ wf x4 /\
    squeeze (-3) x4 = Some out /\
    density_regression rt m x = Some out /\
    shape out = [B; g * 2 * 2 * 2 * 2; g * 2 * 2 * 2 * 2] /\ wf out /\
    forall n i j,
      0 <= n < B -> 0 <= i < g * 2 * 2 * 2 * 2 ->
      0 <= j < g * 2 * 2 * 2 * 2 ->
      get out [n; i; j] = get x4 [n; 0; i; j].
Proof.
  intros m HB Hg HD Hx. rewrite density_regression_grid.
  destruct (token_grid_spec x B g _ HB Hg HD Hx) as (x0 & E0 & Hs0 & _).
  rewrite E0. cbn [bind].
  destruct (upsample_spec rt (decode_head0 m) x0 B
              (c_decoder_embed_dim cfg) 256 g Hg)
    as (x1 & E1 & Hs1);
    [unfold m; fields; now apply head_shape | exact Hs0 |].
  destruct (upsample_spec rt (decode_head1 m) x1 B 256 256 (g * 2)
              ltac:(lia)) as (x2 & E2 & Hs2);
    [unfold m; fields; apply head_shape; lia | exact Hs1 |].
  destruct (upsample_spec rt (decode_head2 m) x2 B 256 256 (g * 2 * 2)
              ltac:(lia)) as (x3 & E3 & Hs3);
    [unfold m; fields; apply head_shape; lia | exact Hs2 |].
  destruct (upsample_spec rt (decode_head3 m) x3 B 256 1 (g * 2 * 2 * 2)
              ltac:(lia)) as (x4 & E4 & Hs4).
  { unfold m. fields. rewrite Sequential_out_shape_app, head_shape by lia.
    cbn [bind Sequential_out_shape Conv2d out_shape].
    replace (1 <=? g * 2 * 2 * 2 + 2 * 0) with true
      by (symmetry; apply Z.leb_le; lia).
    cbn [Z.eqb Pos.eqb andb guard bind]. now rewrite conv_out_1. }
  { assumption. }
  pose proof (upsample_wf _ _ _ _ E1) as W1.
  pose proof (upsample_wf _ _ _ _ E2) as W2.
  pose proof (upsample_wf _ _ _ _ E3) as W3.
  pose proof (upsample_wf _ _ _ _ E4) as W4.
  assert (E5 : squeeze (-3) x4 =
               Some (mkT [B; g * 2 * 2 * 2 * 2; g * 2 * 2 * 2 * 2] (data x4))).
  { rewrite (squeeze_spec (-3) x4 1) by now rewrite Hs4.
    now rewrite Hs4. }
  exists x0, x1, x2, x3, x4, (mkT [B; g * 2 * 2 * 2 * 2; g * 2 * 2 * 2 * 2]
                                (data x4)).
  rewrite E1. cbn [bind]. rewrite E2. cbn [bind]. rewrite E3. cbn [bind].
  rewrite E4. cbn [bind].
  repeat (split; [first [assumption | reflexivity]|]).
  split.
  - unfold wf in *. cbn [shape data]. rewrite W4, Hs4. f_equal.
    unfold numel. cbn [fold_right]. ring.
  - intros n i j Hn Hi Hj. apply get_reshaped. rewrite Hs4.
    cbn [ravel]. unfold numel. cbn [fold_right]. ring.
Qed.

(** From the images to the density map, for a module built from a
    configuration of decoder width 512. *)
Lemma forward_density_map (rt : Runtime) (w : Weights) (cfg : Config)
    (pe dpe st imgs boxes : tensor) (shot_num B M g : Z) :
  let m := with_parameters (SupervisedMAE_modules rt w cfg) pe dpe st in
  g = c_img_size cfg / c_patch_size cfg ->
  0 <= B -> 0 < g -> 0 <= M -> shot_num <= M ->
  c_depth cfg <= 0 \/
  (0 < c_num_heads cfg /\ c_embed_dim cfg mod c_num_heads cfg = 0) ->
  c_decoder_embed_dim cfg = 512 ->
  0 < c_cross_blocks cfg -> 0 <= c_decoder_num_heads cfg ->
  shape pe = [1; g * g; c_embed_dim cfg] ->
  shape dpe = [1; g * g; c_decoder_embed_dim cfg] ->
  shape st = [512] ->
  shape imgs = [B; c_in_chans cfg; c_img_size cfg; c_img_size cfg] ->
  shape boxes = [B; M; 3; 64; 64] ->
  exists latent tokens x0 x1 x2 x3 x4 pred,
    forward_encoder m imgs = Some latent /\
    shape latent = [B; g * g; c_embed_dim cfg] /\
    decoder_tokens m latent boxes shot_num = Some tokens /\
    shape tokens = [B; g * g; 512] /\
    token_grid tokens = Some x0 /\
    shape x0 = [B; 512; g; g] /\
    upsample rt (decode_head0 m) x0 = Some x1 /\
    shape x1 = [B; 256; g * 2; g * 2] /\ wf x1 /\
    upsample rt (decode_head1 m) x1 = Some x2 /\
    shape x2 = [B; 256; g * 2 * 2; g * 2 * 2] /\ wf x2 /\
    upsample rt (decode_head2 m) x2 = Some x3 /\
    shape x3 = [B; 256; g * 2 * 2 * 2; g * 2 * 2 * 2] /\ wf x3 /\
    upsample rt (decode_head3 m) x3 = Some x4 /\
    shape x4 = [B; 1; g * 2 * 2 * 2 * 2; g * 2 * 2 * 2 * 2] /\ wf x4 /\
    squeeze (-3) x4 = Some pred /\
    shape pred = [B; g * 2 * 2 * 2 * 2; g * 2 * 2 * 2 * 2] /\ wf pred /\
    (forall n i j,
       0 <= n < B -> 0 <= i < g * 2 * 2 * 2 * 2 ->
       0 <= j < g * 2 * 2 * 2 * 2 ->
       get pred [n; i; j] = get x4 [n; 0; i; j]) /\
    forall grad,
      fst (forward rt imgs boxes shot_num (mkState m grad)) = Some pred.
Proof.
  intros m -> HB Hg HM Hshot Hheads HD Hcb Hh Hpe Hdpe Hst Himgs Hboxes.
  subst m.
  destruct (forward_encoder_spec rt w cfg pe dpe st imgs B Hheads Hpe Himgs)
    as (latent & El & Hl).
  assert (Hcase :
    (shot_num <= 0 /\
     (c_decoder_embed_dim cfg = 512 \/ c_decoder_depth cfg <= 0)) \/
    (1 <= shot_num <= M /\ c_decoder_embed_dim cfg = 512 /\
     0 < c_cross_blocks cfg /\ 0 <= c_decoder_num_heads cfg)) by lia.
  destruct (forward_decoder_spec rt w cfg pe dpe st latent boxes shot_num
              B M _ HB Hg HM ltac:(lia) Hdpe Hst Hl Hboxes Hcase)
    as (out & Eout & _).
  rewrite forward_decoder_split in Eout.
  destruct (decoder_tokens _ latent boxes shot_num) as [tokens|] eqn:Et;
    [|discriminate]. cbn [bind] in Eout.
  pose proof (decoder_tokens_shape rt w cfg pe dpe st latent boxes tokens
                shot_num B _ Hdpe Hl Et) as Hts.
  destruct (density_regression_stages rt w cfg pe dpe st tokens B _
              HB Hg ltac:(lia) Hts)
    as (x0 & x1 & x2 & x3 & x4 & pred & E0 & Hs0 & E1 & Hs1 & W1 & E2 & Hs2
        & W2 & E3 & Hs3 & W3 & E4 & Hs4 & W4 & E5 & Ereg & Hsp & Wp & Hgp).
  rewrite HD in Hts, Hs0.
  exists latent, tokens, x0, x1, x2, x3, x4, pred.
  repeat (split; [assumption|]).
  intros grad. rewrite forward_eq. cbn [fst module]. rewrite El. cbn [bind].
  rewrite forward_decoder_split, Et. cbn [bind]. exact Ereg.
Qed.

(** ** The exponential at the ends of the binary32 range *)

Lemma exp_ge_pow2 (n : nat) : (2 ^ n <= exp (INR n))%R.
Proof.
  induction n as [|n IH].
  - simpl. rewrite exp_0. lra.
  - rewrite S_INR, exp_plus. cbn [pow].
    pose proof (exp_ineq1 1 ltac:(lra)) as H1.
    pose proof (pow_lt 2 n ltac:(lra)) as Hp.
    pose proof (exp_pos (INR n)) as He.
    rewrite (Rmult_comm 2). apply Rmult_le_compat; lra.
Qed.

(** From 128 on, [e ^ x] is at least [2 ^ 128], above every finite binary32
    number. *)
Lemma exp_overflows_binary32 (x : R) :
  (128 <= x)%R -> (2 ^ 128 <= exp x)%R.
Proof.
  intros H. apply Rle_trans with (exp (INR 128)); [apply exp_ge_pow2|].
  replace (INR 128) with 128%R by (rewrite INR_IZR_INZ; reflexivity).
  destruct H as [H | <-]; [left; now apply exp_increasing | right; reflexivity].
Qed.

(** Up to -150, [e ^ x] is at most [2 ^ -150], half the least positive
    binary32 number. *)
Lemma exp_underflows_binary32 (x : R) :
  (x <= -150)%R -> (exp x <= / 2 ^ 150)%R.
Proof.
  intros H. rewrite <- (Ropp_involutive x), exp_Ropp.
  apply Rinv_le_contravar; [apply pow_lt; lra|].
  apply Rle_trans with (exp (INR 150)); [apply exp_ge_pow2|].
  replace (INR 150) with 150%R by (rewrite INR_IZR_INZ; reflexivity).
  assert (H' : (150 <= - x)%R) by lra.
  destruct H' as [H' | <-];
    [left; now apply exp_increasing | right; reflexivity].
Qed.

(** The float32 sigmoid is exactly 0 at every pre-activation up to -150,
    minus infinity included, for every exponential of the platform, and
    exactly 1 at 150. *)
Lemma exp32_overflow (libm : f32 -> f32) (x : f32) :
  SFleb x (f32_of_Z (-150)) = true ->
  exp32 libm (SFopp x) = S754_infinity false.
Proof.
  change (f32_of_Z (-150)) with (S754_finite true 9830400 (-16)).
  unfold exp32. change (f32_of_Z 128) with (S754_finite false 8388608 (-16)).
  destruct x as [s|s| |s m e].
  - destruct s; intros H; vm_compute in H; discriminate.
  - destruct s; intros H; [reflexivity | vm_compute in H; discriminate].
  - intros H. vm_compute in H. discriminate.
  - destruct s; [|intros H; cbn in H; discriminate].
    unfold SFleb, SFcompare, SFopp, negb.
    rewrite (Z.compare_antisym e (-16)).
    destruct (e ?= -16) eqn:Ec; cbn [CompOpp]; try discriminate;
      [|reflexivity].
    change (Pos.compare_cont Eq m 9830400) with (m ?= 9830400)%positive.
    change (Pos.compare_cont Eq 8388608 m) with (8388608 ?= m)%positive.
    destruct (m ?= 9830400)%positive eqn:Em; cbn [CompOpp]; try discriminate;
      intros _.
    + apply Pos.compare_eq in Em. subst m. reflexivity.
    + apply Pos.compare_gt_iff in Em.
      assert (Hm : (8388608 < m)%positive) by lia.
      apply Pos.compare_lt_iff in Hm. now rewrite Hm.
Qed.

Lemma sigmoid32_zero (libm : f32 -> f32) (x : f32) :
  SFleb x (f32_of_Z (-150)) = true ->
  sigmoid32 libm x = S754_zero false.
Proof.
  intros H. unfold sigmoid32. now rewrite (exp32_overflow libm x H).
Qed.

Lemma sigmoid32_one (libm : f32 -> f32) :
  sigmoid32 libm (f32_of_Z 150) = f32_of_Z 1.
Proof. vm_compute. reflexivity. Qed.

(** The reciprocal of the sum of 64 weights that are all 0. *)
Lemma reciprocal_of_zero_weights :
  f32_div (f32_of_Z 1) (f32_sum (repeat (S754_zero false) 64))
  = S754_infinity false.
Proof. vm_compute. reflexivity. Qed.
(** * Properties of the specification *)

(** C1. For the recommended configuration, every batch of 384x384 images
    with a batch of exemplar crops and a shot count within it yields a
    density map of shape (B, 384, 384) that holds one value for each of its
    B * 384 * 384 positions.  The encoder produces a 24x24 grid of 576
    tokens and the decoder hands 576 tokens of width 512 to the regression
    head; each of the four stages of the head is followed by a bilinear
    interpolation to twice the side, 24 -> 48 -> 96 -> 192 -> 384, and the
    squeeze drops the channel dimension of size 1 and keeps the values. *)
Theorem C1_density_map_shape (rt : Runtime) (w : Weights)
    (imgs boxes : tensor) (shot_num B M : Z) :
  0 <= B -> 0 <= M -> shot_num <= M ->
  shape imgs = [B; 3; 384; 384] ->
  shape boxes = [B; M; 3; 64; 64] ->
  exists m,
    mae_vit_base_patch16_dec512d8b rt w = Some m /\
    exists latent tokens x0 x1 x2 x3 x4 pred,
      forward_encoder m imgs = Some latent /\
      shape latent = [B; 24 * 24; 768] /\
      decoder_tokens m latent boxes shot_num = Some tokens /\
      shape tokens = [B; 24 * 24; 512] /\
      token_grid tokens = Some x0 /\
      shape x0 = [B; 512; 24; 24] /\
      upsample rt (decode_head0 m) x0 = Some x1 /\
      shape x1 = [B; 256; 48; 48] /\ wf x1 /\
      upsample rt (decode_head1 m) x1 = Some x2 /\
      shape x2 = [B; 256; 96; 96] /\ wf x2 /\
      upsample rt (decode_head2 m) x2 = Some x3 /\
      shape x3 = [B; 256; 192; 192] /\ wf x3 /\
      upsample rt (decode_head3 m) x3 = Some x4 /\
      shape x4 = [B; 1; 384; 384] /\ wf x4 /\
      squeeze (-3) x4 = Some pred /\
      shape pred = [B; 384; 384] /\ wf pred /\
      (forall n i j, 0 <= n < B -> 0 <= i < 384 -> 0 <= j < 384 ->
         get pred [n; i; j] = get x4 [n; 0; i; j]) /\
      forall grad,
        fst (forward rt imgs boxes shot_num (mkState m grad)) = Some pred.
Proof.
  intros HB HM Hshot Himgs Hboxes.
  unfold mae_vit_base_patch16_dec512d8b.
  destruct (SupervisedMAE_init_spec rt w mae_vit_base_patch16_dec512d8b_config)
    as (pe & dpe & st & -> & Hpe & Hdpe & Hst & _).
  eexists. split; [reflexivity|].
  exact (forward_density_map rt w mae_vit_base_patch16_dec512d8b_config
           pe dpe st imgs boxes shot_num B M 24 eq_refl HB eq_refl HM Hshot
           (or_intror (conj eq_refl eq_refl)) eq_refl eq_refl
           ltac:(discriminate) Hpe Hdpe Hst Himgs Hboxes).
Qed.

Lemma C1_density_map_shape_witness :
  exists m,
    mae_vit_base_patch16_dec512d8b zero_runtime zero_weights = Some m /\
    exists latent tokens x0 x1 x2 x3 x4 pred,
      forward_encoder m (zeros [1; 3; 384; 384]) = Some latent /\
      shape latent = [1; 24 * 24; 768] /\
      decoder_tokens m latent (zeros [1; 3; 3; 64; 64]) 3 = Some tokens /\
      shape tokens = [1; 24 * 24; 512] /\
      token_grid tokens = Some x0 /\
      shape x0 = [1; 512; 24; 24] /\
      upsample zero_runtime (decode_head0 m) x0 = Some x1 /\
      shape x1 = [1; 256; 48; 48] /\ wf x1 /\
      upsample zero_runtime (decode_head1 m) x1 = Some x2 /\
      shape x2 = [1; 256; 96; 96] /\ wf x2 /\
      upsample zero_runtime (decode_head2 m) x2 = Some x3 /\
      shape x3 = [1; 256; 192; 192] /\ wf x3 /\
      upsample zero_runtime (decode_head3 m) x3 = Some x4 /\
      shape x4 = [1; 1; 384; 384] /\ wf x4 /\
      squeeze (-3) x4 = Some pred /\
      shape pred = [1; 384; 384] /\ wf pred /\
      (forall n i j, 0 <= n < 1 -> 0 <= i < 384 -> 0 <= j < 384 ->
         get pred [n; i; j] = get x4 [n; 0; i; j]) /\
      forall grad,
        fst (forward zero_runtime (zeros [1; 3; 384; 384])
               (zeros [1; 3; 3; 64; 64]) 3 (mkState m grad)) = Some pred.
Proof.
  apply (C1_density_map_shape zero_runtime zero_weights
           (zeros [1; 3; 384; 384]) (zeros [1; 3; 3; 64; 64]) 3 1 3);
    [lia | lia | lia | reflexivity | reflexivity].
Defined.

(** C2. With shot count 0 the result of [forward] does not depend on the
    contents of the exemplar crops: two crop tensors of one shape give the
    same result.  The loop over the shots stops before its first exemplar,
    and the decoder receives one token per batch item (shot dimension of
    size 1) that repeats the shot token. *)
Theorem C2_no_shot_ignores_crops (rt : Runtime) (imgs b1 b2 : tensor)
    (st : State) :
  shape b1 = shape b2 ->
  forward rt imgs b1 0 st = forward rt imgs b2 0 st /\
  (forall ys N C,
     exemplar_encoder (module st) 0 ys 0 [] N C = Some ([], N, C)) /\
  (forall y_ M B rest c y1 N C,
     shape y_ = M :: B :: rest -> 0 <= B ->
     shape (p_data (shot_token (module st))) = [c] ->
     exists y,
       exemplar_tokens (module st) y_ 0 y1 N C = Some y /\
       shape y = [B; 1; c] /\
       forall n k, 0 <= n < B -> 0 <= k < c ->
         get y [n; 0; k] = get (p_data (shot_token (module st))) [k]).
Proof.
  intros Hsh. split; [|split].
  - rewrite !forward_eq. f_equal.
    destruct (forward_encoder (module st) imgs) as [latent|]; [|reflexivity].
    cbn [bind]. apply forward_decoder_agree; [assumption|]. intros. lia.
  - intros. apply exemplar_encoder_bypass. lia.
  - intros y_ M B rest c y1 N C Hy HB Hst.
    unfold exemplar_tokens, shape_at. cbn [Z.gtb Z.compare]. rewrite Hy.
    replace (norm_dim (zlen (M :: B :: rest)) 1) with (Some 1).
    2:{ unfold norm_dim, zlen. cbn [List.length].
        replace (1 <? Z.of_nat (S (S (List.length rest)))) with true
          by (symmetry; apply Z.ltb_lt; lia). reflexivity. }
    cbn [bind]. replace (znth (M :: B :: rest) 1) with B by reflexivity.
    unfold repeat_rows. rewrite Hst.
    replace (0 <=? B) with true by (symmetry; apply Z.leb_le; lia).
    cbn [guard bind].
    rewrite (unsqueeze_spec 0 _ 0) by reflexivity. cbn [bind].
    match goal with |- context [transpose 0 1 ?u] => set (t0 := u) end.
    assert (Ht0 : shape t0 = [1; B; c]) by reflexivity.
    assert (Hg0 : forall n k, 0 <= n < B -> 0 <= k < c ->
                    get t0 [0; n; k]
                    = get (p_data (shot_token (module st))) [k]).
    { intros n k Hn Hk. unfold t0.
      rewrite (get_reshaped _ (tabulate [B; c] _) _ [n; k])
        by (unfold ravel, numel; simpl; ring).
      rewrite get_tabulate by bounds. reflexivity. }
    clearbody t0.
    rewrite (transpose_eq 0 1 t0 0 1) by now rewrite Ht0.
    destruct (permute_spec (swap_dims (zlen (shape t0)) 0 1) t0)
      as (y & -> & Hsy & _ & Hgy); [now rewrite Ht0|].
    rewrite Ht0 in Hsy, Hgy. unfold swap_dims in Hsy, Hgy. norm_in Hsy.
    rewrite Hsy in Hgy.
    exists y. split; [reflexivity|]. split; [assumption|].
    intros n k Hn Hk. rewrite Hgy by bounds. norm. now apply Hg0.
Qed.

Lemma C2_no_shot_ignores_crops_witness :
  forward zero_runtime (zeros [1; 3; 16; 16]) (zeros [1; 2; 3; 64; 64]) 0
    (mkState small_module true) =
  forward zero_runtime (zeros [1; 3; 16; 16])
    (tabulate [1; 2; 3; 64; 64] (fun _ => 1%R)) 0
    (mkState small_module true).
Proof.
  apply (C2_no_shot_ignores_crops zero_runtime (zeros [1; 3; 16; 16])
           (zeros [1; 2; 3; 64; 64])
           (tabulate [1; 2; 3; 64; 64] (fun _ => 1%R))
           (mkState small_module true)).
  reflexivity.
Defined.

(** C3. For a shot count between 1 and the number of shots of the crop
    tensor, two crop tensors that agree on every crop with a shot index
    below the shot count give the same result of [forward].  The loop runs
    over the shots of the transposed crop tensor, shot [s] of which holds
    the crops [boxes[:, s]], and it returns what encoding the shots
    0, ..., shot_num - 1 in this order returns (it raises when one of them
    does): the shots from [shot_num] on are neither encoded nor read. *)
Theorem C3_unused_shots_ignored (rt : Runtime) (imgs b1 b2 : tensor)
    (shot_num B M c h w : Z) (st : State) :
  valid_shape [B; M; c; h; w] ->
  shape b1 = [B; M; c; h; w] ->
  shape b2 = [B; M; c; h; w] ->
  1 <= shot_num <= M ->
  (forall n s k i j,
     0 <= n < B -> 0 <= s < shot_num -> 0 <= k < c -> 0 <= i < h ->
     0 <= j < w ->
     get b1 [n; s; k; i; j] = get b2 [n; s; k; i; j]) ->
  forward rt imgs b1 shot_num st = forward rt imgs b2 shot_num st /\
  exists y_,
    transpose 0 1 b1 = Some y_ /\
    unbind0 y_ = Some (map (fun s => select0 s y_) (range M)) /\
    (forall s, 0 <= s < M ->
       shape (select0 s y_) = [B; c; h; w] /\
       wf (select0 s y_) /\
       forall n k i j,
         0 <= n < B -> 0 <= k < c -> 0 <= i < h -> 0 <= j < w ->
         get (select0 s y_) [n; k; i; j] = get b1 [n; s; k; i; j]) /\
    forall N,
      exemplar_encoder (module st) shot_num
        (map (fun s => select0 s y_) (range M)) 0 [] N 0 =
      (us <- traverse (encode_shot (module st))
               (map (fun s => select0 s y_) (range shot_num)) ;;
       let (N', C') := loop_dims us N 0 in
       Some (us, N', C')).
Proof.
  intros Hv H1 H2 Hs Hag. split.
  - rewrite !forward_eq. f_equal.
    destruct (forward_encoder (module st) imgs) as [latent|]; [|reflexivity].
    cbn [bind]. apply forward_decoder_agree; [congruence|].
    apply (shots_agree b1 b2 shot_num B M c h w); try assumption. lia.
  - destruct (transposed_shots b1 B M c h w Hv H1) as (y_ & Et & Eu & Hget).
    exists y_. split; [exact Et|]. split; [exact Eu|].
    split; [exact Hget|].
    intros N. apply exemplar_encoder_shots. lia.
Qed.

(** Two crop tensors that differ in their second shot, on a module that
    returns a density map for them. *)
Lemma C3_unused_shots_ignored_witness :
  (forward zero_runtime (zeros [1; 3; 32; 32]) (zeros [1; 2; 3; 64; 64]) 1
     (mkState patch8_module true) =
   forward zero_runtime (zeros [1; 3; 32; 32])
     (tabulate [1; 2; 3; 64; 64]
        (fun idx => if znth idx 1 =? 0 then 0%R else 1%R)) 1
     (mkState patch8_module true) /\
   exists y_,
     transpose 0 1 (zeros [1; 2; 3; 64; 64]) = Some y_ /\
     unbind0 y_ = Some (map (fun s => select0 s y_) (range 2)) /\
     (forall s, 0 <= s < 2 ->
        shape (select0 s y_) = [1; 3; 64; 64] /\
        wf (select0 s y_) /\
        forall n k i j,
          0 <= n < 1 -> 0 <= k < 3 -> 0 <= i < 64 -> 0 <= j < 64 ->
          get (select0 s y_) [n; k; i; j] =
          get (zeros [1; 2; 3; 64; 64]) [n; s; k; i; j]) /\
     forall N,
       exemplar_encoder (module (mkState patch8_module true)) 1
         (map (fun s => select0 s y_) (range 2)) 0 [] N 0 =
       (us <- traverse (encode_shot (module (mkState patch8_module true)))
                (map (fun s => select0 s y_) (range 1)) ;;
        let (N', C') := loop_dims us N 0 in
        Some (us, N', C'))) /\
  exists pred,
    fst (forward zero_runtime (zeros [1; 3; 32; 32])
           (zeros [1; 2; 3; 64; 64]) 1 (mkState patch8_module true))
    = Some pred /\
    shape pred = [1; 64; 64] /\ wf pred.
Proof.
  split.
  - apply (C3_unused_shots_ignored zero_runtime (zeros [1; 3; 32; 32])
             (zeros [1; 2; 3; 64; 64])
             (tabulate [1; 2; 3; 64; 64]
                (fun idx => if znth idx 1 =? 0 then 0%R else 1%R))
             1 1 2 3 64 64 (mkState patch8_module true)).
    + repeat constructor; lia.
    + reflexivity.
    + reflexivity.
    + lia.
    + intros n s k i j Hn Hs Hk Hi Hj. unfold zeros.
      rewrite !get_tabulate by (repeat constructor; lia).
      replace s with 0 by lia. reflexivity.
  - unfold patch8_module, constructed_for.
    destruct (SupervisedMAE_init_spec zero_runtime zero_weights patch8_config)
      as (pe & dpe & st & -> & Hpe & Hdpe & Hst & _).
    destruct (forward_density_map zero_runtime zero_weights patch8_config
                pe dpe st (zeros [1; 3; 32; 32]) (zeros [1; 2; 3; 64; 64])
                1 1 2 4 eq_refl ltac:(lia) eq_refl ltac:(lia) ltac:(lia)
                (or_intror (conj eq_refl eq_refl)) eq_refl eq_refl
                ltac:(discriminate) Hpe Hdpe Hst eq_refl eq_refl)
      as (latent & tokens & x0 & x1 & x2 & x3 & x4 & pred & H).
    exists pred. repeat split; apply H.
Defined.

(** The rows of the pooled embeddings reach the decoder in the order in
    which the reshape to (shot_num, N, C) reads them: token [s] of batch
    item [n] is row [s * N + n]. *)
Lemma decoder_tokens_rows (e : tensor) (N S : Z) :
  0 <= N -> 0 <= S ->
  shape e = [N * S; 512] ->
  exists y0 y,
    reshape [S; N; 512] e = Some y0 /\
    transpose 0 1 y0 = Some y /\
    shape y = [N; S; 512] /\
    forall n s c, 0 <= n < N -> 0 <= s < S -> 0 <= c < 512 ->
      get y [n; s; c] = get e [s * N + n; c].
Proof.
  intros HN HS He.
  destruct (reshape_spec [S; N; 512] e) as (y0 & Ey0 & Hs0 & _ & Hg0).
  { apply all_nonneg_true. bounds. }
  { rewrite He. unfold numel. simpl. ring. }
  destruct (permute_spec (swap_dims 3 0 1) y0) as (y & Ey & Hsy & _ & Hgy);
    [now rewrite Hs0|].
  rewrite Hs0 in Hsy, Hgy. unfold swap_dims in Hsy, Hgy. norm_in Hsy.
  rewrite Hsy in Hgy.
  exists y0, y. split; [exact Ey0|].
  split; [rewrite (transpose_eq 0 1 y0 0 1) by (now rewrite Hs0);
          rewrite Hs0; exact Ey|].
  split; [exact Hsy|].
  intros n s c Hn Hs Hc. rewrite Hgy by bounds. norm.
  apply Hg0. rewrite He. unfold ravel, numel. simpl. ring.
Qed.

(** C4 (evaluation at two batch items with two shots each).  The rows of
    the pooled embeddings are ordered by batch item and then by shot; the
    reshape to (shot_num, N, C) reads them as ordered by shot and then by
    batch item.  The token handed to the decoder for batch item 0 and shot 1
    is therefore the embedding of shot 0 of batch item 1 (value 2 on the
    labelled tokens) and not the embedding of shot 1 of batch item 0
    (value 1). *)
Theorem C4_tokens_mix_batch_items :
  exists e y0 y,
    exemplar_pooling small_module 2 2 unit_gate labelled_tokens = Some e /\
    reshape [2; 2; 512] e = Some y0 /\
    transpose 0 1 y0 = Some y /\
    get y [0; 1; 0] = shot_embedding unit_gate labelled_tokens 1 0 0 /\
    shot_embedding unit_gate labelled_tokens 1 0 0 = 2%R /\
    shot_embedding unit_gate labelled_tokens 0 1 0 = 1%R.
Proof.
  destruct (exemplar_pooling_spec small_module 2 2 unit_gate labelled_tokens)
    as (e & He & Hse & Hge); try reflexivity; try lia.
  destruct (decoder_tokens_rows e 2 2 ltac:(lia) ltac:(lia) Hse)
    as (y0 & y & Hy0 & Hy & _ & Hgy).
  exists e, y0, y. split; [exact He|]. split; [exact Hy0|].
  split; [exact Hy|].
  assert (Hemb : forall n s, 0 <= n < 2 -> 0 <= s < 2 ->
            shot_embedding unit_gate labelled_tokens n s 0 = IZR (2 * n + s)).
  { intros n s Hn Hs. unfold shot_embedding.
    rewrite (rsum_ext 64 _ (fun _ => IZR (2 * n + s))).
    2:{ intros p Hp. unfold unit_gate, labelled_tokens.
        rewrite !get_tabulate by (repeat constructor; lia).
        unfold znth. simpl nth.
        replace ((s * 64 + p) / 64) with s
          by (apply Z.div_unique with (r := p); lia).
        ring. }
    rewrite (rsum_ext 64 (fun p => get unit_gate _) (fun _ => 1%R)).
    2:{ intros p Hp. unfold unit_gate.
        now rewrite get_tabulate by (repeat constructor; lia). }
    assert (Hc : forall v, rsum 64 (fun _ => v) = (64 * v)%R).
    { intros v. unfold rsum, range. simpl. ring. }
    rewrite !Hc. field. }
  split; [|split; [exact (Hemb 1 0 ltac:(lia) ltac:(lia))
                  | exact (Hemb 0 1 ltac:(lia) ltac:(lia))]].
  rewrite (Hgy 0 1 0) by lia.
  exact (Hge 1 0 0 ltac:(lia) ltac:(lia) ltac:(lia)).
Qed.

(** C5. For a constructed module and at least one shot, the pooled embedding
    of every shot is the weighted mean of that shot's 64 grid tokens: the
    average pooling of the products of weight and token, times 8 * 8, times
    the reciprocal of the sum of the shot's weights, is the sum of the
    products divided by the sum of the weights. *)
Theorem C5_pooled_embedding_weighted_mean (rt : Runtime) (w : Weights)
    (cfg : Config) (self : SupervisedMAE) (N S : Z) (wt tok : tensor) :
  SupervisedMAE_init rt w cfg = Some self ->
  0 <= N -> 0 < S ->
  shape wt = [N; S * 8 * 8; 1] ->
  shape tok = [N; S * 8 * 8; 512] ->
  exists e,
    exemplar_pooling self N S wt tok = Some e /\
    shape e = [N * S; 512] /\
    forall n s c, 0 <= n < N -> 0 <= s < S -> 0 <= c < 512 ->
      get e [n * S + s; c] = shot_embedding wt tok n s c.
Proof.
  intros Hinit HN HS Hwt Htok.
  destruct (SupervisedMAE_init_spec rt w cfg) as (pe & dpe & st & E & _).
  rewrite E in Hinit. injection Hinit as <-.
  apply exemplar_pooling_spec; try assumption. reflexivity.
Qed.

Lemma C5_pooled_embedding_weighted_mean_witness :
  exists e,
    exemplar_pooling (constructed zero_weights) 2 2 unit_gate labelled_tokens
    = Some e /\
    shape e = [2 * 2; 512] /\
    forall n s c, 0 <= n < 2 -> 0 <= s < 2 -> 0 <= c < 512 ->
      get e [n * 2 + s; c] = shot_embedding unit_gate labelled_tokens n s c.
Proof.
  apply (C5_pooled_embedding_weighted_mean zero_runtime zero_weights
           small_config (constructed zero_weights) 2 2 unit_gate
           labelled_tokens);
    [reflexivity | lia | lia | reflexivity | reflexivity].
Defined.

(** C6 as stated fails: for one batch item, one shot and two heads the
    summary of the attention scores has 2 * 64 entries per query token, not
    2. *)
Lemma C6_summary_shape_counterexample :
  exists a,
    attn_summary 1 1 2 (zeros [1; 2; 64; 64]) = Some a /\
    shape a = [1; 64; 128] /\
    shape a <> [1; 1 * 64; 2].
Proof.
  destruct (attn_summary_spec 1 1 2 (zeros [1; 2; 64; 64]))
    as (a & E & Hs & _); try lia; [reflexivity|].
  exists a. split; [exact E|]. rewrite Hs. split; [reflexivity|discriminate].
Qed.

(** C6 (amended).  The attention scores of a layer, of shape (batch, heads,
    query tokens, key tokens) with shot_num * 64 query and key tokens, are
    averaged over the key tokens that share a grid position across the
    shots; the summary has shape (batch, shot_num * 64, heads * 64), with
    one mean per query token, head and grid position. *)
Theorem C6_attention_summary (N S H : Z) (attn : tensor) :
  0 <= N -> 0 < S -> 0 <= H ->
  shape attn = [N; H; S * 8 * 8; S * 8 * 8] ->
  exists a,
    attn_summary N S H attn = Some a /\
    shape a = [N; S * 8 * 8; H * 64] /\
    forall n q h p,
      0 <= n < N -> 0 <= q < S * 8 * 8 -> 0 <= h < H -> 0 <= p < 64 ->
      get a [n; q; h * 64 + p] =
      Rdiv (rsum S (fun s => get attn [n; h; q; s * 64 + p])) (IZR S).
Proof. exact (attn_summary_spec N S H attn). Qed.

Lemma C6_attention_summary_witness :
  exists a,
    attn_summary 1 1 2 (zeros [1; 2; 64; 64]) = Some a /\
    shape a = [1; 1 * 8 * 8; 2 * 64] /\
    forall n q h p,
      0 <= n < 1 -> 0 <= q < 1 * 8 * 8 -> 0 <= h < 2 -> 0 <= p < 64 ->
      get a [n; q; h * 64 + p] =
      Rdiv (rsum 1 (fun s => get (zeros [1; 2; 64; 64]) [n; h; q; s * 64 + p]))
           (IZR 1).
Proof.
  apply (C6_attention_summary 1 1 2 (zeros [1; 2; 64; 64]));
    [lia | lia | lia | reflexivity].
Defined.

(** The positional tables that the constructor computes do not depend on
    the parameter values it draws. *)
Lemma init_pos_embed_deterministic (rt : Runtime) (w1 w2 : Weights)
    (cfg : Config) (m1 m2 : SupervisedMAE) :
  SupervisedMAE_init rt w1 cfg = Some m1 ->
  SupervisedMAE_init rt w2 cfg = Some m2 ->
  pos_embed m1 = pos_embed m2 /\ decoder_pos_embed m1 = decoder_pos_embed m2.
Proof.
  unfold SupervisedMAE_init, initialize_weights. fields.
  destruct (last_dim _) as [e|]; [|discriminate]. cbn [bind].
  destruct (unsqueeze 0 _) as [src|]; [|discriminate]. cbn [bind].
  destruct (copy_ _ src) as [pe|]; [|discriminate]. cbn [bind].
  destruct (last_dim _) as [d|]; [|discriminate]. cbn [bind].
  destruct (unsqueeze 0 _) as [dsrc|]; [|discriminate]. cbn [bind].
  destruct (copy_ _ dsrc) as [dpe|]; [|discriminate]. cbn [bind].
  intros H1 H2. injection H1 as <-. injection H2 as <-. now split.
Qed.

(** C7. The two positional embeddings are set by the constructor from the
    closed-form table and are not trainable; two modules constructed with
    one configuration hold the same embeddings whatever parameter values
    were drawn; and a call of [forward] leaves the module, hence both
    embeddings, as it was. *)
Theorem C7_positional_embeddings_frozen (rt : Runtime) (w1 w2 : Weights)
    (cfg : Config) (m1 m2 : SupervisedMAE) (imgs boxes : tensor)
    (shot_num : Z) (grad : bool) :
  SupervisedMAE_init rt w1 cfg = Some m1 ->
  SupervisedMAE_init rt w2 cfg = Some m2 ->
  let grid := c_img_size cfg / c_patch_size cfg in
  let after :=
    module (snd (forward rt imgs boxes shot_num (mkState m1 grad))) in
  (pos_embed m1 = pos_embed m2 /\ decoder_pos_embed m1 = decoder_pos_embed m2)
  /\ (requires_grad (pos_embed m1) = false /\
      requires_grad (decoder_pos_embed m1) = false)
  /\ (shape (p_data (pos_embed m1)) = [1; grid * grid; c_embed_dim cfg] /\
      forall i j, 0 <= i < grid * grid -> 0 <= j < c_embed_dim cfg ->
        get (p_data (pos_embed m1)) [0; i; j] =
        get_2d_sincos_pos_embed rt (c_embed_dim cfg) (Z.sqrt (grid * grid))
          [i; j])
  /\ (shape (p_data (decoder_pos_embed m1))
      = [1; grid * grid; c_decoder_embed_dim cfg] /\
      forall i j, 0 <= i < grid * grid -> 0 <= j < c_decoder_embed_dim cfg ->
        get (p_data (decoder_pos_embed m1)) [0; i; j] =
        get_2d_sincos_pos_embed rt (c_decoder_embed_dim cfg)
          (Z.sqrt (grid * grid)) [i; j])
  /\ (pos_embed after = pos_embed m1 /\
      decoder_pos_embed after = decoder_pos_embed m1).
Proof.
  intros H1 H2 grid after.
  split; [exact (init_pos_embed_deterministic rt w1 w2 cfg m1 m2 H1 H2)|].
  destruct (SupervisedMAE_init_spec rt w1 cfg)
    as (pe & dpe & st & E & Hpe & Hdpe & _ & Hgpe & Hgdpe).
  rewrite E in H1. injection H1 as <-.
  split; [split; reflexivity|].
  split; [split; [exact Hpe | exact Hgpe]|].
  split; [split; [exact Hdpe | exact Hgdpe]|].
  unfold after. rewrite forward_eq. split; reflexivity.
Qed.

Lemma C7_positional_embeddings_frozen_witness :
  pos_embed (constructed zero_weights) = pos_embed (constructed unit_weights)
  /\ decoder_pos_embed (constructed zero_weights)
     = decoder_pos_embed (constructed unit_weights).
Proof.
  apply (C7_positional_embeddings_frozen zero_runtime zero_weights
           unit_weights small_config (constructed zero_weights)
           (constructed unit_weights) (zeros [1; 3; 16; 16])
           (zeros [1; 2; 3; 64; 64]) 0 true);
    reflexivity.
Defined.

Lemma exemplar_encoder_proj4 (self : SupervisedMAE) (l : list Layer)
    (shot_num : Z) (ys : list tensor) :
  forall cnt y1 N C,
    exemplar_encoder (with_decoder_proj4 self l) shot_num ys cnt y1 N C =
    exemplar_encoder self shot_num ys cnt y1 N C.
Proof.
  induction ys as [|yi ys IH]; intros cnt y1 N C; [reflexivity|].
  cbn [exemplar_encoder].
  destruct (cnt + 1 >? shot_num); [reflexivity|].
  change (decoder_proj1 (with_decoder_proj4 self l)) with (decoder_proj1 self).
  change (decoder_proj2 (with_decoder_proj4 self l)) with (decoder_proj2 self).
  change (decoder_proj3 (with_decoder_proj4 self l)) with (decoder_proj3 self).
  change (decoder_proj_final (with_decoder_proj4 self l))
    with (decoder_proj_final self).
  destruct (Sequential_forward (decoder_proj1 self) yi) as [t1|];
    [|reflexivity]. cbn [bind].
  destruct (Sequential_forward (decoder_proj2 self) t1) as [t2|];
    [|reflexivity]. cbn [bind].
  destruct (Sequential_forward (decoder_proj3 self) t2) as [t3|];
    [|reflexivity]. cbn [bind].
  destruct (Sequential_forward (decoder_proj_final self) t3) as [t4|];
    [|reflexivity]. cbn [bind].
  destruct (shape t4) as [|? [|? [|? [|? [|]]]]]; try reflexivity.
  destruct (unsqueeze 0 t4); [|reflexivity]. cbn [bind]. apply IH.
Qed.

Lemma decoder_fusion_proj4 (self : SupervisedMAE) (l : list Layer)
    (idxs : list Z) :
  forall x y,
    decoder_fusion (with_decoder_proj4 self l) idxs x y =
    decoder_fusion self idxs x y.
Proof.
  induction idxs as [|i idxs IH]; intros x y; [reflexivity|].
  cbn [decoder_fusion].
  change (decoder_blocks (with_decoder_proj4 self l))
    with (decoder_blocks self).
  destruct (nth_error (decoder_blocks self) (Z.to_nat i)) as [blk|];
    [|reflexivity]. cbn [bind].
  destruct (CrossAttentionBlock_forward blk x y) as [[x' [a|]]|];
    try reflexivity. cbn [bind]. apply IH.
Qed.

(** C8. The result of [forward] does not depend on the [decoder_proj4]
    branch: replacing it by any other sequence of layers, the empty one
    included, leaves the result of every call unchanged. *)
Theorem C8_decoder_proj4_unused (rt : Runtime) (self : SupervisedMAE)
    (l : list Layer) (imgs boxes : tensor) (shot_num : Z) (grad : bool) :
  fst (forward rt imgs boxes shot_num
         (mkState (with_decoder_proj4 self l) grad))
  = fst (forward rt imgs boxes shot_num (mkState self grad)).
Proof.
  rewrite !forward_eq. cbn [fst module].
  change (forward_encoder (with_decoder_proj4 self l) imgs)
    with (forward_encoder self imgs).
  destruct (forward_encoder self imgs) as [latent|]; [|reflexivity].
  cbn [bind]. unfold forward_decoder.
  change (decoder_embed (with_decoder_proj4 self l)) with (decoder_embed self).
  destruct (Layer_forward (decoder_embed self) latent) as [x1|];
    [|reflexivity]. cbn [bind].
  change (decoder_pos_embed (with_decoder_proj4 self l))
    with (decoder_pos_embed self).
  destruct (add x1 (p_data (decoder_pos_embed self))) as [x2|];
    [|reflexivity]. cbn [bind].
  destruct (transpose 0 1 boxes) as [y_|]; [|reflexivity]. cbn [bind].
  destruct (shape_at y_ 1) as [N|]; [|reflexivity]. cbn [bind].
  destruct (unbind0 y_) as [ys|]; [|reflexivity]. cbn [bind].
  rewrite exemplar_encoder_proj4.
  destruct (exemplar_encoder self shot_num ys 0 [] N 0) as [[[y1 N'] C']|];
    [|reflexivity]. cbn [bind].
  change (exemplar_tokens (with_decoder_proj4 self l) y_ shot_num y1 N' C')
    with (exemplar_tokens self y_ shot_num y1 N' C').
  destruct (exemplar_tokens self y_ shot_num y1 N' C') as [y|];
    [|reflexivity]. cbn [bind].
  change (decoder_depth (with_decoder_proj4 self l)) with (decoder_depth self).
  rewrite decoder_fusion_proj4.
  reflexivity.
Qed.

(** C9 as stated fails: a configuration with decoder width 4 and no decoder
    block computes a density map when called without shots. *)
Lemma C9_width_counterexample :
  c_decoder_embed_dim small_config <> 512 /\
  exists m pred,
    SupervisedMAE_init zero_runtime zero_weights small_config = Some m /\
    fst (forward zero_runtime (zeros [1; 3; 16; 16])
           (zeros [1; 1; 3; 64; 64]) 0 (mkState m true)) = Some pred.
Proof.
  split; [discriminate|].
  destruct (SupervisedMAE_init_spec zero_runtime zero_weights small_config)
    as (pe & dpe & st & E & Hpe & Hdpe & Hst & _).
  destruct (forward_encoder_spec zero_runtime zero_weights small_config
              pe dpe st (zeros [1; 3; 16; 16]) 1
              (or_introl (Z.le_refl 0)) Hpe eq_refl)
    as (latent & El & Hl).
  destruct (forward_decoder_spec zero_runtime zero_weights small_config
              pe dpe st latent (zeros [1; 1; 3; 64; 64]) 0 1 1 1)
    as (out & Eo & _); try assumption; try reflexivity; try lia.
  { cbn. lia. }
  { left. split; [lia|]. right. cbn. lia. }
  eexists. exists out. split; [exact E|].
  rewrite forward_eq. cbn [fst module]. rewrite El. exact Eo.
Qed.

(** C9 (amended).  The exemplar pathway is built at width 512 whatever the
    configured decoder width: the shot token has 512 entries and every
    exemplar block has width 512.  For a configuration whose decoder width
    is not 512, [forward] fails for every shot count of at least 1, and it
    fails for the other shot counts when the decoder has at least one
    block. *)
Theorem C9_decoder_width_512 (rt : Runtime) (w : Weights) (cfg : Config)
    (m : SupervisedMAE) (imgs boxes : tensor) (shot_num : Z) (grad : bool) :
  SupervisedMAE_init rt w cfg = Some m ->
  c_decoder_embed_dim cfg <> 512 ->
  1 <= shot_num \/ 1 <= c_decoder_depth cfg ->
  shape (p_data (shot_token m)) = [512] /\
  Forall (fun blk => cab_dim blk = 512) (exemplar_blocks m) /\
  exemplar_norm m
  = LayerNorm (c_norm_eps cfg) 512 (w_layer w n_exemplar_norm) /\
  fst (forward rt imgs boxes shot_num (mkState m grad)) = None.
Proof.
  intros Hinit HD Hcase.
  destruct (SupervisedMAE_init_spec rt w cfg)
    as (pe & dpe & st & E & _ & _ & Hst & _).
  rewrite E in Hinit. injection Hinit as <-.
  split; [exact Hst|]. split; [|split; [reflexivity|]].
  - fields. apply Forall_forall. intros blk Hblk.
    apply in_map_iff in Hblk. now destruct Hblk as (i & <- & _).
  - rewrite forward_eq. cbn [fst module]. apply bind_None. intros latent _.
    now apply forward_decoder_width.
Qed.

Lemma C9_decoder_width_512_witness :
  shape (p_data (shot_token (constructed zero_weights))) = [512] /\
  Forall (fun blk => cab_dim blk = 512)
         (exemplar_blocks (constructed zero_weights)) /\
  exemplar_norm (constructed zero_weights)
  = LayerNorm (c_norm_eps small_config) 512
      (w_layer zero_weights n_exemplar_norm) /\
  fst (forward zero_runtime (zeros [1; 3; 16; 16])
         (zeros [1; 2; 3; 64; 64]) 1
         (mkState (constructed zero_weights) true)) = None.
Proof.
  apply (C9_decoder_width_512 zero_runtime zero_weights small_config
           (constructed zero_weights) (zeros [1; 3; 16; 16])
           (zeros [1; 2; 3; 64; 64]) 1 true);
    [reflexivity | discriminate | left; lia].
Defined.

(** C10 as stated fails in the float32 arithmetic of the tensor runtime:
    the gate is a stack of linear layers without activation, so its
    pre-activation is not bounded, and at a pre-activation of -150 the
    float32 sigmoid is exactly 0, not above it, for every exponential of
    the platform (with one exemplar block the mean over the layers is the
    sigmoid output itself).  A shot whose 64 gate weights are 0 has the
    weight sum 0; the reciprocal of line 206 is a division by zero, which
    gives infinity, and the pooled embedding of line 207 is not a number,
    here for tokens equal to 1. *)
Lemma C10_float32_counterexample :
  (forall libm, sigmoid32 libm (f32_of_Z (-150)) = S754_zero false) /\
  (forall libm,
     SFltb (S754_zero false) (sigmoid32 libm (f32_of_Z (-150))) = false) /\
  f32_sum (repeat (S754_zero false) 64) = S754_zero false /\
  f32_div (f32_of_Z 1) (f32_sum (repeat (S754_zero false) 64))
  = S754_infinity false /\
  (forall libm,
     pooled32 (repeat (sigmoid32 libm (f32_of_Z (-150))) 64)
       (repeat (f32_of_Z 1) 64) = S754_nan).
Proof.
  assert (H : forall libm,
            sigmoid32 libm (f32_of_Z (-150)) = S754_zero false)
    by (intros libm; now apply sigmoid32_zero).
  split; [exact H|].
  split; [intros libm; now rewrite H|].
  split; [vm_compute; reflexivity|].
  split; [exact reciprocal_of_zero_weights|].
  intros libm. rewrite H. vm_compute. reflexivity.
Qed.

(** C10 (amended).  In exact arithmetic, for a constructed module with at
    least one exemplar block and at least one shot, every gate weight (the
    mean over the layers of the sigmoid outputs of [exemplar_weights]) lies
    strictly between 0 and 1, so the sum of the 64 weights of every shot is
    positive and the renormalisation does not divide by zero.  In float32
    the sigmoid is exactly 0 at every pre-activation up to -150, and the
    reciprocal of the sum of 64 such weights is a division by zero, which
    gives infinity. *)
Theorem C10_gate_weights_positive (rt : Runtime) (w : Weights) (cfg : Config)
    (self : SupervisedMAE) (y1 : tensor) (N S : Z) :
  SupervisedMAE_init rt w cfg = Some self ->
  0 <= N -> 0 < S ->
  0 < c_cross_blocks cfg -> 0 <= c_decoder_num_heads cfg ->
  shape y1 = [N; S * 8 * 8; 512] ->
  exists y1' summaries attns d,
    exemplar_attention (exemplar_blocks self) N S (decoder_num_heads self)
      y1 [] = Some (y1', summaries) /\
    exemplar_gate self summaries = Some attns /\
    shape attns = [N; S * 8 * 8; 1] /\
    (forall n q, 0 <= n < N -> 0 <= q < S * 8 * 8 ->
       open_unit (get attns [n; q; 0])) /\
    gate_sums N S attns = Some d /\
    (forall n s, 0 <= n < N -> 0 <= s < S ->
       Rlt 0 (get d [n * S + s; 0]) /\ get d [n * S + s; 0] <> 0%R) /\
    (forall libm x,
       SFleb x (f32_of_Z (-150)) = true ->
       sigmoid32 libm x = S754_zero false) /\
    f32_div (f32_of_Z 1) (f32_sum (repeat (S754_zero false) 64))
    = S754_infinity false.
Proof.
  intros Hinit HN HS Hcb Hh Hy1.
  destruct (SupervisedMAE_init_spec rt w cfg) as (pe & dpe & st & E & _).
  rewrite E in Hinit. injection Hinit as <-.
  set (m := with_parameters (SupervisedMAE_modules rt w cfg) pe dpe st).
  destruct (exemplar_attention_spec (exemplar_blocks m) N S
              (c_decoder_num_heads cfg) y1 [] HN HS Hh)
    as (y1' & summaries & Ex & _ & Hlen & Hall); [|assumption|].
  { unfold m. fields. apply Forall_forall. intros blk Hblk.
    apply in_map_iff in Hblk. destruct Hblk as (i & <- & _). now repeat split. }
  assert (Hne : summaries <> []).
  { intros ->. unfold m in Hlen. revert Hlen. fields.
    rewrite length_map, range_length. simpl. lia. }
  destruct (exemplar_gate_spec m summaries N (S * 8 * 8)
              (c_decoder_num_heads cfg)
              (w_layer w (n_exemplar_weights 0))
              (w_layer w (n_exemplar_weights 1))
              (w_layer w (n_exemplar_weights 2))
              (w_layer w (n_exemplar_weights 3)) eq_refl Hne Hall)
    as (attns & Ea & Hsa & Hga).
  destruct (gate_sums_spec N S attns HN HS Hsa) as (d & Ed & Hsd & Hgd).
  exists y1', summaries, attns, d.
  split; [exact Ex|].
  split; [exact Ea|]. split; [exact Hsa|]. split; [exact Hga|].
  split; [exact Ed|].
  split; [|split; [exact sigmoid32_zero | exact reciprocal_of_zero_weights]].
  intros n s Hn Hs. rewrite Hgd by assumption.
  assert (Hpos : Rlt 0 (rsum 64 (fun p => get attns [n; s * 64 + p; 0]))).
  { apply rsum_pos; [lia|]. intros p Hp. apply Hga; [assumption | nia]. }
  split; [exact Hpos | lra].
Qed.

Lemma C10_gate_weights_positive_witness :
  exists y1' summaries attns d,
    exemplar_attention (exemplar_blocks (constructed zero_weights)) 1 1
      (decoder_num_heads (constructed zero_weights)) (zeros [1; 64; 512]) []
    = Some (y1', summaries) /\
    exemplar_gate (constructed zero_weights) summaries = Some attns /\
    shape attns = [1; 1 * 8 * 8; 1] /\
    (forall n q, 0 <= n < 1 -> 0 <= q < 1 * 8 * 8 ->
       open_unit (get attns [n; q; 0])) /\
    gate_sums 1 1 attns = Some d /\
    (forall n s, 0 <= n < 1 -> 0 <= s < 1 ->
       Rlt 0 (get d [n * 1 + s; 0]) /\ get d [n * 1 + s; 0] <> 0%R) /\
    (forall libm x,
       SFleb x (f32_of_Z (-150)) = true ->
       sigmoid32 libm x = S754_zero false) /\
    f32_div (f32_of_Z 1) (f32_sum (repeat (S754_zero false) 64))
    = S754_infinity false.
Proof.
  apply (C10_gate_weights_positive zero_runtime zero_weights small_config
           (constructed zero_weights) (zeros [1; 64; 512]) 1 1);
    [reflexivity | lia | lia | reflexivity | cbn; lia | reflexivity].
Defined.

(** * Further properties of the forward pass *)

(** ** Shot counts that are negative, or exceed the supplied crops *)

Lemma gtb_nonpos (s : Z) : s <= 0 -> (s >? 0) = false.
Proof. intros H. rewrite Z.gtb_ltb. apply Z.ltb_ge. lia. Qed.

Lemma gtb_pos (s : Z) : 0 < s -> (s >? 0) = true.
Proof. intros H. rewrite Z.gtb_ltb. apply Z.ltb_lt. lia. Qed.

Lemma exemplar_tokens_nonpos (self : SupervisedMAE) (y_ : tensor)
    (shot_num : Z) (y1 : list tensor) (N C : Z) :
  shot_num <= 0 ->
  exemplar_tokens self y_ shot_num y1 N C = exemplar_tokens self y_ 0 [] 0 0.
Proof. intros H. unfold exemplar_tokens. now rewrite gtb_nonpos. Qed.

Lemma forward_decoder_nonpos (rt : Runtime) (self : SupervisedMAE)
    (x boxes : tensor) (shot_num : Z) :
  shot_num <= 0 ->
  forward_decoder rt self x boxes shot_num = forward_decoder rt self x boxes 0.
Proof.
  intros H. unfold forward_decoder.
  destruct (Layer_forward (decoder_embed self) x) as [x1|]; [|reflexivity].
  cbn [bind].
  destruct (add x1 (p_data (decoder_pos_embed self))) as [x2|]; [|reflexivity].
  cbn [bind].
  destruct (transpose 0 1 boxes) as [y_|]; [|reflexivity]. cbn [bind].
  destruct (shape_at y_ 1) as [N|]; [|reflexivity]. cbn [bind].
  destruct (unbind0 y_) as [ys|]; [|reflexivity]. cbn [bind].
  rewrite !exemplar_encoder_bypass by lia. cbn [bind].
  now rewrite (exemplar_tokens_nonpos self y_ shot_num [] N 0 H),
              (exemplar_tokens_nonpos self y_ 0 [] N 0 (Z.le_refl 0)).
Qed.

(** X1. A shot count below zero is treated as zero: the loop over the shots
    stops at once and the shot token is used, so [forward] returns what it
    returns for shot count 0. *)
Theorem X1_negative_shot_count (rt : Runtime) (imgs boxes : tensor)
    (shot_num : Z) (st : State) :
  shot_num <= 0 ->
  forward rt imgs boxes shot_num st = forward rt imgs boxes 0 st.
Proof.
  intros H. rewrite !forward_eq. f_equal.
  destruct (forward_encoder (module st) imgs) as [latent|]; [|reflexivity].
  cbn [bind]. now apply forward_decoder_nonpos.
Qed.

Lemma X1_negative_shot_count_witness :
  forward zero_runtime (zeros [1; 3; 16; 16]) (zeros [1; 2; 3; 64; 64]) (-3)
    (mkState small_module true) =
  forward zero_runtime (zeros [1; 3; 16; 16]) (zeros [1; 2; 3; 64; 64]) 0
    (mkState small_module true).
Proof.
  apply (X1_negative_shot_count zero_runtime (zeros [1; 3; 16; 16])
           (zeros [1; 2; 3; 64; 64]) (-3) (mkState small_module true)).
  lia.
Defined.

(** Without shots the decoder reads the batch size of the crops only. *)
Lemma forward_decoder_batch_only (rt : Runtime) (self : SupervisedMAE)
    (x b1 b2 : tensor) (shot_num B M1 c1 h1 w1 M2 c2 h2 w2 : Z) :
  shot_num <= 0 ->
  shape b1 = [B; M1; c1; h1; w1] ->
  shape b2 = [B; M2; c2; h2; w2] ->
  forward_decoder rt self x b1 shot_num = forward_decoder rt self x b2 shot_num.
Proof.
  intros Hs H1 H2. unfold forward_decoder.
  destruct (Layer_forward (decoder_embed self) x) as [x1|]; [|reflexivity].
  cbn [bind].
  destruct (add x1 (p_data (decoder_pos_embed self))) as [x2|]; [|reflexivity].
  cbn [bind].
  rewrite (transpose_eq 0 1 b1 0 1), (transpose_eq 0 1 b2 0 1)
    by (rewrite ?H1, ?H2; reflexivity).
  destruct (permute_spec (swap_dims (zlen (shape b1)) 0 1) b1)
    as (y1_ & -> & Hy1 & _); [now rewrite H1|].
  destruct (permute_spec (swap_dims (zlen (shape b2)) 0 1) b2)
    as (y2_ & -> & Hy2 & _); [now rewrite H2|].
  rewrite H1 in Hy1. rewrite H2 in Hy2.
  unfold swap_dims in Hy1, Hy2. norm_in Hy1. norm_in Hy2.
  cbn [bind]. unfold shape_at, unbind0, exemplar_tokens, shape_at.
  rewrite Hy1, Hy2, (gtb_nonpos shot_num Hs).
  replace (norm_dim (zlen [M1; B; c1; h1; w1]) 1) with (Some 1) by reflexivity.
  replace (norm_dim (zlen [M2; B; c2; h2; w2]) 1) with (Some 1) by reflexivity.
  cbn [bind]. rewrite !exemplar_encoder_bypass by lia. reflexivity.
Qed.

(** X2. Without shots [forward] reads nothing of the crop tensor but its
    batch size: crop tensors with other numbers of shots, channels or crop
    sizes give the same result. *)
Theorem X2_no_shot_reads_batch_size_only (rt : Runtime)
    (imgs b1 b2 : tensor) (shot_num B M1 c1 h1 w1 M2 c2 h2 w2 : Z)
    (st : State) :
  shot_num <= 0 ->
  shape b1 = [B; M1; c1; h1; w1] ->
  shape b2 = [B; M2; c2; h2; w2] ->
  forward rt imgs b1 shot_num st = forward rt imgs b2 shot_num st.
Proof.
  intros Hs H1 H2. rewrite !forward_eq. f_equal.
  destruct (forward_encoder (module st) imgs) as [latent|]; [|reflexivity].
  cbn [bind].
  exact (forward_decoder_batch_only rt (module st) latent b1 b2 shot_num
           B M1 c1 h1 w1 M2 c2 h2 w2 Hs H1 H2).
Qed.

Lemma X2_no_shot_reads_batch_size_only_witness :
  forward zero_runtime (zeros [1; 3; 16; 16]) (zeros [1; 2; 3; 64; 64]) 0
    (mkState small_module true) =
  forward zero_runtime (zeros [1; 3; 16; 16]) (zeros [1; 0; 1; 5; 7]) 0
    (mkState small_module true).
Proof.
  apply (X2_no_shot_reads_batch_size_only zero_runtime
           (zeros [1; 3; 16; 16]) (zeros [1; 2; 3; 64; 64])
           (zeros [1; 0; 1; 5; 7]) 0 1 2 3 64 64 0 1 5 7
           (mkState small_module true));
    [lia | reflexivity | reflexivity].
Defined.

(** X3. Even without shots the crop tensor is transposed first: a crop
    tensor with fewer than two dimensions (an empty one-dimensional
    tensor, say) makes [forward] raise for every shot count. *)
Theorem X3_crops_need_two_dimensions (rt : Runtime) (imgs boxes : tensor)
    (shot_num : Z) (st : State) :
  (List.length (shape boxes) < 2)%nat ->
  fst (forward rt imgs boxes shot_num st) = None.
Proof.
  intros H. rewrite forward_eq. cbn [fst]. apply bind_None. intros latent _.
  unfold forward_decoder. apply bind_None. intros x1 _.
  apply bind_None. intros x2 _.
  assert (Ht : transpose 0 1 boxes = None).
  { unfold transpose, norm_dim, zlen.
    destruct (shape boxes) as [|d [|d' l]];
      [reflexivity | reflexivity | simpl in H; lia]. }
  now rewrite Ht.
Qed.

Lemma X3_crops_need_two_dimensions_witness :
  fst (forward zero_runtime (zeros [1; 3; 16; 16]) (zeros [0]) 0
         (mkState small_module true)) = None.
Proof.
  apply (X3_crops_need_two_dimensions zero_runtime (zeros [1; 3; 16; 16])
           (zeros [0]) 0 (mkState small_module true)).
  unfold zeros, tabulate. simpl. lia.
Defined.

(** X4. For a module constructed from a configuration with decoder width
    512, a positive token grid, positive widths and numbers of heads that
    divide the widths, and at least one exemplar block, [forward] returns
    a density map whose side is 16 times the side of the token grid, which
    is the image side divided by the patch size, and which holds one value
    per position: the regression head doubles the side of the grid four
    times and the squeeze drops the channel.  With 8x8 patches the map has
    twice the side of the image. *)
Theorem X4_density_map_side (rt : Runtime) (w : Weights) (cfg : Config)
    (m : SupervisedMAE) (imgs boxes : tensor) (shot_num B M : Z)
    (grad : bool) :
  let grid := c_img_size cfg / c_patch_size cfg in
  SupervisedMAE_init rt w cfg = Some m ->
  0 < c_patch_size cfg -> 0 < grid ->
  0 < c_in_chans cfg -> 0 < c_embed_dim cfg ->
  0 < c_num_heads cfg -> c_embed_dim cfg mod c_num_heads cfg = 0 ->
  c_decoder_embed_dim cfg = 512 ->
  0 < c_decoder_num_heads cfg -> 512 mod c_decoder_num_heads cfg = 0 ->
  0 < c_cross_blocks cfg ->
  0 <= B -> 0 <= M -> shot_num <= M ->
  shape imgs = [B; c_in_chans cfg; c_img_size cfg; c_img_size cfg] ->
  shape boxes = [B; M; 3; 64; 64] ->
  exists tokens x0 x1 x2 x3 x4 pred,
    fst (forward rt imgs boxes shot_num (mkState m grad)) = Some pred /\
    shape pred = [B; 16 * grid; 16 * grid] /\ wf pred /\
    shape tokens = [B; grid * grid; 512] /\
    token_grid tokens = Some x0 /\
    shape x0 = [B; 512; grid; grid] /\
    upsample rt (decode_head0 m) x0 = Some x1 /\
    shape x1 = [B; 256; 2 * grid; 2 * grid] /\ wf x1 /\
    upsample rt (decode_head1 m) x1 = Some x2 /\
    shape x2 = [B; 256; 4 * grid; 4 * grid] /\ wf x2 /\
    upsample rt (decode_head2 m) x2 = Some x3 /\
    shape x3 = [B; 256; 8 * grid; 8 * grid] /\ wf x3 /\
    upsample rt (decode_head3 m) x3 = Some x4 /\
    shape x4 = [B; 1; 16 * grid; 16 * grid] /\ wf x4 /\
    squeeze (-3) x4 = Some pred /\
    forall n i j,
      0 <= n < B -> 0 <= i < 16 * grid -> 0 <= j < 16 * grid ->
      get pred [n; i; j] = get x4 [n; 0; i; j].
Proof.
  intros grid Hinit Hp Hg Hic He Hh Hm HD Hdh Hdm Hcb HB HM Hshot Himgs
    Hboxes.
  destruct (SupervisedMAE_init_spec rt w cfg)
    as (pe & dpe & st & E & Hpe & Hdpe & Hst & _).
  rewrite E in Hinit. injection Hinit as <-.
  destruct (forward_density_map rt w cfg pe dpe st imgs boxes shot_num B M
              grid eq_refl HB Hg HM Hshot (or_intror (conj Hh Hm)) HD Hcb
              ltac:(lia) Hpe Hdpe Hst Himgs Hboxes)
    as (latent & tokens & x0 & x1 & x2 & x3 & x4 & pred & _ & _ & _ & Hts
        & E0 & Hs0 & E1 & Hs1 & W1 & E2 & Hs2 & W2 & E3 & Hs3 & W3 & E4
        & Hs4 & W4 & E5 & Hsp & Wp & Hgp & Hfw).
  replace (grid * 2 * 2 * 2 * 2) with (16 * grid) in * by lia.
  replace (grid * 2 * 2 * 2) with (8 * grid) in * by lia.
  replace (grid * 2 * 2) with (4 * grid) in * by lia.
  replace (grid * 2) with (2 * grid) in * by lia.
  exists tokens, x0, x1, x2, x3, x4, pred.
  split; [apply Hfw|]. repeat (split; [assumption|]). exact Hgp.
Qed.

Lemma X4_density_map_side_witness :
  exists tokens x0 x1 x2 x3 x4 pred,
    fst (forward zero_runtime (zeros [2; 3; 32; 32])
           (zeros [2; 3; 3; 64; 64]) 3 (mkState patch8_module true))
    = Some pred /\
    shape pred = [2; 16 * (32 / 8); 16 * (32 / 8)] /\ wf pred /\
    shape tokens = [2; 32 / 8 * (32 / 8); 512] /\
    token_grid tokens = Some x0 /\
    shape x0 = [2; 512; 32 / 8; 32 / 8] /\
    upsample zero_runtime (decode_head0 patch8_module) x0 = Some x1 /\
    shape x1 = [2; 256; 2 * (32 / 8); 2 * (32 / 8)] /\ wf x1 /\
    upsample zero_runtime (decode_head1 patch8_module) x1 = Some x2 /\
    shape x2 = [2; 256; 4 * (32 / 8); 4 * (32 / 8)] /\ wf x2 /\
    upsample zero_runtime (decode_head2 patch8_module) x2 = Some x3 /\
    shape x3 = [2; 256; 8 * (32 / 8); 8 * (32 / 8)] /\ wf x3 /\
    upsample zero_runtime (decode_head3 patch8_module) x3 = Some x4 /\
    shape x4 = [2; 1; 16 * (32 / 8); 16 * (32 / 8)] /\ wf x4 /\
    squeeze (-3) x4 = Some pred /\
    forall n i j,
      0 <= n < 2 -> 0 <= i < 16 * (32 / 8) -> 0 <= j < 16 * (32 / 8) ->
      get pred [n; i; j] = get x4 [n; 0; i; j].
Proof.
  apply (X4_density_map_side zero_runtime zero_weights patch8_config
           patch8_module (zeros [2; 3; 32; 32]) (zeros [2; 3; 3; 64; 64])
           3 2 3 true);
    [reflexivity | reflexivity | reflexivity | reflexivity | reflexivity
     | reflexivity | reflexivity | reflexivity | reflexivity | reflexivity
     | reflexivity | lia | lia | lia | reflexivity | reflexivity].
Defined.

(** X5. On [M] shots of 64x64 crops, the loop over the shots returns the
    encodings of the first [min(shot_num, M)] shots, in order: each is the
    exemplar CNN's feature map of its shot, of shape
    (1, B, decoder_embed_dim, 8, 8).  It returns the batch size and the
    width of the last shot it encoded, and its initial values when it
    encoded none. *)
Theorem X5_encoded_shot_count (rt : Runtime) (w : Weights) (cfg : Config)
    (self : SupervisedMAE) (ys : list tensor) (shot_num B N0 : Z) :
  SupervisedMAE_init rt w cfg = Some self ->
  Forall (fun yi => shape yi = [B; 3; 64; 64]) ys ->
  exists y1 N C,
    exemplar_encoder self shot_num ys 0 [] N0 0 = Some (y1, N, C) /\
    Forall2 (fun yi u => encode_shot self yi = Some u)
            (firstn (Z.to_nat shot_num) ys) y1 /\
    zlen y1 = Z.min (Z.max 0 shot_num) (zlen ys) /\
    Forall (fun u => shape u = [1; B; c_decoder_embed_dim cfg; 8; 8]) y1 /\
    (1 <= shot_num -> ys <> [] -> N = B /\ C = c_decoder_embed_dim cfg) /\
    (shot_num <= 0 \/ ys = [] -> y1 = [] /\ N = N0 /\ C = 0).
Proof.
  intros Hinit Hys.
  destruct (SupervisedMAE_init_spec rt w cfg) as (pe & dpe & st & E & _).
  rewrite E in Hinit. injection Hinit as <-.
  destruct (exemplar_cnn_shapes rt w cfg pe dpe st B) as (C1 & C2 & C3 & C4).
  destruct (exemplar_encoder_spec _ shot_num _ _ _ _ B _ 8 8 C1 C2 C3 C4
              ys 0 [] N0 0 Hys)
    as (new & N & C & Eenc & Hnew & Hlen & Hnil & Hcons).
  cbn [app] in Eenc. rewrite Z.sub_0_r in Hlen.
  exists new, N, C. split; [exact Eenc|]. split.
  { rewrite exemplar_encoder_closed_form in Eenc.
    unfold encode_first_shots in Eenc. rewrite Z.sub_0_r in Eenc.
    destruct (traverse _ (firstn (Z.to_nat shot_num) ys)) as [us|] eqn:Et;
      [|discriminate]. cbn [bind] in Eenc.
    destruct (loop_dims us N0 0). cbn [bind app] in Eenc.
    injection Eenc as <- _ _. now apply traverse_Forall2. }
  split; [exact Hlen|].
  split; [exact Hnew|]. split.
  - intros Hs Hne. apply Hcons. intros ->.
    destruct ys; [congruence|]. unfold zlen in Hlen.
    simpl List.length in Hlen. lia.
  - intros Hcase. assert (Hn : new = []).
    { apply zlen_nil_inv. rewrite Hlen.
      destruct Hcase as [Hs | ->]; unfold zlen; simpl List.length; lia. }
    split; [exact Hn|]. now apply Hnil.
Qed.

Lemma X5_encoded_shot_count_witness :
  exists y1 N C,
    exemplar_encoder patch8_module 2
      [zeros [4; 3; 64; 64]; tabulate [4; 3; 64; 64] (fun _ => 1%R);
       tabulate [4; 3; 64; 64] (fun _ => 2%R)]
      0 [] 4 0 = Some (y1, N, C) /\
    Forall2 (fun yi u => encode_shot patch8_module yi = Some u)
            (firstn (Z.to_nat 2)
               [zeros [4; 3; 64; 64]; tabulate [4; 3; 64; 64] (fun _ => 1%R);
                tabulate [4; 3; 64; 64] (fun _ => 2%R)]) y1 /\
    zlen y1 = Z.min (Z.max 0 2)
                (zlen [zeros [4; 3; 64; 64];
                       tabulate [4; 3; 64; 64] (fun _ => 1%R);
                       tabulate [4; 3; 64; 64] (fun _ => 2%R)]) /\
    Forall (fun u => shape u = [1; 4; c_decoder_embed_dim patch8_config; 8; 8])
           y1 /\
    (1 <= 2 ->
     [zeros [4; 3; 64; 64]; tabulate [4; 3; 64; 64] (fun _ => 1%R);
      tabulate [4; 3; 64; 64] (fun _ => 2%R)] <> [] ->
     N = 4 /\ C = c_decoder_embed_dim patch8_config) /\
    (2 <= 0 \/
     [zeros [4; 3; 64; 64]; tabulate [4; 3; 64; 64] (fun _ => 1%R);
      tabulate [4; 3; 64; 64] (fun _ => 2%R)] = [] ->
     y1 = [] /\ N = 4 /\ C = 0).
Proof.
  apply (X5_encoded_shot_count zero_runtime zero_weights patch8_config
           patch8_module
           [zeros [4; 3; 64; 64]; tabulate [4; 3; 64; 64] (fun _ => 1%R);
            tabulate [4; 3; 64; 64] (fun _ => 2%R)]
           2 4 4);
    [reflexivity | repeat constructor].
Defined.

(** ** Crops that do not give 64 cells per requested shot *)

(** The reshape of line 201 needs as many attention scores as the
    five-dimensional view holds. *)
Lemma attn_summary_mismatch (N S H n T : Z) (attn : tensor) :
  shape attn = [n; H; T; T] ->
  numel [n; T; H; T] <> numel [N; S * 8 * 8; H; S; 8 * 8] ->
  attn_summary N S H attn = None.
Proof.
  intros Hsh Hne. unfold attn_summary.
  destruct (permute_spec [0; 2; 1; 3] attn) as (a1 & -> & Hs1 & _);
    [now rewrite Hsh|].
  rewrite Hsh in Hs1. norm_in Hs1. cbn [bind]. unfold reshape. rewrite Hs1.
  apply Z.eqb_neq in Hne. rewrite Z.eqb_sym in Hne. rewrite Hne.
  now rewrite andb_false_r.
Qed.

(** What the loop over the shots returns, when it returns: one feature map
    per encoded shot. *)
Lemma exemplar_encoder_inv (self : SupervisedMAE) (shot_num : Z)
    (s0 : list Z) (B D h w : Z) :
  (forall s1 s2 s3 s4,
     Sequential_out_shape (decoder_proj1 self) s0 = Some s1 ->
     Sequential_out_shape (decoder_proj2 self) s1 = Some s2 ->
     Sequential_out_shape (decoder_proj3 self) s2 = Some s3 ->
     Sequential_out_shape (decoder_proj_final self) s3 = Some s4 ->
     s4 = [B; D; h; w]) ->
  forall ys cnt y1 N C y1' N' C',
    Forall (fun yi => shape yi = s0) ys ->
    exemplar_encoder self shot_num ys cnt y1 N C = Some (y1', N', C') ->
    exists new,
      y1' = y1 ++ new /\
      Forall (fun u => shape u = [1; B; D; h; w]) new /\
      zlen new = Z.min (Z.max 0 (shot_num - cnt)) (zlen ys) /\
      (new = [] -> N' = N /\ C' = C) /\
      (new <> [] -> N' = B /\ C' = D).
Proof.
  intros Hcnn ys. induction ys as [|yi ys IH];
    intros cnt y1 N C y1' N' C' Hall H.
  - cbn in H. injection H as <- <- <-. exists []. rewrite app_nil_r.
    split; [reflexivity|]. split; [constructor|].
    split; [unfold zlen; simpl; lia|]. split; [auto | congruence].
  - cbn [exemplar_encoder] in H. destruct (cnt + 1 >? shot_num) eqn:Ecnt.
    + injection H as <- <- <-. exists []. rewrite app_nil_r.
      split; [reflexivity|]. split; [constructor|].
      split; [unfold zlen; simpl List.length; lia|].
      split; [auto | congruence].
    + pose proof (Forall_inv Hall) as Hyi. cbn beta in Hyi.
      destruct (Sequential_forward (decoder_proj1 self) yi) as [t1|] eqn:E1;
        [|discriminate]. cbn [bind] in H.
      destruct (Sequential_forward (decoder_proj2 self) t1) as [t2|] eqn:E2;
        [|discriminate]. cbn [bind] in H.
      destruct (Sequential_forward (decoder_proj3 self) t2) as [t3|] eqn:E3;
        [|discriminate]. cbn [bind] in H.
      destruct (Sequential_forward (decoder_proj_final self) t3) as [t4|]
        eqn:E4; [|discriminate]. cbn [bind] in H.
      apply Sequential_forward_inv in E1, E2, E3, E4. rewrite Hyi in E1.
      pose proof (Hcnn _ _ _ _ E1 E2 E3 E4) as Hs4. rewrite Hs4 in H.
      rewrite (unsqueeze_spec 0 t4 0) in H by now rewrite Hs4.
      cbn [bind] in H. rewrite Hs4 in H.
      apply IH in H; [|exact (Forall_inv_tail Hall)].
      destruct H as (new & -> & Hnew & Hlen & Hnil & Hcons).
      exists (mkT (insert_at 0 1 [B; D; h; w]) (data t4) :: new).
      rewrite <- app_assoc. split; [reflexivity|].
      split; [constructor; [reflexivity | assumption]|].
      split; [|split; [discriminate|]].
      * rewrite Z.gtb_ltb in Ecnt. apply Z.ltb_ge in Ecnt.
        unfold zlen in *. simpl List.length. lia.
      * intros _. destruct new as [|u new];
          [now apply Hnil | apply Hcons; congruence].
Qed.

(** One stage of the exemplar CNN: a 3x3 convolution that keeps the side,
    and a pooling that halves it. *)
Lemma cnn_stage_out (cin cout nf : Z) (k1 k2 : kernel) (sh sh' : list Z) :
  Sequential_out_shape
    [Conv2d cin cout 3 1 1 k1; InstanceNorm2d nf k2; ReLU; MaxPool2d 2] sh
  = Some sh' ->
  exists n c h wd,
    sh = [n; c; h; wd] /\ c = cin /\ sh' = [n; cout; h / 2; wd / 2].
Proof.
  destruct sh as [|n [|c [|h [|wd [|]]]]]; try discriminate.
  cbn [Sequential_out_shape Conv2d InstanceNorm2d ReLU MaxPool2d out_shape].
  unfold conv_out.
  destruct ((c =? cin) && (3 <=? h + 2 * 1) && (3 <=? wd + 2 * 1)) eqn:G;
    [|discriminate]. cbn [bind guard].
  destruct ((1 <=? _) && (1 <=? _)); [|discriminate]. cbn [bind guard].
  intros H. injection H as <-.
  apply andb_prop in G. destruct G as (G & _).
  apply andb_prop in G. destruct G as (G & _). apply Z.eqb_eq in G.
  exists n, c, h, wd. split; [reflexivity|]. split; [exact G|].
  rewrite !Z.div_1_r. repeat f_equal; lia.
Qed.

Lemma cnn_final_out (cin cout nf : Z) (k1 k2 : kernel) (sh sh' : list Z) :
  Sequential_out_shape
    [Conv2d cin cout 3 1 1 k1; InstanceNorm2d nf k2; ReLU] sh = Some sh' ->
  exists n c h wd, sh = [n; c; h; wd] /\ sh' = [n; cout; h; wd].
Proof.
  destruct sh as [|n [|c [|h [|wd [|]]]]]; try discriminate.
  cbn [Sequential_out_shape Conv2d InstanceNorm2d ReLU out_shape].
  unfold conv_out.
  destruct ((c =? cin) && (3 <=? h + 2 * 1) && (3 <=? wd + 2 * 1));
    [|discriminate]. cbn [bind guard].
  intros H. injection H as <-.
  exists n, c, h, wd. split; [reflexivity|].
  rewrite !Z.div_1_r. repeat f_equal; lia.
Qed.

(** The exemplar CNN takes crops of 3 channels, divides their side by 8 and
    keeps the batch. *)
Lemma exemplar_cnn_out (rt : Runtime) (w : Weights) (cfg : Config)
    (pe dpe st : tensor) (B c h wd : Z) (s1 s2 s3 s4 : list Z) :
  let m := with_parameters (SupervisedMAE_modules rt w cfg) pe dpe st in
  Sequential_out_shape (decoder_proj1 m) [B; c; h; wd] = Some s1 ->
  Sequential_out_shape (decoder_proj2 m) s1 = Some s2 ->
  Sequential_out_shape (decoder_proj3 m) s2 = Some s3 ->
  Sequential_out_shape (decoder_proj_final m) s3 = Some s4 ->
  c = 3 /\ s4 = [B; c_decoder_embed_dim cfg; h / 8; wd / 8].
Proof.
  intros m. unfold m. fields. intros H1 H2 H3 H4.
  apply cnn_stage_out in H1, H2, H3. apply cnn_final_out in H4.
  destruct H1 as (n1 & c1 & h1 & w1 & E1 & Hc & ->).
  injection E1 as <- <- <- <-.
  destruct H2 as (n2 & c2 & h2 & w2 & E2 & _ & ->). injection E2 as <- _ <- <-.
  destruct H3 as (n3 & c3 & h3 & w3 & E3 & _ & ->). injection E3 as <- _ <- <-.
  destruct H4 as (n4 & c4 & h4 & w4 & E4 & ->). injection E4 as <- _ <- <-.
  split; [exact Hc|].
  rewrite !Z.div_div by lia. reflexivity.
Qed.

Lemma square_inj (a b : Z) : 0 <= a -> 0 <= b -> a * a = b * b -> a = b.
Proof. intros Ha Hb H. nia. Qed.

(** The exemplar aggregator raises unless the encoded shots hold 64 cells
    per requested shot. *)
Lemma exemplar_aggregator_cells (rt : Runtime) (w : Weights) (cfg : Config)
    (pe dpe st : tensor) (S B K h wd : Z) (y1 : list tensor) :
  let m := with_parameters (SupervisedMAE_modules rt w cfg) pe dpe st in
  0 < B -> 0 < c_decoder_num_heads cfg -> 0 <= S -> 0 <= h -> 0 <= wd ->
  zlen y1 = K ->
  Forall (fun u => shape u = [1; B; 512; h; wd]) y1 ->
  K * (h * wd) <> S * 64 ->
  exemplar_aggregator m B S y1 = None.
Proof.
  intros m HB HH HS Hh Hw Hlen Hall Hne. unfold exemplar_aggregator.
  destruct y1 as [|u0 y1']; [reflexivity|].
  destruct (cat0_spec (u0 :: y1') [B; 512; h; wd]) as (c & -> & Hc);
    [discriminate | assumption |].
  rewrite Hlen in Hc. cbn [bind].
  destruct (permute_spec [1; 0; 3; 4; 2] c) as (c1 & -> & Hs1 & _);
    [now rewrite Hc|].
  rewrite Hc in Hs1. norm_in Hs1. cbn [bind].
  rewrite (flatten_spec 1 3 c1 1 3) by (rewrite ?Hs1; (reflexivity || lia)).
  rewrite Hs1. cbn [bind].
  set (t := {| shape := _; data := data c1 |}).
  assert (Ht : shape t = [B; K * (h * wd); 512]).
  { unfold t. cbn [shape]. norm. unfold numel. simpl. f_equal. f_equal. ring. }
  clearbody t. unfold m. fields.
  destruct (range (c_cross_blocks cfg)) as [|i l].
  - cbn [map exemplar_attention bind].
    apply bind_None. intros t' _. reflexivity.
  - cbn [map exemplar_attention].
    destruct (CrossAttentionBlock_forward_spec
                (mkCrossAttentionBlock 512 (c_decoder_num_heads cfg) true
                   (w_cross_out w (n_exemplar_blocks i))
                   (w_cross_attn w (n_exemplar_blocks i)))
                t t _ _ _ _ Ht Ht eq_refl) as (x' & -> & _).
    cbn [return_attn cab_num_heads bind].
    rewrite (attn_summary_mismatch B S (c_decoder_num_heads cfg) B
               (K * (h * wd))); [reflexivity | reflexivity |].
    unfold numel. simpl. intros E.
    apply Hne. apply square_inj; [unfold zlen in Hlen; nia | lia |].
    assert (E' : B * c_decoder_num_heads cfg * (K * (h * wd) * (K * (h * wd)))
                 = B * c_decoder_num_heads cfg * (S * 64 * (S * 64)))
      by (rewrite <- (Z.mul_1_r (K * (h * wd))) at 2; nia).
    apply Z.mul_reg_l in E'; [exact E' | nia].
Qed.

(** With shots requested, the decoder raises unless the shots it encodes
    hold 64 cells of the CNN's output grid per requested shot. *)
Lemma forward_decoder_cells (rt : Runtime) (w : Weights) (cfg : Config)
    (pe dpe st x boxes : tensor) (S B M h wd : Z) :
  let m := with_parameters (SupervisedMAE_modules rt w cfg) pe dpe st in
  shape st = [512] ->
  shape boxes = [B; M; 3; h; wd] ->
  0 < B -> 0 <= M -> 0 <= h -> 0 <= wd ->
  0 < c_decoder_num_heads cfg -> 1 <= S ->
  Z.min S M * (h / 8 * (wd / 8)) <> S * 64 ->
  forward_decoder rt m x boxes S = None.
Proof.
  intros m Hst Hbox HB HM Hh Hw HH HS Hne.
  destruct (Z.eq_dec (c_decoder_embed_dim cfg) 512) as [HD|HD];
    [|apply forward_decoder_width; auto].
  subst m. unfold forward_decoder.
  apply bind_None. intros x1 _. apply bind_None. intros x2 _.
  destruct (unbind_shots boxes B M 3 h wd HM Hbox)
    as (y_ & -> & Hy_ & Eys & Hys & Hlen).
  cbn [bind]. unfold shape_at at 1. rewrite Hy_.
  replace (norm_dim (zlen [M; B; 3; h; wd]) 1) with (Some 1) by reflexivity.
  cbn [bind]. replace (znth [M; B; 3; h; wd] 1) with B by reflexivity.
  rewrite Eys. cbn [bind].
  apply bind_None. intros [[y1 N'] C'] Henc.
  apply (exemplar_encoder_inv _ S [B; 3; h; wd] B 512 (h / 8) (wd / 8))
    in Henc; [| |exact Hys].
  2:{ intros s1 s2 s3 s4 H1 H2 H3 H4.
      destruct (exemplar_cnn_out rt w cfg pe dpe st B 3 h wd s1 s2 s3 s4
                  H1 H2 H3 H4) as (_ & ->).
      now rewrite HD. }
  destruct Henc as (new & -> & Hnew & Hlenn & Hnil & Hcons).
  cbn [app]. rewrite Hlen, Z.sub_0_r in Hlenn.
  unfold exemplar_tokens. rewrite gtb_pos by lia.
  apply bind_None. intros y Hy. exfalso. revert Hy.
  destruct new as [|u new]; [discriminate|].
  destruct Hcons as (-> & _); [discriminate|].
  rewrite (exemplar_aggregator_cells rt w cfg pe dpe st S B _ (h / 8) (wd / 8)
             (u :: new) HB HH ltac:(lia)
             ltac:(apply Z.div_pos; lia) ltac:(apply Z.div_pos; lia)
             Hlenn Hnew); [discriminate|].
  replace (Z.max 0 S) with S by lia. exact Hne.
Qed.

(** X6. When more shots are requested than 64x64 crops are supplied,
    [forward] raises for a non-empty batch: the loop over the shots stops
    after the supplied crops, and the reshape of the attention scores that
    the first exemplar block returns (of shape batch, heads, queries, keys)
    expects 64 tokens per requested shot; without crops at all,
    [torch.cat] gets an empty list. *)
Theorem X6_more_shots_than_crops (rt : Runtime) (w : Weights) (cfg : Config)
    (m : SupervisedMAE) (imgs boxes : tensor) (shot_num B M : Z)
    (grad : bool) :
  SupervisedMAE_init rt w cfg = Some m ->
  0 < c_decoder_num_heads cfg ->
  shape boxes = [B; M; 3; 64; 64] ->
  0 < B -> 0 <= M -> M < shot_num ->
  fst (forward rt imgs boxes shot_num (mkState m grad)) = None.
Proof.
  intros Hinit HH Hbox HB HM HS.
  destruct (SupervisedMAE_init_spec rt w cfg)
    as (pe & dpe & st & E & _ & _ & Hst & _).
  rewrite E in Hinit. injection Hinit as <-.
  rewrite forward_eq. cbn [fst module]. apply bind_None. intros latent _.
  apply (forward_decoder_cells rt w cfg pe dpe st latent boxes shot_num
           B M 64 64); try assumption; try lia.
  replace (64 / 8) with 8 by reflexivity. lia.
Qed.

Lemma X6_more_shots_than_crops_witness :
  fst (forward zero_runtime (zeros [2; 3; 32; 32]) (zeros [2; 1; 3; 64; 64]) 3
         (mkState patch8_module true)) = None.
Proof.
  apply (X6_more_shots_than_crops zero_runtime zero_weights patch8_config
           patch8_module (zeros [2; 3; 32; 32]) (zeros [2; 1; 3; 64; 64])
           3 2 1 true);
    [reflexivity | cbn; lia | reflexivity | lia | lia | lia].
Defined.

(** X7. With at least as many crops as requested shots, [forward] raises
    for a non-empty batch unless the crops give the exemplar CNN an output
    grid of 64 cells: a crop of [h] by [w] pixels gives [h // 8] by
    [w // 8] cells, so the side 64 of the crops is required up to the
    rounding and the split of the 64 cells between the two sides. *)
Theorem X7_crop_grid_of_64_cells (rt : Runtime) (w : Weights) (cfg : Config)
    (m : SupervisedMAE) (imgs boxes : tensor) (shot_num B M h wd : Z)
    (grad : bool) :
  SupervisedMAE_init rt w cfg = Some m ->
  0 < c_decoder_num_heads cfg ->
  shape boxes = [B; M; 3; h; wd] ->
  0 < B -> 0 <= h -> 0 <= wd -> 1 <= shot_num <= M ->
  (h / 8) * (wd / 8) <> 64 ->
  fst (forward rt imgs boxes shot_num (mkState m grad)) = None.
Proof.
  intros Hinit HH Hbox HB Hh Hw HS Hne.
  destruct (SupervisedMAE_init_spec rt w cfg)
    as (pe & dpe & st & E & _ & _ & Hst & _).
  rewrite E in Hinit. injection Hinit as <-.
  rewrite forward_eq. cbn [fst module]. apply bind_None. intros latent _.
  apply (forward_decoder_cells rt w cfg pe dpe st latent boxes shot_num
           B M h wd); try assumption; try lia.
  replace (Z.min shot_num M) with shot_num by lia. nia.
Qed.

Lemma X7_crop_grid_of_64_cells_witness :
  fst (forward zero_runtime (zeros [2; 3; 32; 32]) (zeros [2; 3; 3; 32; 32]) 3
         (mkState patch8_module true)) = None.
Proof.
  apply (X7_crop_grid_of_64_cells zero_runtime zero_weights patch8_config
           patch8_module (zeros [2; 3; 32; 32]) (zeros [2; 3; 3; 32; 32])
           3 2 3 32 32 true);
    [reflexivity | cbn; lia | reflexivity | lia | lia | lia | lia
     | vm_compute; discriminate].
Defined.

(** The loop over the shots raises at a first shot that the exemplar CNN
    rejects. *)
Lemma exemplar_encoder_rejects (self : SupervisedMAE) (shot_num : Z)
    (yi : tensor) (ys y1 : list tensor) (N C : Z) :
  1 <= shot_num ->
  Sequential_out_shape (decoder_proj1 self) (shape yi) = None ->
  exemplar_encoder self shot_num (yi :: ys) 0 y1 N C = None.
Proof.
  intros HS Hrej. cbn [exemplar_encoder].
  replace (0 + 1 >? shot_num) with false
    by (symmetry; rewrite Z.gtb_ltb; apply Z.ltb_ge; lia).
  apply bind_None. intros t1 H1. apply Sequential_forward_inv in H1.
  congruence.
Qed.

(** X8. With a shot requested, [forward] raises for crops that do not have
    3 channels: the first convolution of the exemplar CNN takes 3 input
    channels whatever [in_chans] the model was built with, and without
    crops [torch.cat] gets an empty list. *)
Theorem X8_crops_need_three_channels (rt : Runtime) (imgs boxes : tensor)
    (w : Weights) (cfg : Config) (m : SupervisedMAE)
    (shot_num B M c h wd : Z) (grad : bool) :
  SupervisedMAE_init rt w cfg = Some m ->
  shape boxes = [B; M; c; h; wd] ->
  0 <= M -> 1 <= shot_num -> c <> 3 ->
  fst (forward rt imgs boxes shot_num (mkState m grad)) = None.
Proof.
  intros Hinit Hbox HM HS Hc.
  destruct (SupervisedMAE_init_spec rt w cfg) as (pe & dpe & st & E & _).
  rewrite E in Hinit. injection Hinit as <-.
  rewrite forward_eq. cbn [fst module]. apply bind_None. intros latent _.
  unfold forward_decoder.
  apply bind_None. intros x1 _. apply bind_None. intros x2 _.
  destruct (unbind_shots boxes B M c h wd HM Hbox)
    as (y_ & -> & Hy_ & Eys & Hys & Hlen).
  cbn [bind]. unfold shape_at at 1. rewrite Hy_.
  replace (norm_dim (zlen [M; B; c; h; wd]) 1) with (Some 1) by reflexivity.
  cbn [bind]. rewrite Eys. cbn [bind].
  destruct (map (fun i => select0 i y_) (range M)) as [|yi ys].
  - cbn [exemplar_encoder bind]. unfold exemplar_tokens.
    rewrite gtb_pos by lia. reflexivity.
  - rewrite exemplar_encoder_rejects; [reflexivity | assumption |].
    rewrite (Forall_inv Hys). fields.
    cbn [Sequential_out_shape Conv2d out_shape].
    apply Z.eqb_neq in Hc. rewrite Hc. reflexivity.
Qed.

Lemma X8_crops_need_three_channels_witness :
  fst (forward zero_runtime (zeros [1; 1; 32; 32]) (zeros [1; 1; 1; 64; 64]) 1
         (mkState
            (constructed_for grey_config)
            true)) = None.
Proof.
  apply (X8_crops_need_three_channels zero_runtime (zeros [1; 1; 32; 32])
           (zeros [1; 1; 1; 64; 64]) zero_weights
           grey_config
           (constructed_for grey_config)
           1 1 1 1 64 64 true);
    [reflexivity | reflexivity | lia | lia | lia].
Defined.

(** ** The exemplar tokens handed to the decoder *)

(** X9. The token that the decoder receives for batch item [n] and shot [s]
    is row [s * N + n] of the pooled embeddings, which is the embedding of
    shot [(s * N + n) mod S] of batch item [(s * N + n) / S].  For a batch
    of one item, and for one shot, this is the embedding of shot [s] of
    batch item [n]. *)
Theorem X9_decoder_token_rows (rt : Runtime) (w : Weights) (cfg : Config)
    (self : SupervisedMAE) (N S : Z) (wt tok : tensor) :
  SupervisedMAE_init rt w cfg = Some self ->
  0 <= N -> 0 < S ->
  shape wt = [N; S * 8 * 8; 1] ->
  shape tok = [N; S * 8 * 8; 512] ->
  exists e y0 y,
    exemplar_pooling self N S wt tok = Some e /\
    reshape [S; N; 512] e = Some y0 /\
    transpose 0 1 y0 = Some y /\
    shape y = [N; S; 512] /\
    (forall n s c, 0 <= n < N -> 0 <= s < S -> 0 <= c < 512 ->
       get y [n; s; c] =
       shot_embedding wt tok ((s * N + n) / S) ((s * N + n) mod S) c) /\
    (N = 1 \/ S = 1 ->
     forall n s c, 0 <= n < N -> 0 <= s < S -> 0 <= c < 512 ->
       get y [n; s; c] = shot_embedding wt tok n s c).
Proof.
  intros Hinit HN HS Hwt Htok.
  destruct (SupervisedMAE_init_spec rt w cfg) as (pe & dpe & st & E & _).
  rewrite E in Hinit. injection Hinit as <-.
  destruct (exemplar_pooling_spec
              (with_parameters (SupervisedMAE_modules rt w cfg) pe dpe st)
              N S wt tok eq_refl HN HS Hwt Htok) as (e & He & Hse & Hge).
  destruct (decoder_tokens_rows e N S HN ltac:(lia) Hse)
    as (y0 & y & Hy0 & Hy & Hsy & Hgy).
  assert (Hrows : forall n s c, 0 <= n < N -> 0 <= s < S -> 0 <= c < 512 ->
            get y [n; s; c] =
            shot_embedding wt tok ((s * N + n) / S) ((s * N + n) mod S) c).
  { intros n s c Hn Hs Hc. rewrite (Hgy n s c Hn Hs Hc).
    set (r := s * N + n).
    assert (Hr : 0 <= r < N * S) by (unfold r; nia).
    pose proof (Z.div_mod r S ltac:(lia)) as Hdm.
    pose proof (Z.mod_pos_bound r S HS) as Hm.
    assert (Hq : 0 <= r / S < N).
    { split; [apply Z.div_pos; lia|].
      apply Z.div_lt_upper_bound; [lia | nia]. }
    replace r with (r / S * S + r mod S) at 1 by lia.
    exact (Hge (r / S) (r mod S) c Hq Hm Hc). }
  exists e, y0, y. repeat split; try assumption.
  intros Hone n s c Hn Hs Hc. rewrite (Hrows n s c Hn Hs Hc).
  destruct Hone as [-> | ->].
  - replace n with 0 by lia. rewrite Z.mul_1_r, Z.add_0_r.
    now rewrite Z.div_small, Z.mod_small by lia.
  - replace s with 0 by lia. rewrite Z.mul_0_l, Z.add_0_l.
    now rewrite Z.div_1_r, Z.mod_1_r.
Qed.

Lemma X9_decoder_token_rows_witness :
  exists e y0 y,
    exemplar_pooling patch8_module 1 3 (zeros [1; 3 * 8 * 8; 1])
      (zeros [1; 3 * 8 * 8; 512]) = Some e /\
    reshape [3; 1; 512] e = Some y0 /\
    transpose 0 1 y0 = Some y /\
    shape y = [1; 3; 512] /\
    (forall n s c, 0 <= n < 1 -> 0 <= s < 3 -> 0 <= c < 512 ->
       get y [n; s; c] =
       shot_embedding (zeros [1; 3 * 8 * 8; 1]) (zeros [1; 3 * 8 * 8; 512])
         ((s * 1 + n) / 3) ((s * 1 + n) mod 3) c) /\
    (1 = 1 \/ 3 = 1 ->
     forall n s c, 0 <= n < 1 -> 0 <= s < 3 -> 0 <= c < 512 ->
       get y [n; s; c] =
       shot_embedding (zeros [1; 3 * 8 * 8; 1]) (zeros [1; 3 * 8 * 8; 512])
         n s c).
Proof.
  apply (X9_decoder_token_rows zero_runtime zero_weights patch8_config
           patch8_module 1 3 (zeros [1; 3 * 8 * 8; 1])
           (zeros [1; 3 * 8 * 8; 512]));
    [reflexivity | lia | lia | reflexivity | reflexivity].
Defined.

Lemma rsum_le (n : Z) (f g : Z -> R) :
  (forall i, 0 <= i < n -> (f i <= g i)%R) -> (rsum n f <= rsum n g)%R.
Proof.
  destruct (Z.le_gt_cases n 0) as [Hn|Hn].
  - intros _. unfold rsum. rewrite (range_nonpos n Hn). simpl. lra.
  - rewrite <- (Z2Nat.id n) by lia. generalize (Z.to_nat n) as k.
    induction k as [|k IH]; intros H.
    + rewrite !rsum_0. lra.
    + rewrite Nat2Z.inj_succ in *. unfold Z.succ in *.
      rewrite !rsum_succ by lia.
      pose proof (H (Z.of_nat k) ltac:(lia)).
      assert (rsum (Z.of_nat k) f <= rsum (Z.of_nat k) g)%R
        by (apply IH; intros; apply H; lia).
      lra.
Qed.

(** X10. With positive gate weights, the pooled embedding of a shot stays
    within the bounds of the shot's 64 grid tokens, channel by channel: it
    is a convex combination of them. *)
Theorem X10_pooled_embedding_within_tokens (rt : Runtime) (w : Weights)
    (cfg : Config) (self : SupervisedMAE) (N S : Z) (wt tok : tensor) :
  SupervisedMAE_init rt w cfg = Some self ->
  0 <= N -> 0 < S ->
  shape wt = [N; S * 8 * 8; 1] ->
  shape tok = [N; S * 8 * 8; 512] ->
  (forall n q, 0 <= n < N -> 0 <= q < S * 8 * 8 -> Rlt 0 (get wt [n; q; 0])) ->
  exists e,
    exemplar_pooling self N S wt tok = Some e /\
    forall n s c lo hi, 0 <= n < N -> 0 <= s < S -> 0 <= c < 512 ->
      (forall p, 0 <= p < 64 ->
         Rle lo (get tok [n; s * 64 + p; c]) /\
         Rle (get tok [n; s * 64 + p; c]) hi) ->
      Rle lo (get e [n * S + s; c]) /\ Rle (get e [n * S + s; c]) hi.
Proof.
  intros Hinit HN HS Hwt Htok Hpos.
  destruct (SupervisedMAE_init_spec rt w cfg) as (pe & dpe & st & E & _).
  rewrite E in Hinit. injection Hinit as <-.
  destruct (exemplar_pooling_spec
              (with_parameters (SupervisedMAE_modules rt w cfg) pe dpe st)
              N S wt tok eq_refl HN HS Hwt Htok) as (e & He & Hse & Hge).
  exists e. split; [exact He|].
  intros n s c lo hi Hn Hs Hc Hb. rewrite (Hge n s c Hn Hs Hc).
  set (g := fun p => get wt [n; s * 64 + p; 0]).
  set (t := fun p => get tok [n; s * 64 + p; c]).
  assert (Hg : forall p, 0 <= p < 64 -> (0 < g p)%R).
  { intros p Hp. apply Hpos; lia. }
  assert (Hsum : (0 < rsum 64 g)%R) by (apply rsum_pos; [lia | exact Hg]).
  assert (Hlo : (lo * rsum 64 g <= rsum 64 (fun p => g p * t p))%R).
  { rewrite <- rsum_scale. apply rsum_le. intros p Hp.
    destruct (Hb p Hp) as (Hl & _). pose proof (Hg p Hp). fold (t p) in Hl.
    rewrite (Rmult_comm (g p)). apply Rmult_le_compat_r; lra. }
  assert (Hhi : (rsum 64 (fun p => g p * t p) <= hi * rsum 64 g)%R).
  { rewrite <- rsum_scale. apply rsum_le. intros p Hp.
    destruct (Hb p Hp) as (_ & Hh). pose proof (Hg p Hp). fold (t p) in Hh.
    rewrite (Rmult_comm (g p)). apply Rmult_le_compat_r; lra. }
  change (Rle lo (rsum 64 (fun p => g p * t p) / rsum 64 g)%R /\
          Rle (rsum 64 (fun p => g p * t p) / rsum 64 g)%R hi).
  split.
  - apply Rmult_le_reg_r with (r := rsum 64 g); [exact Hsum|].
    unfold Rdiv. rewrite Rmult_assoc, Rinv_l by lra. lra.
  - apply Rmult_le_reg_r with (r := rsum 64 g); [exact Hsum|].
    unfold Rdiv. rewrite Rmult_assoc, Rinv_l by lra. lra.
Qed.

Lemma X10_pooled_embedding_within_tokens_witness :
  exists e,
    exemplar_pooling patch8_module 2 2 unit_gate labelled_tokens = Some e /\
    forall n s c lo hi, 0 <= n < 2 -> 0 <= s < 2 -> 0 <= c < 512 ->
      (forall p, 0 <= p < 64 ->
         Rle lo (get labelled_tokens [n; s * 64 + p; c]) /\
         Rle (get labelled_tokens [n; s * 64 + p; c]) hi) ->
      Rle lo (get e [n * 2 + s; c]) /\ Rle (get e [n * 2 + s; c]) hi.
Proof.
  apply (X10_pooled_embedding_within_tokens zero_runtime zero_weights
           patch8_config patch8_module 2 2 unit_gate labelled_tokens);
    [reflexivity | lia | lia | reflexivity | reflexivity |].
  intros n q Hn Hq. unfold unit_gate.
  rewrite get_tabulate by (repeat constructor; lia). lra.
Defined.

(** ** The token sequence of the encoded shots *)

Lemma exemplar_aggregator_sequence (self : SupervisedMAE) (N shot_num : Z)
    (y1 : list tensor) :
  exemplar_aggregator self N shot_num y1 =
  (t <- exemplar_sequence y1 ;;
   '(t, attns) <- exemplar_attention (exemplar_blocks self) N shot_num
                    (decoder_num_heads self) t [] ;;
   t <- Layer_forward (exemplar_norm self) t ;;
   attns <- exemplar_gate self attns ;;
   exemplar_pooling self N shot_num attns t).
Proof.
  unfold exemplar_aggregator, exemplar_sequence.
  destruct (cat0 y1) as [c|]; [|reflexivity]. cbn [bind].
  destruct (permute [1; 0; 3; 4; 2] c) as [c1|]; reflexivity.
Qed.

Lemma nth_concat_uniform (ls : list (list R)) (len : nat) (d : R) :
  Forall (fun l => List.length l = len) ls ->
  forall s r, (r < len)%nat ->
    nth (s * len + r) (concat ls) d = nth r (nth s ls []) d.
Proof.
  induction 1 as [|l ls Hl _ IH]; intros s r Hr.
  - cbn [concat]. rewrite (nth_overflow (A := list R)) by (simpl; lia).
    now rewrite !nth_overflow by (simpl; lia).
  - destruct s as [|s]; cbn [concat nth].
    + rewrite app_nth1 by lia. reflexivity.
    + rewrite app_nth2 by lia.
      replace (S s * len + r - List.length l)%nat with (s * len + r)%nat
        by lia.
      now apply IH.
Qed.

(** [torch.cat] of tensors of leading size 1 stacks them. *)
Lemma get_cat0 (ts : list tensor) (rest : list Z) (c : tensor) :
  Forall (fun t => shape t = 1 :: rest /\ wf t) ts ->
  cat0 ts = Some c ->
  forall s idx, 0 <= s < zlen ts -> in_bounds rest idx ->
    get c (s :: idx) = get (nth (Z.to_nat s) ts (zeros [])) (0 :: idx).
Proof.
  intros Hall Hc s idx Hs Hb.
  assert (Hsh : Forall (fun t => shape t = 1 :: rest) ts)
    by (eapply Forall_impl; [|exact Hall]; now intros t (H & _)).
  destruct ts as [|t0 ts']; [discriminate|].
  destruct (cat0_spec (t0 :: ts') rest) as (c' & Ec & Hc');
    [discriminate | exact Hsh |].
  assert (c' = c) by congruence. subst c'.
  assert (Hd : data c = concat (map data (t0 :: ts'))).
  { unfold cat0 in Hc. rewrite (Forall_inv Hsh) in Hc.
    destruct (guard _); [|discriminate]. cbn [bind] in Hc.
    now injection Hc as <-. }
  pose proof (ravel_bounds _ _ Hb) as Hr.
  set (l := t0 :: ts') in *.
  assert (Hnth : shape (nth (Z.to_nat s) l (zeros [])) = 1 :: rest).
  { rewrite Forall_forall in Hsh. apply Hsh. apply nth_In.
    unfold zlen in Hs. lia. }
  unfold get. rewrite Hc', Hd, Hnth. cbn [ravel].
  rewrite Z.mul_0_l, Z.add_0_l.
  replace (Z.to_nat (s * numel rest + ravel rest idx))
    with (Z.to_nat s * Z.to_nat (numel rest) + Z.to_nat (ravel rest idx))%nat
    by nia.
  assert (Hlen : Forall (fun d => List.length d = Z.to_nat (numel rest))
                   (map data l)).
  { apply Forall_map. eapply Forall_impl; [|exact Hall].
    intros t (E & Hwf). cbn beta. rewrite Hwf, E, numel_cons. f_equal. lia. }
  rewrite (nth_concat_uniform _ _ 0%R Hlen) by lia.
  f_equal.
  rewrite (nth_indep _ [] (data (zeros [])))
    by (rewrite length_map; unfold zlen in Hs; lia).
  apply map_nth.
Qed.

(** X11. The token sequence built from the encoded shots holds, for every
    batch item, the 64 cells of the first shot, then those of the second,
    and so on, each 8x8 grid row by row: token [s * 64 + i * 8 + j] of batch
    item [n] is cell [(i, j)] of the feature map of shot [s] for item [n].
    The grouping by 64 tokens in the pooling relies on this order. *)
Theorem X11_exemplar_sequence_layout (y1 : list tensor) (B D : Z) :
  0 <= B -> 0 <= D ->
  y1 <> [] ->
  Forall (fun u => shape u = [1; B; D; 8; 8] /\ wf u) y1 ->
  exists t,
    exemplar_sequence y1 = Some t /\
    shape t = [B; zlen y1 * 64; D] /\
    forall n s i j c,
      0 <= n < B -> 0 <= s < zlen y1 -> 0 <= i < 8 -> 0 <= j < 8 ->
      0 <= c < D ->
      get t [n; s * 64 + i * 8 + j; c] =
      get (nth (Z.to_nat s) y1 (zeros [])) [0; n; c; i; j].
Proof.
  intros HB HD Hne Hall. unfold exemplar_sequence.
  assert (Hsh : Forall (fun t => shape t = [1; B; D; 8; 8]) y1)
    by (eapply Forall_impl; [|exact Hall]; now intros t (H & _)).
  destruct (cat0_spec y1 [B; D; 8; 8] Hne Hsh) as (c0 & Ec & Hc).
  rewrite Ec. cbn [bind].
  destruct (permute_spec [1; 0; 3; 4; 2] c0) as (c1 & -> & Hs1 & _ & Hg1);
    [now rewrite Hc|].
  rewrite Hc in Hs1, Hg1. norm_in Hs1. rewrite Hs1 in Hg1. cbn [bind].
  rewrite (flatten_spec 1 3 c1 1 3) by (rewrite ?Hs1; (reflexivity || lia)).
  rewrite Hs1. eexists. split; [reflexivity|]. split.
  { cbn [shape]. norm. unfold numel. simpl. reflexivity. }
  intros n s i j c Hn Hs Hi Hj Hc'.
  pose proof Hs as Hs'. unfold zlen in Hs'.
  transitivity (get c1 [n; s; i; j; c]).
  { apply get_reshaped. rewrite Hs1.
    match goal with
    | |- ravel ?sh _ = _ =>
        replace sh with [B; zlen y1 * 64; D]
          by (norm; unfold numel; simpl; reflexivity)
    end.
    cbn [ravel]. unfold numel. cbn [fold_right]. unfold zlen. ring. }
  rewrite (Hg1 [n; s; i; j; c]) by bounds. norm.
  apply (get_cat0 y1 [B; D; 8; 8] c0 Hall Ec s [n; c; i; j] Hs). bounds.
Qed.

Lemma X11_exemplar_sequence_layout_witness :
  exists t,
    exemplar_sequence [zeros [1; 2; 3; 8; 8]; zeros [1; 2; 3; 8; 8]] = Some t /\
    shape t = [2; zlen [zeros [1; 2; 3; 8; 8]; zeros [1; 2; 3; 8; 8]] * 64; 3]
    /\
    forall n s i j c,
      0 <= n < 2 ->
      0 <= s < zlen [zeros [1; 2; 3; 8; 8]; zeros [1; 2; 3; 8; 8]] ->
      0 <= i < 8 -> 0 <= j < 8 -> 0 <= c < 3 ->
      get t [n; s * 64 + i * 8 + j; c] =
      get (nth (Z.to_nat s) [zeros [1; 2; 3; 8; 8]; zeros [1; 2; 3; 8; 8]]
             (zeros [])) [0; n; c; i; j].
Proof.
  apply (X11_exemplar_sequence_layout
           [zeros [1; 2; 3; 8; 8]; zeros [1; 2; 3; 8; 8]] 2 3);
    [lia | lia | discriminate |].
  repeat constructor; apply wf_tabulate.
Defined.
